(** * VIM://RUNNER: the command pipeline and the game-mode machine

    A shallow embedding of the JavaScript sources
    - js/game_objects/enemy.js          (Modules [Enemy] and [Chaser])
    - js/game_objects/enemies/chaser.js (Module [Chaser])
    - js/game_logic/levelManager.js     (Modules [Grid] and [LevelManager])
    - js/input/inputHandler.js          (Modules [Input] and [Keys])
    - js/game_objects/player.js         (Module [Player])
    - js/core/stateManager.js           (Modules [Game] and [Waiting])
    and the properties of the specification checked against them.

    Conventions.  JavaScript numbers that the code only ever uses as grid
    coordinates, counts, health and score are integers [Z]; a number that
    may be [NaN] (the result of [parseInt]) is an [option Z] with [None]
    for [NaN].  An object literal used as a table is read through its
    own keys and, when the key is any string, through the names it
    inherits from [Object.prototype] ([inheritedNames]); a [Map] is a
    [gmap].  A mutable array is a [list] read with [!!] and updated by
    index.
    [console.log] lines carry no state and are left out; [console.error]
    and the calls into the renderer and the UI manager are recorded in a
    trace.  Several method bodies are elided in the sources
    ([/* ... (remains the same) ... */]); each of them that the
    properties need is modelled from the specification and marked so. *)

From Stdlib Require Import ZArith List String Ascii Lia Bool.
From stdpp Require Import gmap strings list pretty.

Local Open Scope string_scope.
Local Open Scope Z_scope.

(** ** Arrays read at a JavaScript index *)

(** [a[i]] for an integer [i]: [undefined] below zero and past the end. *)
Definition at_index {A : Type} (a : list A) (i : Z) : option A :=
  if i <? 0 then None else a !! Z.to_nat i.

(** ** Objects used as tables *)

(** The names every plain object inherits from [Object.prototype].  On
    an object literal used as a table, [table[name]] finds a member of
    the prototype under each of them (a function, or the prototype
    itself under [__proto__]), and every such member is truthy. *)
Definition inheritedNames : list string :=
  [ "constructor"; "hasOwnProperty"; "isPrototypeOf"; "propertyIsEnumerable";
    "toLocaleString"; "toString"; "valueOf"; "__proto__";
    "__defineGetter__"; "__defineSetter__"; "__lookupGetter__";
    "__lookupSetter__" ].

Definition inherited (name : string) : bool :=
  existsb (String.eqb name) inheritedNames.

(** ** Loops *)

(** [for (let i = lo; i <= hi; i++) body(i)] over a state. *)
Definition forZ {S : Type} (lo hi : Z) (body : Z -> S -> S) (s : S) : S :=
  foldl (fun s i => body i s) s (seqZ lo (hi - lo + 1)).

(** [for (let i = n - 1; i >= 0; i--) if (test(i)) return i;]: the
    greatest index below [n] that satisfies [test]. *)
Fixpoint lastBelow (test : nat -> bool) (n : nat) : option nat :=
  match n with
  | O => None
  | S k => if test k then Some k else lastBelow test k
  end.

(** The least index in [from, from + fuel) that satisfies [test]. *)
Fixpoint firstFrom (test : nat -> bool) (fuel from : nat) : option nat :=
  match fuel with
  | O => None
  | S f => if test from then Some from else firstFrom test f (S from)
  end.

(** ** js/game_objects/enemy.js *)

Module Enemy.

(** The lifecycle states named in the constructor's documentation, and
    ['defeated'], which [takeDamage] sets. *)
Inductive State := idle | chasing | attacking | defeated.

(** The fields of an [Enemy] instance.  [speed], [moveCooldown] and
    [currentLevelGrid] only drive movement and are not part of this
    model. *)
Record t := mk {
  id : N;
  x : Z;
  y : Z;
  char : ascii;
  type : string;
  health : Z;
  state : State
}.

Definition set_health (h : Z) (e : t) : t :=
  mk (id e) (x e) (y e) (char e) (type e) h (state e).

Definition set_state (s : State) (e : t) : t :=
  mk (id e) (x e) (y e) (char e) (type e) (health e) s.

(** [takeDamage(amount)]:
    [this.health -= amount; this.health = Math.max(0, this.health);
     if (this.health === 0) this.state = 'defeated';] *)
Definition takeDamage (amount : Z) (e : t) : t :=
  let e1 := set_health (health e - amount) e in
  let e2 := set_health (Z.max 0 (health e1)) e1 in
  if health e2 =? 0 then set_state defeated e2 else e2.

(** [isDefeated() { return this.health <= 0; }] *)
Definition isDefeated (e : t) : bool := health e <=? 0.

Definition getPosition (e : t) : Z * Z := (x e, y e).

End Enemy.

(** ** Tiles and levels (js/game_logic/levelManager.js) *)

Module Grid.

(** The tile types the level definitions and the states use. *)
Inductive TileType :=
  pathway | data_node | corrupted | barrier | exit_node | decoration.

Global Instance TileType_eq_dec : EqDecision TileType.
Proof. solve_decision. Defined.

(** A tile object: [{ char, type }], with the optional word markers
    [_stringToTiles] adds. *)
Record Tile := mkTile {
  char : ascii;
  type : TileType;
  requiredWord : option string;
  isWordStart : bool;
  isPartOfWord : bool
}.

(** A partial tile object such as [{ char: '.', type: 'pathway' }] or
    [{ char: c }]: the keys that are present. *)
Record TileData := mkTileData {
  new_char : option ascii;
  new_type : option TileType
}.

(** [{ ...tile, ...tileData }], the merge [_placeTile] performs. *)
Definition merge (tile : Tile) (d : TileData) : Tile :=
  mkTile (default (char tile) (new_char d))
         (default (type tile) (new_type d))
         (requiredWord tile) (isWordStart tile) (isPartOfWord tile).

(** Level data as [loadLevel] returns it; [tiles] is indexed
    [tiles[y][x]]. *)
Record Level := mkLevel {
  id : Z;
  width : Z;
  height : Z;
  tiles : list (list Tile)
}.

Definition set_tiles (ts : list (list Tile)) (l : Level) : Level :=
  mkLevel (id l) (width l) (height l) ts.

(** The bounds test of [handleRangeAction] and [_isValidMove], negated:
    [!(y < 0 || y >= height || x < 0 || x >= width)]. *)
Definition inBounds (l : Level) (x y : Z) : bool :=
  negb ((y <? 0) || (height l <=? y) || (x <? 0) || (width l <=? x)).

(** [tiles[y]?.[x]] *)
Definition tileAt (l : Level) (x y : Z) : option Tile :=
  row ← at_index (tiles l) y; at_index row x.

(** [tiles[y][x] = t] on an existing row and column; nothing happens
    elsewhere. *)
Definition setTile (l : Level) (x y : Z) (t : Tile) : Level :=
  if (x <? 0) || (y <? 0) then l
  else set_tiles (alter (fun row => <[Z.to_nat x := t]> row) (Z.to_nat y) (tiles l)) l.

End Grid.

(** ** js/input/inputHandler.js: the handler's state and its simple methods *)

Module Input.

(** [INPUT_MODE] *)
Inductive Mode := NORMAL | TYPING.

Global Instance Mode_eq_dec : EqDecision Mode.
Proof. solve_decision. Defined.

(** The values of [motionMap], with ['LINE'] (doubled operator) and
    ['LINE_START'] (the key [0]).  [INHERITED name] is the member of
    [Object.prototype] that [motionMap[name]] finds for a key such as
    [toString]: it is not a motion name, and the resolver's [switch]
    falls to its [default] case for it. *)
Inductive Motion :=
  | LEFT | DOWN | UP | RIGHT
  | WORD_FORWARD | WORD_BACKWARD | WORD_END
  | LINE_END | LINE_FIRST_CHAR
  | LINE | LINE_START
  | INHERITED (name : string).

(** The values of [typeMap]. *)
Inductive Operator := DELETE | CHANGE | YANK.

(** The values of [simpleCommandMap]. *)
Inductive Simple :=
  DELETE_CHAR | REPLACE_CHAR_START | PASTE_AFTER | PASTE_BEFORE | UNDO.

(** The command objects the handler queues, by their [type] field.
    [count] is the result of [parseInt]: [None] is [NaN]. *)
Inductive Command :=
  | CLEAR_BUFFER
  | MOVE_TO (target : Motion) (count : option Z)
  | OperatorMotion (type : Operator) (motion : Motion) (count : option Z)
  | MOVE (direction : Motion) (count : option Z)
  | SimpleCommand (type : Simple) (count : option Z)
  | REPLACE_CHAR_EXECUTE (char : string)
  | EXIT_TYPING
  | TYPE_BACKSPACE (index : nat)
  | TYPE_CORRECT (char : string) (index : nat)
  | TYPE_INCORRECT (char expected : string) (index : nat)
  | PHRASE_COMPLETE.

(** The closures the game states register as action listeners, one
    constructor per arrow function in stateManager.js; [Game.call]
    gives each its body. *)
Inductive Callback :=
  | PlayingPause            (* () => switchTo('PAUSED') *)
  | MenuConfirm             (* () => switchTo('LOADING', { levelId: 1 }) *)
  | PausedUnpause           (* () => switchTo('PLAYING') *)
  | GameOverConfirm         (* () => switchTo('LOADING', { levelId: this.levelId }) *)
  | GameOverMenu            (* () => switchTo('MENU') *)
  | LevelCompleteConfirm    (* nextLevelId ? LOADING(nextLevelId) : MENU *)
  | LevelCompleteMenu.      (* () => switchTo('MENU') *)

Record t := mk {
  active : bool;
  mode : Mode;
  commandBuffer : string;
  numericPrefix : string;
  targetTypingPhrase : string;
  currentTypingIndex : nat;
  commandQueue : list Command;
  actionListeners : gmap string Callback
}.

(** The constructor. *)
Definition new : t := mk true NORMAL "" "" "" 0 [] ∅.

Definition set_buffers (buffer prefix : string) (h : t) : t :=
  mk (active h) (mode h) buffer prefix (targetTypingPhrase h)
     (currentTypingIndex h) (commandQueue h) (actionListeners h).

Definition set_commandBuffer (buffer : string) (h : t) : t :=
  set_buffers buffer (numericPrefix h) h.

Definition set_numericPrefix (prefix : string) (h : t) : t :=
  set_buffers (commandBuffer h) prefix h.

Definition set_commandQueue (q : list Command) (h : t) : t :=
  mk (active h) (mode h) (commandBuffer h) (numericPrefix h)
     (targetTypingPhrase h) (currentTypingIndex h) q (actionListeners h).

Definition set_actionListeners (m : gmap string Callback) (h : t) : t :=
  mk (active h) (mode h) (commandBuffer h) (numericPrefix h)
     (targetTypingPhrase h) (currentTypingIndex h) (commandQueue h) m.

Definition set_currentTypingIndex (i : nat) (h : t) : t :=
  mk (active h) (mode h) (commandBuffer h) (numericPrefix h)
     (targetTypingPhrase h) i (commandQueue h) (actionListeners h).

(** [setActive(isActive)] *)
Definition setActive (isActive : bool) (h : t) : t :=
  let h := mk isActive (mode h) (commandBuffer h) (numericPrefix h)
              (targetTypingPhrase h) (currentTypingIndex h)
              (commandQueue h) (actionListeners h) in
  if negb isActive
  then set_commandQueue [] (set_buffers "" "" h)
  else h.

(** [setMode(newMode, options)]; [targetPhrase] is
    [options.targetPhrase || ''], the empty string when absent. *)
Definition setMode (newMode : Mode) (targetPhrase : string) (h : t) : t :=
  if decide (mode h = newMode) then h
  else
    match newMode with
    | TYPING => mk (active h) TYPING "" "" targetPhrase 0
                   (commandQueue h) (actionListeners h)
    | NORMAL => mk (active h) NORMAL "" "" "" 0
                   (commandQueue h) (actionListeners h)
    end.

(** [registerActionListener(actionName, callback)] *)
Definition registerActionListener (actionName : string) (cb : Callback) (h : t) : t :=
  set_actionListeners (<[actionName := cb]> (actionListeners h)) h.

(** [unregisterActionListener(actionName)] *)
Definition unregisterActionListener (actionName : string) (h : t) : t :=
  set_actionListeners (delete actionName (actionListeners h)) h.

(** [queueCommand(command)]: [None] is a falsy argument. *)
Definition queueCommand (command : option Command) (h : t) : t :=
  match command with
  | Some c => set_commandQueue (commandQueue h ++ [c]) h
  | None => h
  end.

(** [getCommands()]: the queued commands, and the handler with its
    queue emptied. *)
Definition getCommands (h : t) : list Command * t :=
  match commandQueue h with
  | [] => ([], h)
  | q => (q, set_commandQueue [] h)
  end.

(** [getCommandBufferDisplay()] *)
Definition getCommandBufferDisplay (h : t) : string :=
  ":" ++ numericPrefix h ++ commandBuffer h.

(** [clearCommandBuffer()] *)
Definition clearCommandBuffer (h : t) : t := set_buffers "" "" h.

(** *** Keys *)

Definition isDigit (c : ascii) : bool :=
  ((48 <=? nat_of_ascii c) && (nat_of_ascii c <=? 57))%nat.

(** [/^[1-9]$/.test(key)] *)
Definition test_1_9 (key : string) : bool :=
  match key with
  | String c "" => ((49 <=? nat_of_ascii c) && (nat_of_ascii c <=? 57))%nat
  | _ => false
  end.

(** [/^[0]$/.test(key)] *)
Definition test_0 (key : string) : bool := String.eqb key "0".

(** [/^[0-9]$/.test(key)] *)
Definition test_0_9 (key : string) : bool :=
  match key with
  | String c "" => isDigit c
  | _ => false
  end.

(** [array.includes(s)] on an array of strings. *)
Definition includes (array : list string) (s : string) : bool :=
  existsb (String.eqb s) array.

(** [parseInt(s, 10)]: leading white space, an optional sign, then the
    longest run of decimal digits; [NaN] when there is no digit.  The
    value is the integer the digits denote, which is what JavaScript
    returns up to 2^53; beyond that JavaScript rounds to a double, which
    this definition does not follow, so a statement about the number a
    digit string denotes bounds it by 2^53. *)
Definition isSpace (c : ascii) : bool :=
  let n := nat_of_ascii c in
  ((n =? 32) || ((9 <=? n) && (n <=? 13)))%nat.

Fixpoint skipSpace (s : string) : string :=
  match s with
  | String c r => if isSpace c then skipSpace r else s
  | EmptyString => s
  end.

Fixpoint digitsValue (acc : Z) (s : string) : Z :=
  match s with
  | String c r =>
      if isDigit c
      then digitsValue (10 * acc + (Z.of_nat (nat_of_ascii c) - 48)) r
      else acc
  | EmptyString => acc
  end.

Definition parseDigits (s : string) : option Z :=
  match s with
  | String c _ => if isDigit c then Some (digitsValue 0 s) else None
  | EmptyString => None
  end.

Definition parseInt (s : string) : option Z :=
  match skipSpace s with
  | String "-" r => Z.opp <$> parseDigits r
  | String "+" r => parseDigits r
  | r => parseDigits r
  end.

(** [motionMap[key]]: the value under one of the nine own keys, or the
    member inherited from [Object.prototype], which is truthy as well. *)
Definition motionMap (key : string) : option Motion :=
  if String.eqb key "h" then Some LEFT
  else if String.eqb key "j" then Some DOWN
  else if String.eqb key "k" then Some UP
  else if String.eqb key "l" then Some RIGHT
  else if String.eqb key "w" then Some WORD_FORWARD
  else if String.eqb key "b" then Some WORD_BACKWARD
  else if String.eqb key "e" then Some WORD_END
  else if String.eqb key "$" then Some LINE_END
  else if String.eqb key "^" then Some LINE_FIRST_CHAR
  else if inherited key then Some (INHERITED key)
  else None.

(** [simpleCommandMap[key]], which the handler reads only when
    [motionMap[key]] is falsy, so never at an inherited name. *)
Definition simpleCommandMap (key : string) : option Simple :=
  if String.eqb key "x" then Some DELETE_CHAR
  else if String.eqb key "r" then Some REPLACE_CHAR_START
  else if String.eqb key "p" then Some PASTE_AFTER
  else if String.eqb key "P" then Some PASTE_BEFORE
  else if String.eqb key "u" then Some UNDO
  else None.

(** [typeMap[key]], which the handler reads only for the keys [d], [c]
    and [y]. *)
Definition typeMap (key : string) : option Operator :=
  if String.eqb key "d" then Some DELETE
  else if String.eqb key "c" then Some CHANGE
  else if String.eqb key "y" then Some YANK
  else None.

(** [_handleTypingMode(key)] *)
Definition _handleTypingMode (key : string) (h : t) : t :=
  if String.eqb key "Escape" then queueCommand (Some EXIT_TYPING) h
  else if String.eqb key "Backspace" then
    match currentTypingIndex h with
    | S i => queueCommand (Some (TYPE_BACKSPACE i)) (set_currentTypingIndex i h)
    | O => h
    end
  else if (1 <? String.length key)%nat then h
  else
    let i := currentTypingIndex h in
    if (i <? String.length (targetTypingPhrase h))%nat then
      let expectedChar := substring i 1 (targetTypingPhrase h) in
      if String.eqb key expectedChar then
        let h := queueCommand (Some (TYPE_CORRECT key i)) h in
        let h := set_currentTypingIndex (S i) h in
        if (S i =? String.length (targetTypingPhrase h))%nat
        then queueCommand (Some PHRASE_COMPLETE) h
        else h
      else queueCommand (Some (TYPE_INCORRECT key expectedChar i)) h
    else h.

End Input.

(** ** js/game_objects/player.js: the action resolver *)

Module Player.
Import Grid.

Record Pos := mkPos { pos_x : Z; pos_y : Z }.

(** The [{ startX, startY, endX, endY }] object of a range request. *)
Record Range := mkRange { startX : Z; startY : Z; endX : Z; endY : Z }.

Inductive ActionType := DELETE_RANGE | CHANGE_RANGE | YANK_RANGE | REPLACE_CHAR.

Inductive Target :=
  | RangeTarget (r : Range)
  | CharTarget (x y : Z) (char : string).

(** An action request [{ type, target, cost }]. *)
Record Action := mkAction {
  type : ActionType;
  target : Target;
  cost : Z
}.

(** The player.  The class body is elided in the source apart from
    [handleInput] and [_handleDeleteOrChangeMotion], which read [x], [y]
    and [currentLevelGrid]; [score], [integrity] and [cpuCycles] are the
    pools behind [getScore], [getIntegrity] and the action costs. *)
Record t := mk {
  x : Z;
  y : Z;
  currentLevelGrid : option Level;
  score : Z;
  integrity : Z;
  cpuCycles : Z
}.

(** The methods of [Player] whose bodies the source elides
    ([/* ... (remains the same) ... */]).  The resolver is written
    against this interface; the finders take the level they read from
    [this.currentLevelGrid]. *)
Record Helpers := mkHelpers {
  _findNextWordStart : Level -> Z -> Z -> option Pos;
  _findPreviousWordStart : Level -> Z -> Z -> option Pos;
  _findWordEnd : Level -> Z -> Z -> option Pos;
  _findLineStart : Level -> Z -> Pos;
  _findLineEnd : Level -> Z -> Pos;
  _findLineFirstChar : Level -> Z -> Pos;
  requestAction : t -> ActionType -> Target -> Z -> option Action * t
}.

(** [baseActionType + '_RANGE'] *)
Definition rangeType (baseActionType : Input.Operator) : ActionType :=
  match baseActionType with
  | Input.DELETE => DELETE_RANGE
  | Input.CHANGE => CHANGE_RANGE
  | Input.YANK => YANK_RANGE
  end.

(** The loop of the [WORD_FORWARD] and [WORD_BACKWARD] cases:
    [for (i = 0; i < count; i++) { targetPos = find(targetPos.x, targetPos.y);
       if (!targetPos) { targetPos = fallback; break; } }] *)
Fixpoint wordLoop (find : Z -> Z -> option Pos) (fallback : Pos)
    (n : nat) (targetPos : Pos) : Pos :=
  match n with
  | O => targetPos
  | S n' =>
      match find (pos_x targetPos) (pos_y targetPos) with
      | Some p => wordLoop find fallback n' p
      | None => fallback
      end
  end.

(** The loop of the [WORD_END] case; between two iterations the position
    is advanced by one column when it is not the last one. *)
Fixpoint wordEndLoop (find : Z -> Z -> option Pos) (width : Z)
    (n : nat) (targetPos : Pos) : option Pos :=
  match n with
  | O => Some targetPos
  | S n' =>
      match find (pos_x targetPos) (pos_y targetPos) with
      | None => None
      | Some p =>
          let p' :=
            if negb (Nat.eqb n' 0) && (pos_x p <? width - 1)
            then mkPos (pos_x p + 1) (pos_y p) else p in
          wordEndLoop find width n' p'
      end
  end.

(** The [switch (motion)] of [_handleDeleteOrChangeMotion]: the span and
    its cost, or [None] where a case returns [null].  [startX], [startY],
    [endX], [endY] start as the cursor position. *)
Definition motionSpan (H : Helpers) (grid : Level) (p : t)
    (motion : Input.Motion) (count : Z) : option (Range * Z) :=
  match motion with
  | Input.LINE =>
      let startX := 0 in
      let endX := width grid - 1 in
      let startY := y p in
      let endY := Z.min (y p + count - 1) (height grid - 1) in
      Some (mkRange startX startY endX endY, 10 * count * (endX - startX + 1))
  | Input.LEFT =>
      let '(startX, endX) :=
        if 0 <? count then (Z.max 0 (x p - count), x p - 1)
        else (x p, x p - 1) in
      if endX <? startX then None
      else Some (mkRange startX (y p) endX (y p), endX - startX + 1)
  | Input.RIGHT =>
      let startX := x p in
      let endX := Z.min (width grid - 1) (x p + count - 1) in
      Some (mkRange startX (y p) endX (y p), endX - startX + 1)
  | Input.UP | Input.DOWN =>
      let isDown := match motion with Input.DOWN => true | _ => false end in
      let targetLineY :=
        if isDown then Z.min (height grid - 1) (y p + count)
        else Z.max 0 (y p - count) in
      let startY := if isDown then y p else targetLineY in
      let endY := if isDown then targetLineY else y p in
      Some (mkRange 0 startY (width grid - 1) endY,
            10 * (Z.abs (targetLineY - y p) + 1))
  | Input.WORD_FORWARD =>
      let targetPos :=
        wordLoop (_findNextWordStart H grid) (_findLineEnd H grid (y p))
                 (Z.to_nat count) (mkPos (x p) (y p)) in
      let startX := x p in
      let endX := pos_x targetPos - 1 in
      Some (mkRange startX (y p) endX (y p), 3 * count + Z.abs (endX - startX))
  | Input.WORD_END =>
      let targetPos :=
        wordEndLoop (_findWordEnd H grid) (width grid)
                    (Z.to_nat count) (mkPos (x p) (y p)) in
      let startX := x p in
      let endX := match targetPos with Some q => pos_x q | None => x p end in
      Some (mkRange startX (y p) endX (y p), 3 * count + Z.abs (endX - startX))
  | Input.WORD_BACKWARD =>
      let targetPos :=
        wordLoop (_findPreviousWordStart H grid) (_findLineStart H grid (y p))
                 (Z.to_nat count) (mkPos (x p) (y p)) in
      let startX := pos_x targetPos in
      let endX := x p - 1 in
      if endX <? startX then None
      else Some (mkRange startX (y p) endX (y p), 3 * count + Z.abs (endX - startX))
  | Input.LINE_END =>
      let targetPos := _findLineEnd H grid (y p) in
      let startX := x p in
      let endX := pos_x targetPos in
      Some (mkRange startX (y p) endX (y p), 5 + Z.abs (endX - startX))
  | Input.LINE_START =>
      let targetPos := _findLineStart H grid (y p) in
      let startX := pos_x targetPos in
      let endX := x p - 1 in
      if endX <? startX then None
      else Some (mkRange startX (y p) endX (y p), 5 + Z.abs (endX - startX))
  | Input.LINE_FIRST_CHAR =>
      let targetPos := _findLineFirstChar H grid (y p) in
      let startX := pos_x targetPos in
      let endX := x p - 1 in
      if endX <? startX then None
      else Some (mkRange startX (y p) endX (y p), 5 + Z.abs (endX - startX))
  | Input.INHERITED _ =>
      (* [default:] a warning and [return null] *)
      None
  end.

(** [_handleDeleteOrChangeMotion(motion, count, baseActionType)]: the
    action request or [null], and the player after the call. *)
Definition _handleDeleteOrChangeMotion (H : Helpers) (p : t)
    (motion : Input.Motion) (count : Z) (baseActionType : Input.Operator)
    : option Action * t :=
  match currentLevelGrid p with
  | None => (None, p)
  | Some grid =>
      let actionType := rangeType baseActionType in
      match motionSpan H grid p motion count with
      | None => (None, p)
      | Some (range, cost) => requestAction H p actionType (RangeTarget range) cost
      end
  end.

(** *** The elided helpers, from the specification *)

Section SpecHelpers.

(** The whitespace classification of a glyph, [_isWhitespace(char)]:
    elided in the source and not fixed by the specification. *)
Variable _isWhitespace : ascii -> bool.

(** A column of row [y] holds a tile that is not whitespace. *)
Definition nonBlank (grid : Level) (y : Z) (i : nat) : bool :=
  match tileAt grid (Z.of_nat i) y with
  | Some tile => negb (_isWhitespace (Grid.char tile))
  | None => false
  end.

(** Column [i] starts a word: its tile is not whitespace and the tile
    before it, if any, is. *)
Definition wordStart (grid : Level) (y : Z) (i : nat) : bool :=
  nonBlank grid y i &&
  match i with O => true | S j => negb (nonBlank grid y j) end.

(** Column [i] ends a word. *)
Definition wordEnd (grid : Level) (y : Z) (i : nat) : bool :=
  nonBlank grid y i && negb (nonBlank grid y (S i)).

Definition columnPos (y : Z) (i : nat) : Pos := mkPos (Z.of_nat i) y.

(** Modelled from the spec: [_findPreviousWordStart], whose body the
    source elides.  "word = maximal run of non-whitespace tiles";
    "WordBackward: (count-th previous word start) to (cursor - 1); null
    if that span is empty"; "WordBackward from the first character of a
    word returns null (empty span)", which the resolver's own comment
    repeats ("Nothing to delete if cursor is at start of word").  The
    span from a word's first character is empty only if the word start
    found from there is that character itself: the previous word start
    is the nearest word start at or left of the cursor (the start of
    the word the cursor is in, or of the word before it when the cursor
    is on white space), and [null] when the scan runs off the row. *)
Definition specFindPreviousWordStart (grid : Level) (x y : Z) : option Pos :=
  if x <? 0 then None
  else columnPos y <$> lastBelow (wordStart grid y) (S (Z.to_nat x)).

(** Modelled from the spec: [_findNextWordStart], whose body the
    source elides: the nearest word start strictly right of the
    cursor, [null] when there is none on the row. *)
Definition specFindNextWordStart (grid : Level) (x y : Z) : option Pos :=
  if x <? 0 then None
  else columnPos y <$>
       firstFrom (wordStart grid y) (Z.to_nat (width grid)) (S (Z.to_nat x)).

(** Modelled from the spec: [_findWordEnd], whose body the source
    elides: the end of the current or next word. *)
Definition specFindWordEnd (grid : Level) (x y : Z) : option Pos :=
  if x <? 0 then None
  else columnPos y <$>
       firstFrom (wordEnd grid y) (Z.to_nat (width grid)) (Z.to_nat x).

(** Modelled from the spec: [_findLineStart], "lineStart = column 0". *)
Definition specFindLineStart (grid : Level) (y : Z) : Pos := mkPos 0 y.

(** Modelled from the spec: [_findLineEnd], "lineEnd = last column". *)
Definition specFindLineEnd (grid : Level) (y : Z) : Pos :=
  mkPos (width grid - 1) y.

(** Modelled from the spec: [_findLineFirstChar], "first column on row
    y whose tile is not whitespace (defaults to column 0 if the row is
    empty)". *)
Definition specFindLineFirstChar (grid : Level) (y : Z) : Pos :=
  columnPos y
    (default O (firstFrom (nonBlank grid y) (Z.to_nat (width grid)) O)).

Definition specHelpers
    (request : t -> ActionType -> Target -> Z -> option Action * t)
    : Helpers :=
  mkHelpers specFindNextWordStart specFindPreviousWordStart specFindWordEnd
            specFindLineStart specFindLineEnd specFindLineFirstChar request.

End SpecHelpers.

(** Modelled from the spec: [requestAction], whose body the source
    elides.  The resolver creates the Action [{ kind, range, cost }];
    "CPU cost was already deducted by the Player when making the
    request" (stateManager.js). *)
Definition specRequestAction (p : t) (type : ActionType) (target : Target)
    (cost : Z) : option Action * t :=
  (Some (mkAction type target cost),
   mk (x p) (y p) (currentLevelGrid p) (score p) (integrity p)
      (cpuCycles p - cost)).

(** Modelled from the spec: [addScore], whose body the source elides;
    "increases score by a fixed per-tile amount". *)
Definition addScore (n : Z) (p : t) : t :=
  mk (x p) (y p) (currentLevelGrid p) (score p + n) (integrity p) (cpuCycles p).

End Player.

(** ** js/core/stateManager.js *)

Module Game.
Import Grid.

(** What a statement does when it does not return normally. *)
Inductive Outcome (A : Type) :=
  | Ok (a : A)
  | Throw (message : string).
Arguments Ok {A} a.
Arguments Throw {A} message.

Definition bind {A B : Type} (o : Outcome A) (k : A -> Outcome B) : Outcome B :=
  match o with
  | Ok a => k a
  | Throw m => Throw m
  end.

(** The UI elements the states hide and show. *)
Inductive Element := commandBuffer | integrityContainer | cpuCyclesContainer.

(** Calls into the collaborators, and error logging, in program order. *)
Inductive Effect :=
  | console_error (message : string)
  | renderer_clearAll
  | renderer_updateTile (x y : Z) (d : TileData)
  | ui_hideElement (e : Element)
  | ui_showElement (e : Element)
  | ui_updateLevelName (name : string)
  | ui_updateScore (score : option Z)        (* [None] is the empty string *)
  | ui_showMessage (message : string) (duration : Z)
  | ui_clearMessage.

(** The [params] object of [switchTo]: the keys that are present. *)
Record Params := mkParams {
  levelData : option Level;
  levelId : option Z;
  score : option Z;
  nextLevelId : option Z
}.

(** [{}] *)
Definition noParams : Params := mkParams None None None None.

(** What [this.currentState] can hold: an instance of one of the six
    state classes (its fields live in [t]), or [Inherited name], the
    member of [Object.prototype] that [this.states[name]] finds under an
    inherited name such as [constructor].  Such a member is not a state:
    it has no [enter] and no [exit]. *)
Inductive StateObj :=
  | MenuState | LoadingState | PlayingState
  | PausedState | GameOverState | LevelCompleteState
  | Inherited (name : string).

(** The own keys of [this.states], as the constructor of [StateManager]
    builds it. *)
Definition states : gmap string StateObj :=
  list_to_map [
    ("MENU", MenuState); ("LOADING", LoadingState); ("PLAYING", PlayingState);
    ("PAUSED", PausedState); ("GAME_OVER", GameOverState);
    ("LEVEL_COMPLETE", LevelCompleteState) ].

(** [this.states[stateName]]: the state under an own key, the inherited
    member under a name of [Object.prototype], [undefined] otherwise. *)
Definition statesAt (stateName : string) : option StateObj :=
  match states !! stateName with
  | Some s => Some s
  | None => if inherited stateName then Some (Inherited stateName) else None
  end.

(** The fields of the [PlayingState] instance.  [elapsedTime] is a
    number of seconds; the states in this model only keep it. *)
Record Playing := mkPlaying {
  currentLevel : option Level;
  elapsedTime : Z;
  enemies : list Enemy.t
}.

Record GameOver := mkGameOver {
  go_finalScore : Z;
  go_levelId : Z
}.

Record LevelComplete := mkLevelComplete {
  lc_finalScore : Z;
  lc_nextLevelId : option Z;      (* [null] when absent *)
  lc_currentLevelId : Z
}.

(** The state manager with the objects it shares between its states:
    the input handler, the player, the state instances, and the trace
    of calls into the renderer, the UI manager and [console.error]. *)
Record t := mk {
  inputHandler : Input.t;
  player : Player.t;
  playing : Playing;
  gameOver : GameOver;
  levelComplete : LevelComplete;
  currentState : option StateObj;
  currentStateName : option string;
  previousStateName : option string;
  trace : list Effect
}.

Definition set_inputHandler (h : Input.t) (g : t) : t :=
  mk h (player g) (playing g) (gameOver g) (levelComplete g)
     (currentState g) (currentStateName g) (previousStateName g) (trace g).

Definition set_player (p : Player.t) (g : t) : t :=
  mk (inputHandler g) p (playing g) (gameOver g) (levelComplete g)
     (currentState g) (currentStateName g) (previousStateName g) (trace g).

Definition set_playing (s : Playing) (g : t) : t :=
  mk (inputHandler g) (player g) s (gameOver g) (levelComplete g)
     (currentState g) (currentStateName g) (previousStateName g) (trace g).

Definition set_gameOver (s : GameOver) (g : t) : t :=
  mk (inputHandler g) (player g) (playing g) s (levelComplete g)
     (currentState g) (currentStateName g) (previousStateName g) (trace g).

Definition set_levelComplete (s : LevelComplete) (g : t) : t :=
  mk (inputHandler g) (player g) (playing g) (gameOver g) s
     (currentState g) (currentStateName g) (previousStateName g) (trace g).

Definition set_current (s : StateObj) (name : string) (g : t) : t :=
  mk (inputHandler g) (player g) (playing g) (gameOver g) (levelComplete g)
     (Some s) (Some name) (previousStateName g) (trace g).

Definition set_previousStateName (name : option string) (g : t) : t :=
  mk (inputHandler g) (player g) (playing g) (gameOver g) (levelComplete g)
     (currentState g) (currentStateName g) name (trace g).

(** One more call at the end of the trace. *)
Definition emit (e : Effect) (g : t) : t :=
  mk (inputHandler g) (player g) (playing g) (gameOver g) (levelComplete g)
     (currentState g) (currentStateName g) (previousStateName g)
     (trace g ++ [e]).

(** A method of the shared input handler. *)
Definition input (f : Input.t -> Input.t) (g : t) : t :=
  set_inputHandler (f (inputHandler g)) g.

Definition set_enemies (es : list Enemy.t) (g : t) : t :=
  set_playing (mkPlaying (currentLevel (playing g)) (elapsedTime (playing g)) es) g.

Definition set_currentLevel (l : option Level) (g : t) : t :=
  set_playing (mkPlaying l (elapsedTime (playing g)) (enemies (playing g))) g.

(** The constructor of [StateManager] over fresh state instances. *)
Definition new (h : Input.t) (p : Player.t) : t :=
  mk h p (mkPlaying None 0 []) (mkGameOver 0 1) (mkLevelComplete 0 None 0)
     None None None [].

(** *** [enter(params)] of each state

    Statements are applied in program order, first to last. *)

Definition enter (s : StateObj) (params : Params) (g : t) : t :=
  match s with
  | MenuState =>
      let g := emit renderer_clearAll g in
      let g := emit (ui_hideElement commandBuffer) g in
      let g := emit (ui_hideElement integrityContainer) g in
      let g := emit (ui_hideElement cpuCyclesContainer) g in
      let g := emit (ui_updateLevelName "MAIN MENU") g in
      let g := emit (ui_updateScore None) g in
      let g := emit (ui_showMessage "Press [Enter] to Start" 0) g in
      let g := input (Input.setActive true) g in
      let g := input (Input.setMode Input.NORMAL "") g in
      input (Input.registerActionListener "confirm" Input.MenuConfirm) g
  | LoadingState => g
  | PlayingState =>
      (* the parts of [enter] the source elides are not modelled *)
      let g := set_enemies [] g in
      let g := input (Input.setActive true) g in
      let g := input (Input.setMode Input.NORMAL "") g in
      let g := input Input.clearCommandBuffer g in
      input (Input.registerActionListener "pause" Input.PlayingPause) g
  | PausedState =>
      let g := input (Input.setActive true) g in
      let g := input Input.clearCommandBuffer g in
      let g := emit (ui_showMessage "PAUSED - Press [Escape] to Resume" 0) g in
      input (Input.registerActionListener "unpause" Input.PausedUnpause) g
  | GameOverState =>
      let finalScore := match score params with Some n => n | None => 0 end in
      let lvl := match levelId params with
                 | Some n => if n =? 0 then 1 else n
                 | None => 1
                 end in
      let g := set_gameOver (mkGameOver finalScore lvl) g in
      let g := emit renderer_clearAll g in
      let g := emit (ui_hideElement commandBuffer) g in
      let g := emit (ui_updateLevelName "GAME OVER") g in
      let g := emit (ui_updateScore (Some finalScore)) g in
      let g := emit (ui_showMessage
                       ("Integrity Failure! [Enter]=Retry Lvl " ++ pretty lvl
                        ++ ", [M]=Menu") 0) g in
      let g := input (Input.setActive true) g in
      let g := input (Input.registerActionListener "confirm" Input.GameOverConfirm) g in
      input (Input.registerActionListener "menu" Input.GameOverMenu) g
  | LevelCompleteState =>
      let finalScore := match score params with Some n => n | None => 0 end in
      let next := match nextLevelId params with
                  | Some n => if n =? 0 then None else Some n
                  | None => None
                  end in
      let cur := match levelId params with Some n => n | None => 0 end in
      let g := set_levelComplete (mkLevelComplete finalScore next cur) g in
      let g := emit renderer_clearAll g in
      let g := emit (ui_hideElement commandBuffer) g in
      let g := emit (ui_updateLevelName
                       ("STREAM " ++ pretty cur ++ " // COMPLETE")) g in
      let g := emit (ui_updateScore (Some finalScore)) g in
      let g := emit (ui_showMessage
                       match next with
                       | Some n => "Proceed to Stream " ++ pretty n
                                   ++ "? [Enter]=Yes, [M]=Menu"
                       | None => "All Streams Complete! [M]=Menu"
                       end 0) g in
      let g := input (Input.setActive true) g in
      let g := input (Input.registerActionListener "confirm" Input.LevelCompleteConfirm) g in
      input (Input.registerActionListener "menu" Input.LevelCompleteMenu) g
  | Inherited _ =>
      (* [typeof this.currentState.enter === 'function'] is false *)
      g
  end.

(** *** [exit()] of each state *)

Definition exit (s : StateObj) (g : t) : t :=
  match s with
  | MenuState =>
      let g := input (Input.unregisterActionListener "confirm") g in
      let g := emit ui_clearMessage g in
      let g := emit (ui_showElement integrityContainer) g in
      emit (ui_showElement cpuCyclesContainer) g
  | LoadingState => g
  | PlayingState =>
      let g := input (Input.setActive false) g in
      let g := input (Input.unregisterActionListener "pause") g in
      set_enemies [] g
  | PausedState =>
      let g := input (Input.unregisterActionListener "unpause") g in
      let g := emit ui_clearMessage g in
      input (Input.setActive true) g
  | GameOverState | LevelCompleteState =>
      let g := input (Input.unregisterActionListener "confirm") g in
      let g := input (Input.unregisterActionListener "menu") g in
      let g := emit ui_clearMessage g in
      emit (ui_showElement commandBuffer) g
  | Inherited _ =>
      (* [typeof this.currentState.exit === 'function'] is false *)
      g
  end.

(** *** [StateManager.switchTo(stateName, params)] *)

Definition unknownStateMessage (stateName : string) : string :=
  "Error: Attempted to switch to unknown state '" ++ stateName
  ++ "'. Falling back to MENU.".

Definition switchTo (stateName : string) (params : Params) (g : t) : Outcome t :=
  bind
    (match statesAt stateName with
     | Some _ => Ok (stateName, params, g)
     | None =>
         let g := emit (console_error (unknownStateMessage stateName)) g in
         match statesAt "MENU" with
         | Some _ => Ok ("MENU", noParams, g)
         | None => Throw "Critical Error: MENU state is not defined!"
         end
     end)
    (fun '(stateName, params, g) =>
       let g :=
         match currentStateName g with
         | Some current =>
             if negb (String.eqb current "") && negb (String.eqb current stateName)
             then set_previousStateName (Some current) g
             else g
         | None => g
         end in
       let g :=
         match currentState g with
         | Some s => exit s g
         | None => g
         end in
       match statesAt stateName with
       | Some s => Ok (enter s params (set_current s stateName g))
       | None => Throw "TypeError: this.currentState is undefined"
       end).

(** [init(initialStateName = 'MENU', initialParams = {})] *)
Definition init (initialStateName : string) (initialParams : Params) (g : t)
    : Outcome t :=
  switchTo initialStateName initialParams (set_previousStateName None g).

(** The bodies of the registered closures. *)
Definition call (cb : Input.Callback) (g : t) : Outcome t :=
  match cb with
  | Input.PlayingPause => switchTo "PAUSED" noParams g
  | Input.MenuConfirm => switchTo "LOADING" (mkParams None (Some 1) None None) g
  | Input.PausedUnpause => switchTo "PLAYING" noParams g
  | Input.GameOverConfirm =>
      switchTo "LOADING" (mkParams None (Some (go_levelId (gameOver g))) None None) g
  | Input.GameOverMenu | Input.LevelCompleteMenu => switchTo "MENU" noParams g
  | Input.LevelCompleteConfirm =>
      match lc_nextLevelId (levelComplete g) with
      | Some n => switchTo "LOADING" (mkParams None (Some n) None None) g
      | None => switchTo "MENU" noParams g
      end
  end.

(** *** [PlayingState]: tiles and range actions *)

(** Modelled from the spec: [getTileAt(x, y)], whose body the source
    elides.  "Out-of-range reads fail ..., never silently clamp";
    the policy for a coordinate outside the grid is "return null". *)
Definition getTileAt (x y : Z) (g : t) : option Tile :=
  lvl ← currentLevel (playing g);
  if inBounds lvl x y then tileAt lvl x y else None.

(** Modelled from the spec: [updateGridTile(x, y, newTileData)], whose
    body the source elides.  The partial tile data is merged into the
    tile at [(x, y)] and handed to the renderer's
    [updateTile(pos, partialTileData)]; a coordinate without a tile is
    rejected as a no-op. *)
Definition updateGridTile (x y : Z) (d : TileData) (g : t) : t :=
  match currentLevel (playing g), getTileAt x y g with
  | Some lvl, Some tile =>
      emit (renderer_updateTile x y d)
           (set_currentLevel (Some (setTile lvl x y (merge tile d))) g)
  | _, _ => g
  end.

(** [enemy.x === x && enemy.y === y] *)
Definition occupies (x y : Z) (e : Enemy.t) : bool :=
  (Enemy.x e =? x) && (Enemy.y e =? y).

(** The scan [for (let i = this.enemies.length - 1; i >= 0; i--)] for
    an enemy at [(x, y)]: the index at which it breaks. *)
Definition scanEnemies (x y : Z) (es : list Enemy.t) : option nat :=
  lastBelow (fun i => match es !! i with
                      | Some e => occupies x y e
                      | None => false
                      end) (length es).

(** The body of the two loops of [handleRangeAction] at one coordinate;
    the local [scoreGained] is threaded with the game. *)
Definition rangeTile (x y : Z) (st : t * Z) : t * Z :=
  let '(g, scoreGained) := st in
  match currentLevel (playing g) with
  | None => st
  | Some lvl =>
      if (y <? 0) || (height lvl <=? y) || (x <? 0) || (width lvl <=? x)
      then st
      else
        match scanEnemies x y (enemies (playing g)) with
        | Some i =>
            (set_enemies (alter (Enemy.takeDamage 5) i (enemies (playing g))) g,
             scoreGained)
        | None =>
            match getTileAt x y g with
            | Some tile =>
                match Grid.type tile with
                | corrupted =>
                    (updateGridTile x y (mkTileData (Some "."%char) (Some pathway)) g,
                     scoreGained + 5)
                | _ => st
                end
            | None => st
            end
        end
  end.

(** [handleRangeAction(targetRange, cost, actionType)] *)
Definition handleRangeAction (targetRange : Player.Range) (cost : Z)
    (actionType : Player.ActionType) (g : t) : t :=
  match currentLevel (playing g) with
  | None => g
  | Some _ =>
      let scoreGained := 0 in
      let minX := Z.min (Player.startX targetRange) (Player.endX targetRange) in
      let maxX := Z.max (Player.startX targetRange) (Player.endX targetRange) in
      let minY := Z.min (Player.startY targetRange) (Player.endY targetRange) in
      let maxY := Z.max (Player.startY targetRange) (Player.endY targetRange) in
      let '(g, scoreGained) :=
        forZ minY maxY (fun y => forZ minX maxX (fun x => rangeTile x y))
             (g, scoreGained) in
      if 0 <? scoreGained
      then
        let g := set_player (Player.addScore scoreGained (player g)) g in
        emit (ui_showMessage ("Cleared " ++ pretty (scoreGained / 5) ++ " nodes!")
                             1000) g
      else g
  end.

(** One iteration of [processPlayerActions(actions)]. *)
Definition processPlayerAction (action : Player.Action) (g : t) : t :=
  match Player.type action, Player.target action with
  | Player.DELETE_RANGE, Player.RangeTarget r =>
      handleRangeAction r (Player.cost action) Player.DELETE_RANGE g
  | Player.CHANGE_RANGE, Player.RangeTarget r =>
      let g := handleRangeAction r (Player.cost action) Player.CHANGE_RANGE g in
      input (Input.setMode Input.TYPING "") g
  | Player.REPLACE_CHAR, Player.CharTarget x y (String c EmptyString) =>
      match getTileAt x y g with
      | Some tile =>
          if decide (Grid.type tile = barrier) then g
          else updateGridTile x y (mkTileData (Some c) None) g
      | None => g
      end
  | _, _ => g
  end.

Definition processPlayerActions (actions : list Player.Action) (g : t) : t :=
  foldl (fun g a => processPlayerAction a g) g actions.

End Game.

(** ** js/input/inputHandler.js: key handling

    [_handleNormalMode] runs a registered closure on [Escape], and the
    closures switch states, so it is defined over the whole game. *)

Module Keys.
Import Input.

(** The part of [_handleNormalMode(key)] after the [Escape] test: it
    reads and writes the handler only.  [count] is
    [parseInt(this.numericPrefix || '1', 10)]. *)
Definition normalKey (key : string) (count : option Z) (h : Input.t) : Input.t :=
  (* numeric prefixes *)
  if test_1_9 key && String.eqb (commandBuffer h) "" then
    set_numericPrefix (numericPrefix h ++ key) h
  else if test_0 key && String.eqb (commandBuffer h) ""
          && negb (String.eqb (numericPrefix h) "") then
    set_numericPrefix (numericPrefix h ++ key) h
  else
    (* [0] as a motion *)
    let command :=
      if String.eqb key "0" && String.eqb (commandBuffer h) ""
         && String.eqb (numericPrefix h) ""
      then Some (MOVE_TO LINE_START (Some 1)) else None in
    (* operators; the callback given to [setTimeout] has an empty body *)
    if includes ["d"; "c"; "y"] key && String.eqb (commandBuffer h) "" then
      set_commandBuffer key h
    else
      (* dd, cc, yy *)
      let '(command, h) :=
        if includes ["d"; "c"; "y"] key && String.eqb (commandBuffer h) key then
          match typeMap key with
          | Some type => (Some (OperatorMotion type LINE count), set_commandBuffer "" h)
          | None => (command, h)
          end
        else (command, h) in
      (* simple commands and motions *)
      let '(command, h) :=
        match command with
        | Some _ => (command, h)
        | None =>
            match motionMap key with
            | Some motion =>
                let c :=
                  if String.eqb (commandBuffer h) "d" then OperatorMotion DELETE motion count
                  else if String.eqb (commandBuffer h) "c" then OperatorMotion CHANGE motion count
                  else if String.eqb (commandBuffer h) "y" then OperatorMotion YANK motion count
                  else MOVE motion count in
                (Some c, set_commandBuffer "" h)
            | None =>
                match simpleCommandMap key, String.eqb (commandBuffer h) "" with
                | Some REPLACE_CHAR_START, true => (None, set_commandBuffer "r" h)
                | Some type, true => (Some (SimpleCommand type count), h)
                | _, _ =>
                    if String.eqb (commandBuffer h) "r" && (String.length key =? 1)%nat
                    then (Some (REPLACE_CHAR_EXECUTE key), set_commandBuffer "" h)
                    else (None, h)
                end
            end
        end in
      (* queue command and reset *)
      match command with
      | Some c => set_buffers "" "" (queueCommand (Some c) h)
      | None =>
          if negb (includes ["d"; "c"; "y"; "r"] (commandBuffer h))
             && negb (test_0_9 key)
          then set_buffers "" "" h
          else h
      end.

(** [_handleNormalMode(key)] *)
Definition _handleNormalMode (key : string) (g : Game.t) : Game.Outcome Game.t :=
  let h := Game.inputHandler g in
  let count :=
    parseInt (if String.eqb (numericPrefix h) "" then "1" else numericPrefix h) in
  if String.eqb key "Escape" then
    match actionListeners h !! "pause" with
    | Some callback =>
        Game.bind (Game.call callback g)
                  (fun g => Game.Ok (Game.input (set_buffers "" "") g))
    | None =>
        Game.Ok (Game.input
                   (fun h => queueCommand (Some CLEAR_BUFFER) (set_buffers "" "" h)) g)
    end
  else Game.Ok (Game.input (normalKey key count) g).

(** [_onKeyDown(event)] with [key = event.key]. *)
Definition _onKeyDown (key : string) (g : Game.t) : Game.Outcome Game.t :=
  if negb (active (Game.inputHandler g)) then Game.Ok g
  else
    match mode (Game.inputHandler g) with
    | NORMAL => _handleNormalMode key g
    | TYPING => Game.Ok (Game.input (_handleTypingMode key) g)
    end.

(** Keys handled one after the other, stopping at an exception. *)
Definition keys (ks : list string) (g : Game.t) : Game.Outcome Game.t :=
  foldl (fun o k => Game.bind o (_onKeyDown k)) (Game.Ok g) ks.

End Keys.

(** ** js/core/stateManager.js: [update(deltaTime)] of the states that wait

    [MenuState], [PausedState], [GameOverState] and [LevelCompleteState]
    read the queued commands in [update]; the [update] of [LoadingState]
    and of [PlayingState] is elided in the source and not modelled. *)

Module Waiting.
Import Input.

(** The [type] field of a command object. *)
Definition typeOf (c : Command) : string :=
  match c with
  | CLEAR_BUFFER => "CLEAR_BUFFER"
  | MOVE_TO _ _ => "MOVE_TO"
  | OperatorMotion DELETE _ _ => "DELETE"
  | OperatorMotion CHANGE _ _ => "CHANGE"
  | OperatorMotion YANK _ _ => "YANK"
  | MOVE _ _ => "MOVE"
  | SimpleCommand DELETE_CHAR _ => "DELETE_CHAR"
  | SimpleCommand REPLACE_CHAR_START _ => "REPLACE_CHAR_START"
  | SimpleCommand PASTE_AFTER _ => "PASTE_AFTER"
  | SimpleCommand PASTE_BEFORE _ => "PASTE_BEFORE"
  | SimpleCommand UNDO _ => "UNDO"
  | REPLACE_CHAR_EXECUTE _ => "REPLACE_CHAR_EXECUTE"
  | EXIT_TYPING => "EXIT_TYPING"
  | TYPE_BACKSPACE _ => "TYPE_BACKSPACE"
  | TYPE_CORRECT _ _ => "TYPE_CORRECT"
  | TYPE_INCORRECT _ _ _ => "TYPE_INCORRECT"
  | PHRASE_COMPLETE => "PHRASE_COMPLETE"
  end.

(** The [key] field of a command object: no command the handler queues
    has one, so [command.key] is [undefined]. *)
Definition keyOf (c : Command) : option string := None.

(** [command.type === 'KEY' && command.key === 'm'] *)
Definition isMenuKey (c : Command) : bool :=
  String.eqb (typeOf c) "KEY"
  && match keyOf c with Some k => String.eqb k "m" | None => false end.

(** [update(deltaTime)]: [this.inputHandler.getCommands()], then the loop
    over the commands, which switches state at the first command that
    passes the test and breaks. *)
Definition update (s : Game.StateObj) (g : Game.t) : option (Game.Outcome Game.t) :=
  let '(commands, h) := getCommands (Game.inputHandler g) in
  let g := Game.set_inputHandler h g in
  match s with
  | Game.MenuState =>
      Some (if existsb (fun c => String.eqb (typeOf c) "CONFIRM") commands
            then Game.switchTo "LOADING" (Game.mkParams None (Some 1) None None) g
            else Game.Ok g)
  | Game.PausedState => Some (Game.Ok g)
  | Game.GameOverState | Game.LevelCompleteState =>
      Some (if existsb isMenuKey commands
            then Game.switchTo "MENU" Game.noParams g
            else Game.Ok g)
  | Game.LoadingState | Game.PlayingState | Game.Inherited _ => None
  end.

(** What happens to a waiting game: a key press, or a frame, in which
    [update] of the active state is called. *)
Inductive Event := Key (key : string) | Frame.

Definition step (e : Event) (g : Game.t) : option (Game.Outcome Game.t) :=
  match e with
  | Key key => Some (Keys._onKeyDown key g)
  | Frame =>
      match Game.currentState g with
      | Some s => update s g
      | None => Some (Game.Ok g)
      end
  end.

(** The events one after the other; [None] when a frame reaches a state
    whose [update] is not modelled, [Some (Throw _)] at an exception. *)
Fixpoint run (es : list Event) (g : Game.t) : option (Game.Outcome Game.t) :=
  match es with
  | [] => Some (Game.Ok g)
  | e :: es' =>
      match step e g with
      | Some (Game.Ok g') => run es' g'
      | other => other
      end
  end.

End Waiting.

(** ** js/game_objects/enemy.js and js/game_objects/enemies/chaser.js: movement *)

Module Chaser.
Import Grid.

(** [_isValidMove(targetX, targetY)]; [grid] is [this.currentLevelGrid],
    [None] when it is [null]. *)
Definition _isValidMove (grid : option Level) (targetX targetY : Z) : bool :=
  match grid with
  | None => false
  | Some lvl =>
      if (targetX <? 0) || (width lvl <=? targetX)
         || (targetY <? 0) || (height lvl <=? targetY)
      then false
      else
        match tileAt lvl targetX targetY with
        | None => false
        | Some targetTile =>
            if decide (Grid.type targetTile = barrier) then false else true
        end
  end.

(** [this.x = targetX; this.y = targetY] *)
Definition moveTo (targetX targetY : Z) (e : Enemy.t) : Enemy.t :=
  Enemy.mk (Enemy.id e) targetX targetY (Enemy.char e) (Enemy.type e)
           (Enemy.health e) (Enemy.state e).

(** [Chaser.update(deltaTime, playerPosition)].  [canAttemptMove] is the
    result of [super.update(deltaTime, playerPosition)], which keeps the
    move cooldown; [playerPosition] is [None] when it is missing. *)
Definition update (grid : option Level) (canAttemptMove : bool)
    (playerPosition : option (Z * Z)) (e : Enemy.t) : Enemy.t :=
  match playerPosition with
  | None => e
  | Some (px, py) =>
      if negb canAttemptMove || Enemy.isDefeated e then e
      else
        let dx := px - Enemy.x e in
        let dy := py - Enemy.y e in
        let '(moveX, moveY) :=
          if Z.abs dy <? Z.abs dx then (Z.sgn dx, 0)
          else if 0 <? Z.abs dy then (0, Z.sgn dy)
          else if 0 <? Z.abs dx then (Z.sgn dx, 0)
          else (0, 0) in
        if (moveX =? 0) && (moveY =? 0) then e
        else
          let targetX := Enemy.x e + moveX in
          let targetY := Enemy.y e + moveY in
          if _isValidMove grid targetX targetY then moveTo targetX targetY e
          else
            (* the alternate move, checked after the three cases *)
            let alternate (moveX moveY : Z) :=
              if negb (moveX =? 0) || negb (moveY =? 0) then
                let targetX := Enemy.x e + moveX in
                let targetY := Enemy.y e + moveY in
                if _isValidMove grid targetX targetY
                then moveTo targetX targetY e
                else e
              else e in
            if negb (moveX =? 0) && (moveY =? 0) then alternate 0 (Z.sgn dy)
            else if negb (moveY =? 0) && (moveX =? 0) then alternate (Z.sgn dx) 0
            else if negb (Z.sgn dx =? 0)
                    && _isValidMove grid (Enemy.x e + Z.sgn dx) (Enemy.y e)
            then moveTo (Enemy.x e + Z.sgn dx) (Enemy.y e) e
            else if negb (Z.sgn dy =? 0)
                    && _isValidMove grid (Enemy.x e) (Enemy.y e + Z.sgn dy)
            then moveTo (Enemy.x e) (Enemy.y e + Z.sgn dy) e
            else alternate 0 0
  end.

End Chaser.

(** ** js/game_logic/levelManager.js *)

Module LevelManager.
Import Grid.

(** A [tileData] object: the keys that are present. *)
Record TileObj := mkTileObj {
  o_char : option ascii;
  o_type : option TileType;
  o_requiredWord : option string;
  o_isWordStart : option bool;
  o_isPartOfWord : option bool
}.

(** The [tileData] argument of [_placeTile]: an object, or a string, as
    in [this._placeTile(tiles, 13, 1, '|', 'barrier')] (the fifth
    argument of such a call is ignored). *)
Inductive TileArg := Obj (d : TileObj) | Str (s : string).

(** [{ ...tile, ...tileData }], as far as the fields of [Tile] go.
    Spreading a string adds its characters under the keys [0], [1], ...
    and leaves every key the tile had: the glyph, the type and the word
    markers, which are all that [Tile] holds of a tile object, are those
    of the old tile.  The added indexed keys are not represented. *)
Definition spread (tile : Tile) (tileData : TileArg) : Tile :=
  match tileData with
  | Obj d =>
      mkTile (default (Grid.char tile) (o_char d))
             (default (Grid.type tile) (o_type d))
             (match o_requiredWord d with
              | Some w => Some w
              | None => requiredWord tile
              end)
             (default (isWordStart tile) (o_isWordStart d))
             (default (isPartOfWord tile) (o_isPartOfWord d))
  | Str _ => tile
  end.

(** [_createEmptyGrid(width, height, defaultChar, defaultType)]: [height]
    fresh rows of [width] fresh tiles. *)
Definition _createEmptyGrid (width height : Z) (defaultChar : ascii)
    (defaultType : TileType) : list (list Tile) :=
  replicate (Z.to_nat height)
    (replicate (Z.to_nat width) (mkTile defaultChar defaultType None false false)).

(** [_placeTile(tiles, x, y, tileData)].  [width] is [tiles[0]?.length];
    outside the bounds only a warning is logged.  The result is [None]
    in the one case this model of a grid cannot hold: a row [y] that is
    shorter than row 0, in which JavaScript would create a sparse row. *)
Definition _placeTile (tiles : list (list Tile)) (x y : Z) (tileData : TileArg)
    : option (list (list Tile)) :=
  let height := Z.of_nat (length tiles) in
  let width := (fun row => Z.of_nat (length row)) <$> head tiles in
  if (0 <=? y) && (y <? height) && (0 <=? x)
     && match width with Some w => x <? w | None => false end
  then
    row ← tiles !! Z.to_nat y;
    tile ← row !! Z.to_nat x;
    Some (<[Z.to_nat y := <[Z.to_nat x := spread tile tileData]> row]> tiles)
  else Some tiles.

(** The [tileData] that [_stringToTiles] builds for the character at
    index [i]. *)
Definition wordTile (str : string) (isTypeableWord : bool)
    (requiredWord : option string) (i : nat) (c : ascii) : TileArg :=
  Obj (if isTypeableWord then
         if Nat.eqb i 0 then
           mkTileObj (Some c) (Some data_node)
                     (Some match requiredWord with
                           | Some w => if String.eqb w "" then str else w
                           | None => str
                           end)
                     (Some true) None
         else mkTileObj (Some c) (Some data_node) None None (Some true)
       else mkTileObj (Some c) (Some decoration) None None None).

(** The loop [for (let i = 0; i < str.length; i++)] from index [i] on,
    over the characters that are left. *)
Fixpoint stringLoop (place : nat -> ascii -> list (list Tile) -> option (list (list Tile)))
    (i : nat) (rest : string) (tiles : list (list Tile))
    : option (list (list Tile)) :=
  match rest with
  | EmptyString => Some tiles
  | String c r => tiles ← place i c tiles; stringLoop place (S i) r tiles
  end.

(** [_stringToTiles(tiles, startX, startY, str, isTypeableWord, requiredWord)] *)
Definition _stringToTiles (tiles : list (list Tile)) (startX startY : Z)
    (str : string) (isTypeableWord : bool) (requiredWord : option string)
    : option (list (list Tile)) :=
  stringLoop
    (fun i c tiles =>
       _placeTile tiles (startX + Z.of_nat i) startY
                  (wordTile str isTypeableWord requiredWord i c))
    0 str tiles.

(** [{ char, type }] *)
Definition charType (char : ascii) (type : TileType) : TileArg :=
  Obj (mkTileObj (Some char) (Some type) None None None).

(** [_fillRow(tiles, rowIndex, char, type)] *)
Definition _fillRow (tiles : list (list Tile)) (rowIndex : Z) (char : ascii)
    (type : TileType) : option (list (list Tile)) :=
  if (0 <=? rowIndex) && (rowIndex <? Z.of_nat (length tiles)) then
    match tiles !! Z.to_nat rowIndex with
    | Some row =>
        let width := Z.of_nat (length row) in
        forZ 0 (width - 1)
             (fun x acc => tiles ← acc; _placeTile tiles x rowIndex (charType char type))
             (Some tiles)
    | None => Some tiles
    end
  else Some tiles.

(** [_fillColumn(tiles, colIndex, char, type)] *)
Definition _fillColumn (tiles : list (list Tile)) (colIndex : Z) (char : ascii)
    (type : TileType) : option (list (list Tile)) :=
  let height := Z.of_nat (length tiles) in
  if 0 <? height then
    match head tiles with
    | Some row0 =>
        let width := Z.of_nat (length row0) in
        if (0 <=? colIndex) && (colIndex <? width) then
          forZ 0 (height - 1)
               (fun y acc => tiles ← acc; _placeTile tiles colIndex y (charType char type))
               (Some tiles)
        else Some tiles
    | None => Some tiles
    end
  else Some tiles.

(** An entry of [enemySpawns]; [char] and [speed] are optional (the one
    speed the definitions give, [1.0], is the number 1). *)
Record Spawn := mkSpawn {
  s_type : string;
  s_x : Z;
  s_y : Z;
  s_char : option ascii;
  s_speed : option Z
}.

(** A level definition. *)
Record LevelData := mkLevelData {
  ld_id : Z;
  ld_name : string;
  ld_width : Z;
  ld_height : Z;
  ld_playerStart : Z * Z;
  ld_tiles : list (list Tile);
  ld_enemySpawns : list Spawn
}.

(** [_defineLevel1()].  The level object holds the array [tiles], which
    the layout calls then fill in place. *)
Definition _defineLevel1 : option LevelData :=
  let width := 20 in
  let height := 5 in
  let tiles := _createEmptyGrid width height "." pathway in
  tiles ← _stringToTiles tiles 1 2 "TYPE:" false None;
  tiles ← _stringToTiles tiles 7 2 "RUN" true (Some "RUN");
  tiles ← _placeTile tiles 11 2 (charType "@" exit_node);
  tiles ← _fillRow tiles 0 "|" barrier;
  tiles ← _fillRow tiles (height - 1) "|" barrier;
  Some (mkLevelData 1 "STREAM::INIT" width height (1, 2) tiles
          [mkSpawn "chaser" 15 2 None None]).

(** [_defineLevel2()] *)
Definition _defineLevel2 : option LevelData :=
  let width := 30 in
  let height := 8 in
  let tiles := _createEmptyGrid width height "." pathway in
  tiles ← _stringToTiles tiles 1 1 "GO" true (Some "GO");
  tiles ← _stringToTiles tiles 5 1 "FORWARD" true (Some "FORWARD");
  tiles ← _placeTile tiles 13 1 (Str "|");
  tiles ← _stringToTiles tiles 1 3 "USE" true (Some "USE");
  tiles ← _stringToTiles tiles 6 3 "DELETE" true (Some "DELETE");
  tiles ← _placeTile tiles 13 3 (Str "#");
  tiles ← _stringToTiles tiles 1 5 "REACH" true (Some "REACH");
  tiles ← _stringToTiles tiles 8 5 "EXIT" true (Some "EXIT");
  tiles ← _placeTile tiles 14 5 (Str "@");
  tiles ← _fillColumn tiles 0 "|" barrier;
  tiles ← _fillColumn tiles (width - 1) "|" barrier;
  tiles ← _fillRow tiles (height - 1) "|" barrier;
  Some (mkLevelData 2 "STREAM::FWD" width height (1, 1) tiles
          [mkSpawn "chaser" 20 1 (Some "c"%char) None;
           mkSpawn "chaser" 10 4 None (Some 1);
           mkSpawn "chaser" 25 5 None None]).

(** [this.levels], as the constructor builds it, over its own keys. *)
Definition levels : gmap Z LevelData :=
  list_to_map
    (omap (fun kd : Z * option LevelData => pair kd.1 <$> kd.2)
          [(1, _defineLevel1); (2, _defineLevel2)]).

(** [loadLevel(levelId)] for a numeric id: the level data (the deep
    copy of a definition is the same value) or [null], and
    [this.currentLevelId] after the call. *)
Definition loadLevel (levelId : Z) (currentLevelId : option Z)
    : option LevelData * option Z :=
  match levels !! levelId with
  | None => (None, currentLevelId)
  | Some levelDefinition => (Some levelDefinition, Some levelId)
  end.

End LevelManager.

(** ** Notions used in the statements *)

(** The shape of [numericPrefix]: empty, or a digit [1-9] followed by
    digits.  The handler only ever appends to it under these tests. *)
Fixpoint allDigits (s : string) : bool :=
  match s with
  | String c r => Input.isDigit c && allDigits r
  | EmptyString => true
  end.

Definition prefixOk (prefix : string) : bool :=
  match prefix with
  | String c r => Input.test_1_9 (String c "") && allDigits r
  | EmptyString => true
  end.

(** The specification's count, [max(1, parseInt(numericPrefix))], with 1
    for a prefix that holds no number. *)
Definition countSpec (prefix : string) : Z :=
  match Input.parseInt prefix with
  | Some n => Z.max 1 n
  | None => 1
  end.

(** The messages logged with [console.error], oldest first. *)
Definition errors (g : Game.t) : list string :=
  omap (fun e => match e with
                 | Game.console_error m => Some m
                 | _ => None
                 end) (Game.trace g).

(** The rectangle of a range after [Math.min]/[Math.max]. *)
Definition minX (r : Player.Range) : Z := Z.min (Player.startX r) (Player.endX r).
Definition maxX (r : Player.Range) : Z := Z.max (Player.startX r) (Player.endX r).
Definition minY (r : Player.Range) : Z := Z.min (Player.startY r) (Player.endY r).
Definition maxY (r : Player.Range) : Z := Z.max (Player.startY r) (Player.endY r).

(** A coordinate lies in the rectangle of a range. *)
Definition inRange (r : Player.Range) (x y : Z) : Prop :=
  minX r <= x <= maxX r /\ minY r <= y <= maxY r.

(** The coordinates [(x, y)] the two loops of [handleRangeAction] visit,
    in the order they visit them (row by row). *)
Definition rangeCoords (r : Player.Range) : list (Z * Z) :=
  y ← seqZ (minY r) (maxY r - minY r + 1);
  x ← seqZ (minX r) (maxX r - minX r + 1);
  [(x, y)].

(** The coordinate holds a corrupted tile that no enemy stands on: the
    case in which [handleRangeAction] clears the tile. *)
Definition clears (g : Game.t) (c : Z * Z) : bool :=
  match Game.scanEnemies c.1 c.2 (Game.enemies (Game.playing g)),
        Game.getTileAt c.1 c.2 g with
  | None, Some tile => bool_decide (Grid.type tile = Grid.corrupted)
  | _, _ => false
  end.

(** No enemy of the roster stands on [(x, y)]. *)
Definition unoccupied (x y : Z) (es : list Enemy.t) : Prop :=
  Forall (fun e => Game.occupies x y e = false) es.

(** A player before any level is loaded, with full pools. *)
Definition fresh_player : Player.t := Player.mk 0 0 None 0 100 100.

(** The body of the loops of [handleRangeAction] at a coordinate pair. *)
Definition rangeStep (st : Game.t * Z) (c : Z * Z) : Game.t * Z :=
  Game.rangeTile c.1 c.2 st.

(** The number of tiles of a range that [handleRangeAction] clears. *)
Definition cleared (g : Game.t) (r : Player.Range) : Z :=
  Z.of_nat (length (List.filter (clears g) (rangeCoords r))).

(** The positions of a roster, in roster order. *)
Definition positions (es : list Enemy.t) : list (Z * Z) :=
  Enemy.getPosition <$> es.

(** The coordinate lies inside the grid of the loaded level. *)
Definition bounds (g : Game.t) (x y : Z) : bool :=
  match Game.currentLevel (Game.playing g) with
  | Some lvl => Grid.inBounds lvl x y
  | None => false
  end.

(** What lies outside the Playing state and the player: the input
    handler, the other state instances and the state manager's fields. *)
Definition surroundings (g : Game.t) :=
  (Game.inputHandler g, Game.gameOver g, Game.levelComplete g,
   Game.currentState g, Game.currentStateName g, Game.previousStateName g).

(** The number of orthogonal steps between two coordinates. *)
Definition steps (a b : Z * Z) : Z := Z.abs (b.1 - a.1) + Z.abs (b.2 - a.2).

(** A tile a chaser may stand on: on the grid and not a barrier. *)
Definition walkable (grid : option Grid.Level) (c : Z * Z) : Prop :=
  exists lvl tile,
    grid = Some lvl /\ Grid.inBounds lvl c.1 c.2 = true
    /\ Grid.tileAt lvl c.1 c.2 = Some tile /\ Grid.type tile <> Grid.barrier.

(** [tiles[y]?.[x]] *)
Definition cell (tiles : list (list Grid.Tile)) (x y : Z) : option Grid.Tile :=
  row ← at_index tiles y; at_index row x.

(** Every row of a grid has [w] tiles. *)
Definition rect (w : nat) (tiles : list (list Grid.Tile)) : Prop :=
  Forall (fun row => length row = w) tiles.

(** The character of a string at an index, [str[i]]. *)
Definition charAt (str : string) (i : Z) : option ascii :=
  if i <? 0 then None else String.get (Z.to_nat i) str.

(** A coordinate holds a tile that is not a barrier. *)
Definition openTile (tiles : list (list Grid.Tile)) (c : Z * Z) : Prop :=
  exists tile, cell tiles c.1 c.2 = Some tile /\ Grid.type tile <> Grid.barrier.

(** A level definition is consistent: its grid has [height] rows of
    [width] tiles, and the player and every enemy start on a tile of the
    grid that is not a barrier. *)
Definition wellFormed (d : LevelManager.LevelData) : Prop :=
  Z.of_nat (length (LevelManager.ld_tiles d)) = LevelManager.ld_height d
  /\ (exists w, Z.of_nat w = LevelManager.ld_width d
                /\ rect w (LevelManager.ld_tiles d))
  /\ openTile (LevelManager.ld_tiles d) (LevelManager.ld_playerStart d)
  /\ Forall (fun s => openTile (LevelManager.ld_tiles d)
                        (LevelManager.s_x s, LevelManager.s_y s))
            (LevelManager.ld_enemySpawns d).

(** *** Sample data *)

Definition tile (c : ascii) (ty : Grid.TileType) : Grid.Tile :=
  Grid.mkTile c ty None false false.

(** A row of tiles of one type, one per character. *)
Fixpoint rowOf (ty : Grid.TileType) (s : string) : list Grid.Tile :=
  match s with
  | String c r => tile c ty :: rowOf ty r
  | EmptyString => []
  end.

(** A 5 x 2 level: the words "ab" and "cd" over a row that holds three
    corrupted tiles and a barrier. *)
Definition sample_level : Grid.Level :=
  Grid.mkLevel 7 5 2
    [ rowOf Grid.data_node "ab cd";
      [ tile "#" Grid.corrupted; tile "#" Grid.corrupted; tile "#" Grid.corrupted;
        tile "|" Grid.barrier; tile "." Grid.pathway ] ].

(** A chaser as [new Chaser({ x, y, health })] makes it. *)
Definition chaser (id : N) (x y health : Z) : Enemy.t :=
  Enemy.mk id x y "C" "chaser" health Enemy.chasing.

(** A game on the main menu, as [init()] leaves a new state manager. *)
Definition menu_game : Game.t :=
  match Game.init "MENU" Game.noParams (Game.new Input.new fresh_player) with
  | Game.Ok g => g
  | Game.Throw _ => Game.new Input.new fresh_player
  end.

(** A game in the Playing state on [sample_level] after 42 seconds, the
    cursor on the [c] of "cd", with the given enemy roster. *)
Definition sample_game (es : list Enemy.t) : Game.t :=
  Game.mk
    (Input.registerActionListener "pause" Input.PlayingPause Input.new)
    (Player.mk 3 0 (Some sample_level) 0 100 100)
    (Game.mkPlaying (Some sample_level) 42 es)
    (Game.mkGameOver 0 1) (Game.mkLevelComplete 0 None 0)
    (Some Game.PlayingState) (Some "PLAYING") (Some "LOADING") [].

(** *** Key sequences *)

(** The keys that type a string, one single-character key per character. *)
Fixpoint charKeys (s : string) : list string :=
  match s with
  | String c r => String c "" :: charKeys r
  | EmptyString => []
  end.

(** The handler is listening in navigation mode with nothing buffered. *)
Definition idleNormal (h : Input.t) : Prop :=
  Input.active h = true /\ Input.mode h = Input.NORMAL
  /\ Input.commandBuffer h = "" /\ Input.numericPrefix h = "".

(** The command a motion key completes: an operator command when an
    operator is pending, a move otherwise. *)
Definition motionCommand (buffer : string) (m : Input.Motion) (count : option Z)
    : Input.Command :=
  if String.eqb buffer "d" then Input.OperatorMotion Input.DELETE m count
  else if String.eqb buffer "c" then Input.OperatorMotion Input.CHANGE m count
  else if String.eqb buffer "y" then Input.OperatorMotion Input.YANK m count
  else Input.MOVE m count.

(** The [TYPE_CORRECT] commands for the characters of [s] typed at the
    indices [i], [i + 1], ... *)
Fixpoint correctFrom (i : nat) (s : string) : list Input.Command :=
  match s with
  | String c r => Input.TYPE_CORRECT (String c "") i :: correctFrom (S i) r
  | EmptyString => []
  end.

(** The handler is listening in text-entry mode. *)
Definition listeningTyping (h : Input.t) : Prop :=
  Input.active h = true /\ Input.mode h = Input.TYPING.

(** The listeners a state registers in [enter] (and removes in [exit]). *)
Definition listenersOf (s : option Game.StateObj) : gmap string Input.Callback :=
  match s with
  | Some Game.MenuState => {[ "confirm" := Input.MenuConfirm ]}
  | Some Game.PlayingState => {[ "pause" := Input.PlayingPause ]}
  | Some Game.PausedState => {[ "unpause" := Input.PausedUnpause ]}
  | Some Game.GameOverState =>
      <[ "menu" := Input.GameOverMenu ]> {[ "confirm" := Input.GameOverConfirm ]}
  | Some Game.LevelCompleteState =>
      <[ "menu" := Input.LevelCompleteMenu ]>
        {[ "confirm" := Input.LevelCompleteConfirm ]}
  | Some Game.LoadingState | Some (Game.Inherited _) | None => ∅
  end.

#[global] Instance Callback_eq_dec : EqDecision Input.Callback.
Proof. solve_decision. Defined.

(** The bindings after [enter] and after [exit] of a state. *)
Definition entered (s : Game.StateObj) (m : gmap string Input.Callback)
    : gmap string Input.Callback :=
  match s with
  | Game.MenuState => <[ "confirm" := Input.MenuConfirm ]> m
  | Game.LoadingState | Game.Inherited _ => m
  | Game.PlayingState => <[ "pause" := Input.PlayingPause ]> m
  | Game.PausedState => <[ "unpause" := Input.PausedUnpause ]> m
  | Game.GameOverState =>
      <[ "menu" := Input.GameOverMenu ]> (<[ "confirm" := Input.GameOverConfirm ]> m)
  | Game.LevelCompleteState =>
      <[ "menu" := Input.LevelCompleteMenu ]>
        (<[ "confirm" := Input.LevelCompleteConfirm ]> m)
  end.

Definition exited (s : Game.StateObj) (m : gmap string Input.Callback)
    : gmap string Input.Callback :=
  match s with
  | Game.MenuState => delete "confirm" m
  | Game.LoadingState | Game.Inherited _ => m
  | Game.PlayingState => delete "pause" m
  | Game.PausedState => delete "unpause" m
  | Game.GameOverState | Game.LevelCompleteState => delete "menu" (delete "confirm" m)
  end.

(** The input bindings are those of the active state. *)
Definition bindingsConsistent (g : Game.t) : Prop :=
  Input.actionListeners (Game.inputHandler g) = listenersOf (Game.currentState g).

(** The states that wait for a confirm, menu or unpause action. *)
Definition waiting (s : Game.StateObj) : bool :=
  match s with
  | Game.MenuState | Game.PausedState | Game.GameOverState
  | Game.LevelCompleteState => true
  | Game.LoadingState | Game.PlayingState | Game.Inherited _ => false
  end.

(** * Properties *)

(** ** Enemy damage *)

(** C10.  After [takeDamage(amount)], for any enemy and any amount, the
    health is the old health minus the amount floored at 0, hence never
    negative; the call sets the state to ['defeated'] exactly when the
    new health is 0 and leaves the state alone otherwise; and
    [isDefeated()] then answers true if and only if the health is 0. *)
Theorem takeDamage_floor_and_defeat (e : Enemy.t) (amount : Z) :
  Enemy.health (Enemy.takeDamage amount e) = Z.max 0 (Enemy.health e - amount)
  /\ 0 <= Enemy.health (Enemy.takeDamage amount e)
  /\ Enemy.state (Enemy.takeDamage amount e) =
       (if Enemy.health (Enemy.takeDamage amount e) =? 0
        then Enemy.defeated else Enemy.state e)
  /\ (Enemy.isDefeated (Enemy.takeDamage amount e) = true
      <-> Enemy.health (Enemy.takeDamage amount e) = 0).
Proof.
  destruct e as [i ex ey ch ty h st]. unfold Enemy.takeDamage, Enemy.isDefeated.
  cbn [Enemy.set_health Enemy.health Enemy.id Enemy.x Enemy.y Enemy.char
       Enemy.type Enemy.state].
  destruct (Z.eqb_spec (Z.max 0 (h - amount)) 0) as [E|E]; cbn.
  - rewrite E. repeat split; try lia; reflexivity.
  - destruct (Z.eqb_spec (Z.max 0 (h - amount)) 0); [contradiction|].
    repeat split; try lia.
Qed.

(** ** The keystroke parser *)

(** Case analysis on a scrutinee of the goal that contains no other
    case analysis. *)
Ltac case_innermost :=
  match goal with
  | |- context [match ?e with _ => _ end] =>
      lazymatch e with
      | context [match _ with _ => _ end] => fail
      | _ => destruct e
      end
  end.

Lemma digitsValue_ge (s : string) (acc : Z) :
  0 <= acc -> acc <= Input.digitsValue acc s.
Proof.
  revert acc. induction s as [|c r IH]; intros acc Hacc; cbn; [lia|].
  destruct (Input.isDigit c) eqn:Hd; [|lia].
  unfold Input.isDigit in Hd. apply andb_true_iff in Hd as [Hlo _].
  apply Nat.leb_le in Hlo.
  etransitivity; [|apply IH]; lia.
Qed.

(** A well-shaped, non-empty prefix parses to a number that is at least 1. *)
Lemma parseInt_prefix (prefix : string) :
  prefixOk prefix = true -> prefix <> "" ->
  exists n, Input.parseInt prefix = Some n /\ 1 <= n.
Proof.
  destruct prefix as [|c r]; [congruence|]. intros Hok _.
  cbn in Hok. apply andb_true_iff in Hok as [Hc _].
  destruct c as [[] [] [] [] [] [] [] []]; try discriminate Hc;
    (eexists; split; [reflexivity|]);
    cbn; change (Input.isDigit _) with true; cbv iota;
    (etransitivity; [|apply digitsValue_ge]); by vm_compute.
Qed.

(** On a well-shaped prefix the handler's count,
    [parseInt(numericPrefix || '1', 10)], is the specification's. *)
Lemma count_is_countSpec (prefix : string) :
  prefixOk prefix = true ->
  Input.parseInt (if String.eqb prefix "" then "1" else prefix)
  = Some (countSpec prefix).
Proof.
  intros Hok. destruct (String.eqb_spec prefix "") as [->|Hne]; [reflexivity|].
  destruct (parseInt_prefix prefix Hok Hne) as (n & Hn & Hge).
  unfold countSpec. rewrite Hn. f_equal. lia.
Qed.

(** The handler keeps the prefix well shaped on every key that is not
    [Escape]. *)
Lemma allDigits_app (s : string) (c : ascii) :
  allDigits s = true -> Input.isDigit c = true -> allDigits (s ++ String c "") = true.
Proof.
  induction s as [|d r IH]; simpl; intros Hs Hc; [by rewrite Hc|].
  apply andb_true_iff in Hs as [-> Hr]. by apply IH.
Qed.

Lemma test_1_9_digit (c : ascii) :
  Input.test_1_9 (String c "") = true -> Input.isDigit c = true.
Proof.
  unfold Input.test_1_9, Input.isDigit. intros H.
  apply andb_true_iff in H as [Hlo Hhi]. apply Nat.leb_le in Hlo.
  rewrite Hhi, andb_true_r. apply Nat.leb_le. lia.
Qed.

Lemma prefixOk_app (prefix : string) (c : ascii) :
  prefixOk prefix = true ->
  Input.isDigit c = true ->
  (prefix = "" -> Input.test_1_9 (String c "") = true) ->
  prefixOk (prefix ++ String c "") = true.
Proof.
  destruct prefix as [|d r]; intros Hok Hc Hfirst.
  - change (Input.test_1_9 (String c "") && true = true).
    rewrite Hfirst; done.
  - change (Input.test_1_9 (String d "") && allDigits (r ++ String c "") = true).
    change (Input.test_1_9 (String d "") && allDigits r = true) in Hok.
    apply andb_true_iff in Hok as [-> Hr]. by apply allDigits_app.
Qed.

Lemma prefixOk_normalKey (key : string) (count : option Z) (h : Input.t) :
  prefixOk (Input.numericPrefix h) = true ->
  prefixOk (Input.numericPrefix (Keys.normalKey key count h)) = true.
Proof.
  intros Hok. unfold Keys.normalKey.
  destruct (Input.test_1_9 key && _) eqn:H19.
  { apply andb_true_iff in H19 as [H19 _].
    destruct key as [|c [|? ?]]; try discriminate H19.
    apply prefixOk_app; auto using test_1_9_digit. }
  destruct (Input.test_0 key && _ && _) eqn:H0.
  { apply andb_true_iff in H0 as [H0 Hne]. apply andb_true_iff in H0 as [H0 _].
    apply String.eqb_eq in H0 as ->.
    apply prefixOk_app; [done|done|].
    intros E. cbn [Input.numericPrefix Input.set_numericPrefix] in Hne.
    rewrite E in Hne. discriminate Hne. }
  destruct (Input.includes _ key && String.eqb (Input.commandBuffer h) "");
    [done|].
  destruct h as [act md buf pre tgt idx q ls].
  cbn [Input.numericPrefix Input.commandBuffer Input.set_commandBuffer
       Input.set_buffers Input.queueCommand Input.set_commandQueue
       Input.commandQueue Input.active Input.mode Input.targetTypingPhrase
       Input.currentTypingIndex Input.actionListeners] in *.
  repeat (case_innermost;
          cbn [Input.numericPrefix Input.commandBuffer Input.set_commandBuffer
               Input.set_buffers Input.queueCommand Input.set_commandQueue
               Input.commandQueue Input.active Input.mode
               Input.targetTypingPhrase Input.currentTypingIndex
               Input.actionListeners]);
    done.
Qed.



(** C6.  Where the code departs from the specification: a different
    operator key
    pressed while an operator is pending is a key that matches nothing,
    yet the handler returns with the game exactly as it was.  The pending
    operator and the numeric prefix are kept and nothing is queued, so no
    [CLEAR_BUFFER] is sent. *)
Theorem other_operator_keeps_pending (g : Game.t) (pending k : string) :
  In pending ["d"; "c"; "y"] ->
  In k ["d"; "c"; "y"] ->
  k <> pending ->
  Input.commandBuffer (Game.inputHandler g) = pending ->
  Keys._handleNormalMode k g = Game.Ok g.
Proof.
  intros Hp Hk Hne Hbuf.
  destruct g as [h pl ps go lc cs csn psn tr].
  destruct h as [act md buf pre tgt idx q ls]. cbn in Hbuf. subst buf.
  cbn in Hp, Hk.
  destruct Hp as [<-|[<-|[<-|[]]]]; destruct Hk as [<-|[<-|[<-|[]]]];
    try congruence; reflexivity.
Qed.

Lemma other_operator_keeps_pending_witness :
  Keys._handleNormalMode "c"
    (Game.new (Input.set_buffers "d" "3" Input.new) fresh_player)
  = Game.Ok (Game.new (Input.set_buffers "d" "3" Input.new) fresh_player).
Proof.
  apply (other_operator_keeps_pending
           (Game.new (Input.set_buffers "d" "3" Input.new) fresh_player) "d" "c").
  - simpl. left. reflexivity.
  - simpl. right. left. reflexivity.
  - discriminate.
  - reflexivity.
Defined.

(** ** The game-mode state machine *)

Lemma errors_emit (e : Game.Effect) (g : Game.t) :
  errors (Game.emit e g)
  = (errors g ++ match e with Game.console_error m => [m] | _ => [] end)%list.
Proof.
  unfold errors. cbn [Game.emit Game.trace]. rewrite omap_app.
  by destruct e.
Qed.

Lemma errors_emit_other (e : Game.Effect) (g : Game.t) :
  (forall m, e <> Game.console_error m) -> errors (Game.emit e g) = errors g.
Proof.
  intros He. rewrite errors_emit. destruct e; rewrite ?app_nil_r; try done.
  by destruct (He message).
Qed.

(** Entering and leaving a state logs no error. *)
Lemma errors_enter (s : Game.StateObj) (params : Game.Params) (g : Game.t) :
  errors (Game.enter s params g) = errors g.
Proof.
  destruct s; cbn [Game.enter];
    repeat first
      [ rewrite errors_emit_other by discriminate
      | progress change (errors (Game.input ?f ?g)) with (errors g)
      | progress change (errors (Game.set_enemies ?f ?g)) with (errors g)
      | progress change (errors (Game.set_gameOver ?f ?g)) with (errors g)
      | progress change (errors (Game.set_levelComplete ?f ?g)) with (errors g) ];
    reflexivity.
Qed.

Lemma errors_exit (s : Game.StateObj) (g : Game.t) :
  errors (Game.exit s g) = errors g.
Proof.
  destruct s; cbn [Game.exit];
    repeat first
      [ rewrite errors_emit_other by discriminate
      | progress change (errors (Game.input ?f ?g)) with (errors g)
      | progress change (errors (Game.set_enemies ?f ?g)) with (errors g) ];
    reflexivity.
Qed.

Lemma current_enter (s : Game.StateObj) (params : Game.Params) (g : Game.t) :
  Game.currentState (Game.enter s params g) = Game.currentState g
  /\ Game.currentStateName (Game.enter s params g) = Game.currentStateName g.
Proof. by destruct s. Qed.

(** The keys of [this.states] are the six mode names. *)
Lemma states_lookup (name : string) (s : Game.StateObj) :
  Game.states !! name = Some s <->
  In (name, s)
     [ ("MENU", Game.MenuState); ("LOADING", Game.LoadingState);
       ("PLAYING", Game.PlayingState); ("PAUSED", Game.PausedState);
       ("GAME_OVER", Game.GameOverState);
       ("LEVEL_COMPLETE", Game.LevelCompleteState) ].
Proof.
  unfold Game.states. rewrite <- elem_of_list_to_map, list_elem_of_In; [done|].
  apply (bool_decide_unpack _). by vm_compute.
Qed.

Lemma states_MENU : Game.states !! "MENU" = Some Game.MenuState.
Proof. apply states_lookup. cbn. auto. Qed.

(** An own key of [this.states] is found before any inherited name. *)
Lemma statesAt_own (name : string) (s : Game.StateObj) :
  Game.states !! name = Some s -> Game.statesAt name = Some s.
Proof. unfold Game.statesAt. by intros ->. Qed.

Lemma statesAt_MENU : Game.statesAt "MENU" = Some Game.MenuState.
Proof. apply statesAt_own, states_MENU. Qed.

(** What [this.states[name]] finds: a state under its own key, the
    inherited member under an inherited name, nothing otherwise. *)
Lemma statesAt_cases (name : string) :
  match Game.states !! name with
  | Some s => Game.statesAt name = Some s
  | None =>
      if inherited name
      then Game.statesAt name = Some (Game.Inherited name)
      else Game.statesAt name = None
  end.
Proof.
  unfold Game.statesAt. destruct (Game.states !! name); [done|].
  by destruct (inherited name).
Qed.

(** [switchTo] on a name under which [this.states] finds something. *)
Lemma switchTo_known (name : string) (s : Game.StateObj)
    (params : Game.Params) (g : Game.t) :
  Game.statesAt name = Some s ->
  exists g',
    Game.switchTo name params g = Game.Ok g'
    /\ Game.currentStateName g' = Some name
    /\ Game.currentState g' = Some s
    /\ errors g' = errors g.
Proof.
  intros Hs. unfold Game.switchTo. rewrite Hs. cbn [Game.bind]. rewrite Hs.
  eexists. split; [reflexivity|].
  destruct (current_enter s params
              (Game.set_current s name
                 match Game.currentState
                         match Game.currentStateName g with
                         | Some current =>
                             if negb (String.eqb current "")
                                && negb (String.eqb current name)
                             then Game.set_previousStateName (Some current) g
                             else g
                         | None => g
                         end
                 with
                 | Some old =>
                     Game.exit old
                       match Game.currentStateName g with
                       | Some current =>
                           if negb (String.eqb current "")
                              && negb (String.eqb current name)
                           then Game.set_previousStateName (Some current) g
                           else g
                       | None => g
                       end
                 | None =>
                     match Game.currentStateName g with
                     | Some current =>
                         if negb (String.eqb current "")
                            && negb (String.eqb current name)
                         then Game.set_previousStateName (Some current) g
                         else g
                     | None => g
                     end
                 end)) as [-> ->].
  split; [done|]. split; [done|].
  rewrite errors_enter.
  change (errors (Game.set_current ?a ?b ?g)) with (errors g).
  destruct (Game.currentStateName g) as [current|];
    [destruct (negb _ && negb _)|];
    cbn [Game.currentState Game.set_previousStateName];
    destruct (Game.currentState g); by rewrite ?errors_exit.
Qed.

(** C8.  Where the code departs from the specification.  A request that
    names one of the six keys of [this.states] enters that state and
    logs no error: the fallback is not taken.  A request that names
    anything else is meant to log the anomaly and fall back to the menu,
    and for a name that [Object.prototype] does not provide it does: it
    logs exactly once with [console.error] and then behaves as the
    request [switchTo('MENU', {})], which enters the Menu state.  But
    under a name inherited from [Object.prototype], such as
    [constructor], [this.states[stateName]] finds the inherited member:
    the test for an unknown state fails, nothing is logged, there is no
    fallback, and the member, which is not a state and has no [enter],
    becomes the current state. *)
Theorem switchTo_takes_inherited_name_for_a_state (name : string)
    (params : Game.Params) (g : Game.t) :
  exists g',
    Game.switchTo name params g = Game.Ok g'
    /\ match Game.states !! name with
       | Some s =>
           Game.currentStateName g' = Some name
           /\ Game.currentState g' = Some s
           /\ errors g' = errors g
       | None =>
           if inherited name
           then
             Game.currentStateName g' = Some name
             /\ Game.currentState g' = Some (Game.Inherited name)
             /\ errors g' = errors g
             /\ (forall params' g0, Game.enter (Game.Inherited name) params' g0 = g0)
           else
             Game.switchTo name params g
             = Game.switchTo "MENU" Game.noParams
                 (Game.emit (Game.console_error (Game.unknownStateMessage name)) g)
             /\ Game.currentStateName g' = Some "MENU"
             /\ Game.currentState g' = Some Game.MenuState
             /\ errors g' = (errors g ++ [Game.unknownStateMessage name])%list
       end.
Proof.
  pose proof (statesAt_cases name) as Hat.
  destruct (Game.states !! name) as [s|] eqn:Hs.
  - destruct (switchTo_known name s params g Hat) as (g' & Hg' & Hn & Hc & He).
    exists g'. eauto 6.
  - destruct (inherited name) eqn:Hin.
    + destruct (switchTo_known name (Game.Inherited name) params g Hat)
        as (g' & Hg' & Hn & Hc & He).
      exists g'. repeat split; done.
    + destruct (switchTo_known "MENU" Game.MenuState Game.noParams
                  (Game.emit (Game.console_error (Game.unknownStateMessage name)) g)
                  statesAt_MENU) as (g' & Hg' & Hn & Hc & He).
      assert (Game.switchTo name params g
              = Game.switchTo "MENU" Game.noParams
                  (Game.emit (Game.console_error (Game.unknownStateMessage name)) g))
        as Heq.
      { unfold Game.switchTo at 1. rewrite Hat, statesAt_MENU. cbn [Game.bind].
        unfold Game.switchTo. rewrite statesAt_MENU. reflexivity. }
      exists g'. rewrite Heq, He, errors_emit. eauto 6.
Qed.

(** At a concrete request: from the main menu, [switchTo('constructor')]
    logs nothing, leaves the menu (its [confirm] binding is gone) and
    ends with the [Object] constructor as current state, instead of
    falling back to the menu. *)
Example switchTo_constructor_from_menu :
  exists g',
    Game.switchTo "constructor" Game.noParams menu_game = Game.Ok g'
    /\ Game.currentStateName g' = Some "constructor"
    /\ Game.currentState g' = Some (Game.Inherited "constructor")
    /\ errors g' = []
    /\ Input.actionListeners (Game.inputHandler g') !! "confirm" = None.
Proof. eexists. split; [reflexivity|]. repeat split. Qed.

Lemma states_PAUSED : Game.states !! "PAUSED" = Some Game.PausedState.
Proof. apply states_lookup. cbn. auto. Qed.

Lemma states_PLAYING : Game.states !! "PLAYING" = Some Game.PlayingState.
Proof. apply states_lookup. cbn. auto. Qed.

Lemma statesAt_PAUSED : Game.statesAt "PAUSED" = Some Game.PausedState.
Proof. apply statesAt_own, states_PAUSED. Qed.

Lemma statesAt_PLAYING : Game.statesAt "PLAYING" = Some Game.PlayingState.
Proof. apply statesAt_own, states_PLAYING. Qed.

(** C1.  Where the code departs from the specification: from the Playing
    state
    the pause closure enters Paused and the unpause closure enters Playing
    again; the elapsed time, the level and the player (with the cursor
    position) are as before the pause, but the enemy roster is empty,
    whatever it held: [PlayingState.exit] clears it on the way out and
    [PlayingState.enter] on the way back in. *)
Theorem pause_resume_round_trip (g : Game.t) :
  Game.currentState g = Some Game.PlayingState ->
  exists g1 g2,
    Game.call Input.PlayingPause g = Game.Ok g1
    /\ Game.currentState g1 = Some Game.PausedState
    /\ Game.call Input.PausedUnpause g1 = Game.Ok g2
    /\ Game.currentState g2 = Some Game.PlayingState
    /\ Game.elapsedTime (Game.playing g2) = Game.elapsedTime (Game.playing g)
    /\ Game.currentLevel (Game.playing g2) = Game.currentLevel (Game.playing g)
    /\ Game.player g2 = Game.player g
    /\ Game.enemies (Game.playing g2) = [].
Proof.
  intros Hplaying.
  destruct g as [h pl ps go lc cs csn psn tr]. cbn in Hplaying. subst cs.
  unfold Game.call, Game.switchTo.
  rewrite statesAt_PAUSED. cbn [Game.bind]. rewrite statesAt_PAUSED.
  eexists. eexists. split; [reflexivity|]. split; [reflexivity|].
  rewrite statesAt_PLAYING. cbn [Game.bind]. rewrite statesAt_PLAYING.
  split; [reflexivity|].
  destruct csn as [current|];
    cbn [Game.currentStateName Game.currentState];
    [destruct (negb (String.eqb current "") && negb (String.eqb current "PAUSED"))|];
    repeat split.
Qed.

Lemma pause_resume_round_trip_witness :
  exists g1 g2,
    Game.call Input.PlayingPause (sample_game [chaser 0 4 0 2]) = Game.Ok g1
    /\ Game.currentState g1 = Some Game.PausedState
    /\ Game.call Input.PausedUnpause g1 = Game.Ok g2
    /\ Game.currentState g2 = Some Game.PlayingState
    /\ Game.elapsedTime (Game.playing g2) = 42
    /\ Game.currentLevel (Game.playing g2) = Some sample_level
    /\ Game.player g2 = Player.mk 3 0 (Some sample_level) 0 100 100
    /\ Game.enemies (Game.playing g2) = [].
Proof.
  apply (pause_resume_round_trip (sample_game [chaser 0 4 0 2])).
  reflexivity.
Defined.

(** ** Range application *)

(** C9.  [handleRangeAction] gives the same game (grid, enemies, score,
    calls into the renderer and the UI) whichever of its corners the
    range names first: the pair taken in the opposite order, or with the
    two columns or the two rows exchanged, has the same minimum and
    maximum on both axes. *)
Theorem handleRangeAction_order_independent (sx sy ex ey cost : Z)
    (actionType : Player.ActionType) (g : Game.t) :
  Game.handleRangeAction (Player.mkRange ex ey sx sy) cost actionType g
  = Game.handleRangeAction (Player.mkRange sx sy ex ey) cost actionType g
  /\ Game.handleRangeAction (Player.mkRange ex sy sx ey) cost actionType g
     = Game.handleRangeAction (Player.mkRange sx sy ex ey) cost actionType g
  /\ Game.handleRangeAction (Player.mkRange sx ey ex sy) cost actionType g
     = Game.handleRangeAction (Player.mkRange sx sy ex ey) cost actionType g.
Proof.
  unfold Game.handleRangeAction.
  cbn [Player.startX Player.startY Player.endX Player.endY].
  rewrite (Z.min_comm ex sx), (Z.max_comm ex sx),
          (Z.min_comm ey sy), (Z.max_comm ey sy).
  done.
Qed.

(** ** The action resolver *)

(** C4.  With a level loaded, the cursor on row [y] of the grid and a
    count [n >= 1], resolving an operator with the [LINE] motion requests
    the range from column 0 to column [width - 1] and from row [y] to row
    [min(y + n - 1, height - 1)], which is not above [y]; the tiles of
    the grid inside that range are exactly those of the rows
    [y .. min(y + n - 1, height - 1)], in all the columns [0 .. width - 1]. *)
Theorem line_motion_span (H : Player.Helpers) (p : Player.t) (grid : Grid.Level)
    (n : Z) (base : Input.Operator) :
  Player.currentLevelGrid p = Some grid ->
  1 <= n ->
  0 <= Player.y p < Grid.height grid ->
  let lastRow := Z.min (Player.y p + n - 1) (Grid.height grid - 1) in
  let range := Player.mkRange 0 (Player.y p) (Grid.width grid - 1) lastRow in
  Player._handleDeleteOrChangeMotion H p Input.LINE n base
  = Player.requestAction H p (Player.rangeType base) (Player.RangeTarget range)
      (10 * n * (Grid.width grid - 1 - 0 + 1))
  /\ Player.y p <= lastRow
  /\ (forall x y,
        inRange range x y /\ Grid.inBounds grid x y = true <->
        0 <= x <= Grid.width grid - 1 /\ Player.y p <= y <= lastRow).
Proof.
  intros Hgrid Hn Hy lastRow range.
  unfold Player._handleDeleteOrChangeMotion. rewrite Hgrid.
  cbn [Player.motionSpan]. split; [reflexivity|].
  subst lastRow range. split; [lia|].
  intros x y. unfold inRange, minX, maxX, minY, maxY, Grid.inBounds.
  cbn [Player.startX Player.startY Player.endX Player.endY].
  rewrite negb_true_iff, !orb_false_iff, !Z.ltb_ge, !Z.leb_gt. lia.
Qed.

Lemma line_motion_span_witness :
  let p := Player.mk 3 0 (Some sample_level) 0 100 100 in
  let H := Player.specHelpers Input.isSpace Player.specRequestAction in
  let lastRow := Z.min (0 + 3 - 1) (2 - 1) in
  let range := Player.mkRange 0 0 (5 - 1) lastRow in
  Player._handleDeleteOrChangeMotion H p Input.LINE 3 Input.DELETE
  = Player.requestAction H p (Player.rangeType Input.DELETE)
      (Player.RangeTarget range) (10 * 3 * (5 - 1 - 0 + 1))
  /\ 0 <= lastRow
  /\ (forall x y,
        inRange range x y /\ Grid.inBounds sample_level x y = true <->
        0 <= x <= 5 - 1 /\ 0 <= y <= lastRow).
Proof.
  apply (line_motion_span
           (Player.specHelpers Input.isSpace Player.specRequestAction)
           (Player.mk 3 0 (Some sample_level) 0 100 100) sample_level 3
           Input.DELETE).
  - reflexivity.
  - lia.
  - simpl. lia.
Defined.

Lemma lastBelow_lt (test : nat -> bool) (n k : nat) :
  lastBelow test n = Some k -> (k < n)%nat.
Proof.
  induction n as [|n IH]; cbn; [done|].
  destruct (test n); [intros [= <-]; lia|]. intros Hk. apply IH in Hk. lia.
Qed.






(** ** Range application: tiles *)

Lemma tileAt_setTile_eq (l : Grid.Level) (x y : Z) (t0 t : Grid.Tile) :
  0 <= x -> 0 <= y ->
  Grid.tileAt l x y = Some t0 ->
  Grid.tileAt (Grid.setTile l x y t) x y = Some t.
Proof.
  intros Hx Hy. unfold Grid.tileAt, Grid.setTile, at_index.
  destruct (Z.ltb_spec x 0); [lia|]. destruct (Z.ltb_spec y 0); [lia|].
  cbn [orb Grid.tiles Grid.set_tiles].
  rewrite list_lookup_alter_eq.
  destruct (Grid.tiles l !! Z.to_nat y) as [row|]; [|done]. cbn.
  intros Hrow. apply list_lookup_insert_eq. by eapply lookup_lt_Some.
Qed.

Lemma tileAt_setTile_ne (l : Grid.Level) (x y x' y' : Z) (t : Grid.Tile) :
  (x', y') <> (x, y) ->
  Grid.tileAt (Grid.setTile l x y t) x' y' = Grid.tileAt l x' y'.
Proof.
  intros Hne. unfold Grid.tileAt, Grid.setTile, at_index.
  destruct (Z.ltb_spec x 0); [done|]. destruct (Z.ltb_spec y 0); [done|].
  cbn [orb Grid.tiles Grid.set_tiles].
  destruct (Z.ltb_spec y' 0); [done|].
  destruct (decide (Z.to_nat y = Z.to_nat y')) as [Ey|Ey].
  - rewrite <- Ey, list_lookup_alter_eq.
    destruct (Grid.tiles l !! Z.to_nat y) as [row|]; [|done]. cbn.
    destruct (Z.ltb_spec x' 0); [done|].
    apply list_lookup_insert_ne. intros Ex. apply Hne. f_equal; lia.
  - by rewrite list_lookup_alter_ne.
Qed.

Lemma inBounds_setTile (l : Grid.Level) (x y x' y' : Z) (t : Grid.Tile) :
  Grid.inBounds (Grid.setTile l x y t) x' y' = Grid.inBounds l x' y'.
Proof. unfold Grid.setTile. by destruct (_ || _). Qed.

(** A tile that [getTileAt] returns lies inside the grid of a loaded
    level. *)
Lemma getTileAt_Some (x y : Z) (g : Game.t) (t : Grid.Tile) :
  Game.getTileAt x y g = Some t ->
  exists lvl,
    Game.currentLevel (Game.playing g) = Some lvl
    /\ Grid.inBounds lvl x y = true
    /\ Grid.tileAt lvl x y = Some t.
Proof.
  unfold Game.getTileAt.
  destruct (Game.currentLevel (Game.playing g)) as [lvl|]; [|done]. cbn.
  destruct (Grid.inBounds lvl x y) eqn:Hb; [|done]. eauto.
Qed.

Lemma inBounds_nonneg (lvl : Grid.Level) (x y : Z) :
  Grid.inBounds lvl x y = true -> 0 <= x /\ 0 <= y.
Proof.
  unfold Grid.inBounds.
  rewrite negb_true_iff, !orb_false_iff, !Z.ltb_ge. tauto.
Qed.

(** [updateGridTile] writes the merged tile at its coordinate ... *)
Lemma getTileAt_updateGridTile_eq (x y : Z) (d : Grid.TileData) (g : Game.t)
    (t : Grid.Tile) :
  Game.getTileAt x y g = Some t ->
  Game.getTileAt x y (Game.updateGridTile x y d g) = Some (Grid.merge t d).
Proof.
  intros Ht. unfold Game.updateGridTile. rewrite Ht.
  destruct (getTileAt_Some x y g t Ht) as (lvl & Hl & Hb & Hat). rewrite Hl.
  unfold Game.getTileAt.
  cbn [Game.emit Game.set_currentLevel Game.set_playing Game.playing
       Game.currentLevel mbind option_bind].
  rewrite inBounds_setTile, Hb.
  destruct (inBounds_nonneg lvl x y Hb). by eapply tileAt_setTile_eq.
Qed.

(** ... and no other tile. *)
Lemma getTileAt_updateGridTile_ne (x y x' y' : Z) (d : Grid.TileData)
    (g : Game.t) :
  (x', y') <> (x, y) ->
  Game.getTileAt x' y' (Game.updateGridTile x y d g) = Game.getTileAt x' y' g.
Proof.
  intros Hne. unfold Game.updateGridTile.
  destruct (Game.currentLevel (Game.playing g)) as [lvl|] eqn:Hl; [|done].
  destruct (Game.getTileAt x y g) as [t|]; [|done].
  unfold Game.getTileAt.
  cbn [Game.emit Game.set_currentLevel Game.set_playing Game.playing
       Game.currentLevel mbind option_bind].
  rewrite Hl. cbn [mbind option_bind].
  by rewrite inBounds_setTile, tileAt_setTile_ne.
Qed.

(** ** Range application: enemies *)

Lemma lastBelow_ext (f h : nat -> bool) (n : nat) :
  (forall i, (i < n)%nat -> f i = h i) -> lastBelow f n = lastBelow h n.
Proof.
  induction n as [|n IH]; intros Hext; cbn; [done|].
  rewrite Hext by lia. rewrite IH; [done|]. intros i Hi. apply Hext. lia.
Qed.

Lemma lastBelow_Some (f : nat -> bool) (n k : nat) :
  lastBelow f n = Some k ->
  f k = true /\ (forall j, (k < j < n)%nat -> f j = false).
Proof.
  induction n as [|n IH]; cbn; [done|].
  destruct (f n) eqn:Hn.
  - intros [= <-]. split; [done|]. intros j Hj. lia.
  - intros Hk. destruct (IH Hk) as [Hfk Hafter]. split; [done|].
    intros j Hj. destruct (decide (j = n)) as [->|]; [done|]. apply Hafter.
    apply lastBelow_lt in Hk. lia.
Qed.

Lemma lastBelow_None (f : nat -> bool) (n : nat) :
  (forall j, (j < n)%nat -> f j = false) -> lastBelow f n = None.
Proof.
  induction n as [|n IH]; intros Hf; cbn; [done|].
  rewrite Hf by lia. apply IH. intros j Hj. apply Hf. lia.
Qed.

Lemma positions_lookup (es : list Enemy.t) (i : nat) :
  positions es !! i = Enemy.getPosition <$> es !! i.
Proof. unfold positions. apply list_lookup_fmap. Qed.

(** Damage does not move an enemy. *)
Lemma positions_alter (amount : Z) (i : nat) (es : list Enemy.t) :
  positions (alter (Enemy.takeDamage amount) i es) = positions es.
Proof.
  unfold positions.
  rewrite (list_fmap_alter Enemy.getPosition (Enemy.takeDamage amount) id).
  - by apply list_alter_id.
  - apply Forall_forall. intros e _. unfold Enemy.takeDamage.
    by destruct (_ =? 0).
Qed.

(** The scan reads the positions of the roster only. *)
Lemma scanEnemies_positions (x y : Z) (es es' : list Enemy.t) :
  positions es = positions es' ->
  Game.scanEnemies x y es = Game.scanEnemies x y es'.
Proof.
  intros Hpos. unfold Game.scanEnemies.
  assert (length es = length es') as <-.
  { rewrite <- (length_fmap Enemy.getPosition es),
            <- (length_fmap Enemy.getPosition es').
    unfold positions in Hpos. by rewrite Hpos. }
  apply lastBelow_ext. intros i _.
  pose proof (positions_lookup es i) as H1.
  pose proof (positions_lookup es' i) as H2. rewrite Hpos in H1.
  rewrite H2 in H1.
  destruct (es !! i) as [e|], (es' !! i) as [e'|]; try done.
  cbn in H1. injection H1 as Hx Hy. unfold Game.occupies. by rewrite Hx, Hy.
Qed.

(** The scan stops at an enemy that stands on the coordinate, and no
    enemy further down the roster does. *)
Lemma scanEnemies_Some (x y : Z) (es : list Enemy.t) (i : nat) :
  Game.scanEnemies x y es = Some i ->
  (exists e, es !! i = Some e /\ Game.occupies x y e = true)
  /\ (forall j e, (i < j)%nat -> es !! j = Some e -> Game.occupies x y e = false).
Proof.
  unfold Game.scanEnemies. intros Hscan.
  destruct (lastBelow_Some _ _ _ Hscan) as [Hi Hafter]. split.
  - destruct (es !! i) as [e|]; [eauto|done].
  - intros j e Hj Hje. specialize (Hafter j). rewrite Hje in Hafter.
    apply Hafter. split; [done|]. by eapply lookup_lt_Some.
Qed.

Lemma scanEnemies_unoccupied (x y : Z) (es : list Enemy.t) :
  unoccupied x y es -> Game.scanEnemies x y es = None.
Proof.
  intros Hfree. unfold Game.scanEnemies. apply lastBelow_None. intros j _.
  destruct (es !! j) as [e|] eqn:Hj; [|done].
  unfold unoccupied in Hfree. rewrite Forall_forall in Hfree.
  apply Hfree. by eapply list_elem_of_lookup_2.
Qed.

(** ** Range application: one coordinate *)

(** Case analysis along the branches of [rangeTile]. *)
Ltac rangeTile_cases :=
  unfold rangeStep, Game.rangeTile;
  repeat match goal with
         | |- context [let '(_, _) := ?st in _] => destruct st as [? ?]
         end;
  cbn [fst snd];
  repeat match goal with
         | |- context [match Game.currentLevel ?p with _ => _ end] =>
             destruct (Game.currentLevel p) eqn:?
         | |- context [if (?a || ?b || ?c || ?d) then _ else _] =>
             destruct (a || b || c || d) eqn:?
         | |- context [match Game.scanEnemies ?x ?y ?es with _ => _ end] =>
             destruct (Game.scanEnemies x y es) eqn:?
         | |- context [match Game.getTileAt ?x ?y ?g with _ => _ end] =>
             destruct (Game.getTileAt x y g) eqn:?
         | |- context [match Grid.type ?t with _ => _ end] =>
             destruct (Grid.type t) eqn:?
         end;
  cbn [fst snd].

Lemma step_positions (st : Game.t * Z) (c : Z * Z) :
  positions (Game.enemies (Game.playing (rangeStep st c).1))
  = positions (Game.enemies (Game.playing st.1)).
Proof.
  rangeTile_cases; try done.
  - cbn [Game.set_enemies Game.set_playing Game.playing Game.enemies].
    apply positions_alter.
  - unfold Game.updateGridTile.
    repeat match goal with H : _ = _ |- _ => rewrite H end. done.
Qed.

Lemma step_player (st : Game.t * Z) (c : Z * Z) :
  Game.player (rangeStep st c).1 = Game.player st.1.
Proof.
  rangeTile_cases; try done.
  unfold Game.updateGridTile.
  repeat match goal with H : _ = _ |- _ => rewrite H end. done.
Qed.

Lemma step_tile_ne (st : Game.t * Z) (c c' : Z * Z) :
  c' <> c ->
  Game.getTileAt c'.1 c'.2 (rangeStep st c).1 = Game.getTileAt c'.1 c'.2 st.1.
Proof.
  intros Hne. rangeTile_cases; try done.
  apply getTileAt_updateGridTile_ne. by destruct c, c'.
Qed.

Lemma step_tile_clear (st : Game.t * Z) (c : Z * Z) (t : Grid.Tile) :
  clears st.1 c = true ->
  Game.getTileAt c.1 c.2 st.1 = Some t ->
  Game.getTileAt c.1 c.2 (rangeStep st c).1
  = Some (Grid.merge t (Grid.mkTileData (Some "."%char) (Some Grid.pathway))).
Proof.
  unfold clears. intros Hclears Ht. destruct st as [g sc]. cbn [fst] in *.
  rewrite Ht in Hclears.
  destruct (Game.scanEnemies c.1 c.2 _) eqn:Hscan; [done|].
  apply bool_decide_eq_true in Hclears.
  destruct (getTileAt_Some _ _ _ _ Ht) as (lvl & Hl & Hb & _).
  unfold rangeStep, Game.rangeTile. rewrite Hl.
  unfold Grid.inBounds in Hb. apply negb_true_iff in Hb. rewrite Hb, Hscan, Ht, Hclears.
  cbn [fst]. by apply getTileAt_updateGridTile_eq.
Qed.

Lemma step_tile_keep (st : Game.t * Z) (c : Z * Z) :
  clears st.1 c = false ->
  Game.getTileAt c.1 c.2 (rangeStep st c).1 = Game.getTileAt c.1 c.2 st.1.
Proof.
  unfold clears. intros Hclears. rangeTile_cases; try done.
  cbn [fst] in Hclears.
  repeat match goal with
         | H : Game.scanEnemies _ _ _ = _ |- _ => rewrite H in Hclears
         | H : Game.getTileAt _ _ _ = _ |- _ => rewrite H in Hclears
         | H : Grid.type _ = _ |- _ => rewrite H in Hclears
         end.
  done.
Qed.

Lemma step_score (st : Game.t * Z) (c : Z * Z) :
  (rangeStep st c).2 = st.2 + (if clears st.1 c then 5 else 0).
Proof.
  unfold clears. destruct st as [g sc]. cbn [fst snd].
  destruct (Game.getTileAt c.1 c.2 g) as [t|] eqn:Ht.
  - destruct (getTileAt_Some _ _ _ _ Ht) as (lvl & Hl & Hb & _).
    unfold Grid.inBounds in Hb. apply negb_true_iff in Hb.
    unfold rangeStep, Game.rangeTile. rewrite Hl, Hb, Ht.
    destruct (Game.scanEnemies _ _ _); cbn [snd]; [lia|].
    destruct (Grid.type t); cbn [snd]; rewrite ?bool_decide_eq_true_2 by done;
      rewrite ?bool_decide_eq_false_2 by done; lia.
  - destruct (Game.scanEnemies c.1 c.2 _) eqn:Hscan;
      unfold rangeStep, Game.rangeTile;
      destruct (Game.currentLevel (Game.playing g)); cbn [snd]; try lia;
      destruct (_ || _ || _ || _); cbn [snd]; try lia;
      rewrite Hscan, ?Ht; cbn [snd]; lia.
Qed.

Lemma step_enemies_hit (st : Game.t * Z) (c : Z * Z) (lvl : Grid.Level) (i : nat) :
  Game.currentLevel (Game.playing st.1) = Some lvl ->
  Grid.inBounds lvl c.1 c.2 = true ->
  Game.scanEnemies c.1 c.2 (Game.enemies (Game.playing st.1)) = Some i ->
  Game.enemies (Game.playing (rangeStep st c).1)
  = alter (Enemy.takeDamage 5) i (Game.enemies (Game.playing st.1)).
Proof.
  destruct st as [g sc]. cbn [fst]. intros Hl Hb Hscan.
  unfold Grid.inBounds in Hb. apply negb_true_iff in Hb.
  unfold rangeStep, Game.rangeTile. by rewrite Hl, Hb, Hscan.
Qed.

Lemma step_enemies_other (st : Game.t * Z) (c : Z * Z) (j : nat) :
  Game.scanEnemies c.1 c.2 (Game.enemies (Game.playing st.1)) <> Some j ->
  Game.enemies (Game.playing (rangeStep st c).1) !! j
  = Game.enemies (Game.playing st.1) !! j.
Proof.
  destruct st as [g sc]. cbn [fst]. intros Hscan.
  unfold rangeStep, Game.rangeTile.
  destruct (Game.currentLevel (Game.playing g)); [|done].
  destruct (_ || _ || _ || _); [done|].
  destruct (Game.scanEnemies c.1 c.2 _) as [i|] eqn:Hi.
  - cbn [fst Game.set_enemies Game.set_playing Game.playing Game.enemies].
    apply list_lookup_alter_ne. congruence.
  - destruct (Game.getTileAt c.1 c.2 g) as [t|] eqn:Ht; [|done].
    destruct (Grid.type t); try done.
    unfold Game.updateGridTile. rewrite Ht.
    by destruct (Game.currentLevel (Game.playing g)).
Qed.

(** The grid keeps its bounds. *)
Lemma step_bounds (st : Game.t * Z) (c : Z * Z) (x y : Z) :
  bounds (rangeStep st c).1 x y = bounds st.1 x y.
Proof.
  destruct st as [g sc]. unfold bounds, rangeStep, Game.rangeTile. cbn [fst].
  destruct (Game.currentLevel (Game.playing g)) as [lvl|] eqn:Hl;
    cbn [fst]; rewrite ?Hl; [|done].
  destruct (_ || _ || _ || _); cbn [fst]; rewrite ?Hl; [done|].
  destruct (Game.scanEnemies _ _ _); cbn [fst].
  { cbn [Game.set_enemies Game.set_playing Game.playing Game.currentLevel].
    by rewrite Hl. }
  destruct (Game.getTileAt c.1 c.2 g) as [t|] eqn:Ht; cbn [fst];
    rewrite ?Hl; [|done].
  destruct (Grid.type t); cbn [fst]; rewrite ?Hl; try done.
  unfold Game.updateGridTile. rewrite Hl, Ht.
  cbn [Game.emit Game.set_currentLevel Game.set_playing Game.playing
       Game.currentLevel].
  apply inBounds_setTile.
Qed.

(** ** Range application: the loops *)

(** The nested loops visit [rangeCoords] in order. *)
Lemma loops_rangeCoords (r : Player.Range) (st : Game.t * Z) :
  forZ (minY r) (maxY r)
       (fun y => forZ (minX r) (maxX r) (fun x => Game.rangeTile x y)) st
  = foldl rangeStep st (rangeCoords r).
Proof.
  unfold forZ, rangeCoords.
  generalize (seqZ (minY r) (maxY r - minY r + 1)) as ys.
  generalize (seqZ (minX r) (maxX r - minX r + 1)) as xs.
  intros xs ys. revert st.
  induction ys as [|y ys IH]; intros st; [done|].
  cbn [foldl mbind list_bind]. rewrite foldl_app, <- IH. f_equal.
  clear IH. revert st. induction xs as [|x xs IHx]; intros st; [done|].
  cbn [foldl mbind list_bind app]. by rewrite <- IHx.
Qed.

Lemma elem_of_rangeCoords (r : Player.Range) (x y : Z) :
  (x, y) ∈ rangeCoords r <-> inRange r x y.
Proof.
  unfold rangeCoords, inRange. rewrite list_elem_of_bind. split.
  - intros (y' & Hin & Hy). apply list_elem_of_bind in Hin as (x' & Hin & Hx).
    apply list_elem_of_singleton in Hin as [= -> ->].
    apply elem_of_seqZ in Hx, Hy. lia.
  - intros [Hx Hy]. exists y. split; [|apply elem_of_seqZ; lia].
    apply list_elem_of_bind. exists x. split; [by apply list_elem_of_singleton|].
    apply elem_of_seqZ. lia.
Qed.

(** No coordinate is visited twice. *)
Lemma NoDup_rangeCoords (r : Player.Range) : NoDup (rangeCoords r).
Proof.
  unfold rangeCoords. apply NoDup_bind; [| |apply NoDup_seqZ].
  - intros y1 y2 c _ _ H1 H2.
    apply list_elem_of_bind in H1 as (x1 & H1 & _).
    apply list_elem_of_bind in H2 as (x2 & H2 & _).
    apply list_elem_of_singleton in H1, H2. congruence.
  - intros y _. apply NoDup_bind; [| |apply NoDup_seqZ].
    + intros x1 x2 c _ _ H1 H2.
      apply list_elem_of_singleton in H1, H2. congruence.
    + intros x _. apply NoDup_singleton.
Qed.

Lemma fold_positions (l : list (Z * Z)) (st : Game.t * Z) :
  positions (Game.enemies (Game.playing (foldl rangeStep st l).1))
  = positions (Game.enemies (Game.playing st.1)).
Proof.
  revert st. induction l as [|c l IH]; intros st; [done|].
  cbn [foldl]. by rewrite IH, step_positions.
Qed.

Lemma fold_player (l : list (Z * Z)) (st : Game.t * Z) :
  Game.player (foldl rangeStep st l).1 = Game.player st.1.
Proof.
  revert st. induction l as [|c l IH]; intros st; [done|].
  cbn [foldl]. by rewrite IH, step_player.
Qed.

Lemma fold_bounds (l : list (Z * Z)) (st : Game.t * Z) (x y : Z) :
  bounds (foldl rangeStep st l).1 x y = bounds st.1 x y.
Proof.
  revert st. induction l as [|c l IH]; intros st; [done|].
  cbn [foldl]. by rewrite IH, step_bounds.
Qed.

Lemma fold_tile_untouched (l : list (Z * Z)) (st : Game.t * Z) (c : Z * Z) :
  c ∉ l ->
  Game.getTileAt c.1 c.2 (foldl rangeStep st l).1 = Game.getTileAt c.1 c.2 st.1.
Proof.
  revert st. induction l as [|a l IH]; intros st Hc; [done|].
  apply not_elem_of_cons in Hc as [Hne Hc].
  cbn [foldl]. rewrite IH by done. by apply step_tile_ne.
Qed.

(** Whether a tile is cleared depends on the positions of the roster and
    on the tile. *)
Lemma clears_ext (g g' : Game.t) (c : Z * Z) :
  positions (Game.enemies (Game.playing g))
  = positions (Game.enemies (Game.playing g')) ->
  Game.getTileAt c.1 c.2 g = Game.getTileAt c.1 c.2 g' ->
  clears g c = clears g' c.
Proof.
  intros Hpos Ht. unfold clears.
  by rewrite (scanEnemies_positions _ _ _ _ Hpos), Ht.
Qed.

Lemma step_clears_ne (st : Game.t * Z) (a c : Z * Z) :
  c <> a -> clears (rangeStep st a).1 c = clears st.1 c.
Proof.
  intros Hne. apply clears_ext; [apply step_positions|by apply step_tile_ne].
Qed.

(** A visited tile ends up merged with the pathway data when it is
    cleared, and as it was otherwise. *)
Lemma fold_tile (l : list (Z * Z)) (st : Game.t * Z) (c : Z * Z) :
  NoDup l -> c ∈ l ->
  Game.getTileAt c.1 c.2 (foldl rangeStep st l).1
  = if clears st.1 c
    then (fun t => Grid.merge t (Grid.mkTileData (Some "."%char) (Some Grid.pathway)))
           <$> Game.getTileAt c.1 c.2 st.1
    else Game.getTileAt c.1 c.2 st.1.
Proof.
  revert st. induction l as [|a l IH]; intros st Hnd Hc.
  { by apply elem_of_nil in Hc. }
  apply NoDup_cons in Hnd as [Ha Hnd]. cbn [foldl].
  apply elem_of_cons in Hc as [->|Hc].
  - rewrite fold_tile_untouched by done.
    destruct (clears st.1 a) eqn:Hclears.
    + unfold clears in Hclears.
      destruct (Game.scanEnemies _ _ _) eqn:Hscan; [done|].
      destruct (Game.getTileAt a.1 a.2 st.1) as [t|] eqn:Ht; [|done].
      apply step_tile_clear; [|done]. unfold clears. by rewrite Hscan, Ht.
    + by apply step_tile_keep.
  - assert (c <> a) as Hne by (intros ->; done).
    rewrite IH by done. by rewrite step_clears_ne, step_tile_ne.
Qed.

(** The score gained is five per cleared tile. *)
Lemma fold_score (l : list (Z * Z)) (st : Game.t * Z) :
  NoDup l ->
  (foldl rangeStep st l).2
  = st.2 + 5 * Z.of_nat (length (List.filter (clears st.1) l)).
Proof.
  revert st. induction l as [|a l IH]; intros st Hnd; [cbn; lia|].
  apply NoDup_cons in Hnd as [Ha Hnd]. cbn [foldl List.filter].
  rewrite IH, step_score by done.
  rewrite (List.filter_ext_in (clears (rangeStep st a).1) (clears st.1)).
  - destruct (clears st.1 a); cbn [length]; lia.
  - intros c Hc. apply step_clears_ne. intros ->. apply Ha.
    by apply list_elem_of_In.
Qed.

(** An enemy is untouched by the visits that do not stop at it. *)
Lemma fold_enemy_untouched (l : list (Z * Z)) (st : Game.t * Z) (j : nat) :
  (forall c, c ∈ l ->
     Game.scanEnemies c.1 c.2 (Game.enemies (Game.playing st.1)) <> Some j) ->
  Game.enemies (Game.playing (foldl rangeStep st l).1) !! j
  = Game.enemies (Game.playing st.1) !! j.
Proof.
  revert st. induction l as [|a l IH]; intros st Hscan; [done|].
  cbn [foldl]. rewrite IH.
  - apply step_enemies_other. apply Hscan. by left.
  - intros c Hc.
    rewrite (scanEnemies_positions _ _ _ _ (step_positions st a)).
    apply Hscan. by right.
Qed.

(** An enemy stands on one coordinate only. *)
Lemma occupies_inj (e : Enemy.t) (c c' : Z * Z) :
  Game.occupies c.1 c.2 e = true -> Game.occupies c'.1 c'.2 e = true -> c = c'.
Proof.
  unfold Game.occupies. rewrite !andb_true_iff, !Z.eqb_eq.
  destruct c, c'. cbn. intros [-> ->] [-> ->]. done.
Qed.

(** The enemy the scan stops at on a visited tile is damaged once. *)
Lemma fold_enemy_hit (l : list (Z * Z)) (st : Game.t * Z) (c : Z * Z) (i : nat) :
  NoDup l -> c ∈ l ->
  bounds st.1 c.1 c.2 = true ->
  Game.scanEnemies c.1 c.2 (Game.enemies (Game.playing st.1)) = Some i ->
  Game.enemies (Game.playing (foldl rangeStep st l).1) !! i
  = Enemy.takeDamage 5 <$> Game.enemies (Game.playing st.1) !! i.
Proof.
  intros Hnd Hc Hb Hscan.
  assert (forall (st' : Game.t * Z) (c' : Z * Z),
            positions (Game.enemies (Game.playing st'.1))
            = positions (Game.enemies (Game.playing st.1)) ->
            c' <> c ->
            Game.scanEnemies c'.1 c'.2 (Game.enemies (Game.playing st'.1))
            <> Some i) as Hother.
  { intros st' c' Hpos Hne Hscan'.
    rewrite (scanEnemies_positions _ _ _ _ Hpos) in Hscan'.
    destruct (scanEnemies_Some _ _ _ _ Hscan) as [(e & He & Hoc) _].
    destruct (scanEnemies_Some _ _ _ _ Hscan') as [(e' & He' & Hoc') _].
    rewrite He in He'. injection He' as <-. by destruct (occupies_inj e c c'). }
  revert st Hb Hscan Hother.
  induction l as [|a l IH]; intros st Hb Hscan Hother.
  { by apply elem_of_nil in Hc. }
  apply NoDup_cons in Hnd as [Ha Hnd]. cbn [foldl].
  apply elem_of_cons in Hc as [->|Hc].
  - rewrite fold_enemy_untouched.
    + unfold bounds in Hb.
      destruct (Game.currentLevel (Game.playing st.1)) as [lvl|] eqn:Hl; [|done].
      rewrite (step_enemies_hit st a lvl i) by done.
      apply list_lookup_alter_eq.
    + intros c' Hc'. apply Hother; [apply step_positions|].
      intros ->. done.
  - assert (c <> a) as Hne by (intros ->; done).
    rewrite IH; try done.
    + f_equal. apply step_enemies_other. apply Hother; [done|]. congruence.
    + by rewrite step_bounds.
    + by rewrite (scanEnemies_positions _ _ _ _ (step_positions st a)).
    + intros st' c' Hpos Hne'. apply Hother; [|done].
      by rewrite Hpos, step_positions.
Qed.

(** ** Range application: [handleRangeAction] *)

(** With a level loaded, [handleRangeAction] runs the loops over the
    coordinates of the range and then credits the score gained. *)
Lemma handleRangeAction_loops (r : Player.Range) (cost : Z)
    (actionType : Player.ActionType) (g : Game.t) :
  is_Some (Game.currentLevel (Game.playing g)) ->
  exists g1 gained,
    foldl rangeStep (g, 0) (rangeCoords r) = (g1, gained)
    /\ Game.handleRangeAction r cost actionType g
       = if 0 <? gained
         then Game.emit
                (Game.ui_showMessage
                   ("Cleared " ++ pretty (gained / 5) ++ " nodes!") 1000)
                (Game.set_player (Player.addScore gained (Game.player g1)) g1)
         else g1.
Proof.
  intros [lvl Hl]. unfold Game.handleRangeAction. rewrite Hl.
  change (Z.min (Player.startX r) (Player.endX r)) with (minX r).
  change (Z.max (Player.startX r) (Player.endX r)) with (maxX r).
  change (Z.min (Player.startY r) (Player.endY r)) with (minY r).
  change (Z.max (Player.startY r) (Player.endY r)) with (maxY r).
  rewrite loops_rangeCoords.
  destruct (foldl rangeStep (g, 0) (rangeCoords r)) as [g1 gained]. eauto.
Qed.

(** C2.  For a tile of the grid inside the range of an applied range
    action on which no enemy stands: a corrupted tile becomes a pathway
    tile (glyph [.], type [pathway]); a barrier tile, like any tile that
    is not corrupted, is exactly as before; and the player's score grows
    by 5 for each tile the action clears. *)
Theorem delete_clears_corrupted_keeps_barrier (g : Game.t) (r : Player.Range)
    (cost : Z) (actionType : Player.ActionType) (x y : Z) (tile : Grid.Tile) :
  inRange r x y ->
  Game.getTileAt x y g = Some tile ->
  unoccupied x y (Game.enemies (Game.playing g)) ->
  (Grid.type tile = Grid.corrupted ->
     exists tile',
       Game.getTileAt x y (Game.handleRangeAction r cost actionType g) = Some tile'
       /\ Grid.type tile' = Grid.pathway
       /\ tile' = Grid.merge tile
                    (Grid.mkTileData (Some "."%char) (Some Grid.pathway)))
  /\ (Grid.type tile = Grid.barrier ->
      Game.getTileAt x y (Game.handleRangeAction r cost actionType g) = Some tile)
  /\ (Grid.type tile <> Grid.corrupted ->
      Game.getTileAt x y (Game.handleRangeAction r cost actionType g) = Some tile)
  /\ Player.score (Game.player (Game.handleRangeAction r cost actionType g))
     = Player.score (Game.player g) + 5 * cleared g r.
Proof.
  intros Hin Htile Hfree.
  destruct (getTileAt_Some _ _ _ _ Htile) as (lvl & Hl & _).
  destruct (handleRangeAction_loops r cost actionType g) as (g1 & gained & Hfold & ->);
    [by rewrite Hl|].
  pose proof (fold_tile (rangeCoords r) (g, 0) (x, y) (NoDup_rangeCoords r)) as Ht.
  pose proof (fold_score (rangeCoords r) (g, 0) (NoDup_rangeCoords r)) as Hs.
  pose proof (fold_player (rangeCoords r) (g, 0)) as Hp.
  rewrite Hfold in Ht, Hs, Hp. cbn [fst snd] in Ht, Hs, Hp.
  specialize (Ht (proj2 (elem_of_rangeCoords r x y) Hin)).
  rewrite Htile in Ht. unfold clears in Ht. cbn [fst snd] in Ht.
  rewrite (scanEnemies_unoccupied _ _ _ Hfree), Htile in Ht.
  assert (forall g2 : Game.t,
            (if 0 <? gained
             then Game.emit
                    (Game.ui_showMessage
                       ("Cleared " ++ pretty (gained / 5) ++ " nodes!") 1000)
                    (Game.set_player (Player.addScore gained (Game.player g1)) g1)
             else g1) = g2 ->
            Game.getTileAt x y g2 = Game.getTileAt x y g1) as Hsame.
  { intros g2 <-. by destruct (0 <? gained). }
  rewrite (Hsame _ eq_refl).
  split; [|split; [|split]].
  - intros Hc. rewrite bool_decide_eq_true_2 in Ht by done.
    eexists. split; [exact Ht|]. done.
  - intros Hb. rewrite bool_decide_eq_false_2 in Ht by congruence. done.
  - intros Hn. rewrite bool_decide_eq_false_2 in Ht by done. done.
  - fold (cleared g r) in Hs.
    assert (0 <= cleared g r) by (unfold cleared; lia).
    destruct (Z.ltb_spec 0 gained);
      cbn [Game.emit Game.set_player Game.player Player.addScore Player.score];
      rewrite Hp; lia.
Qed.

Lemma delete_clears_corrupted_keeps_barrier_witness :
  (Grid.type (tile "#" Grid.corrupted) = Grid.corrupted ->
     exists tile',
       Game.getTileAt 1 1
         (Game.handleRangeAction (Player.mkRange 4 1 0 1) 60 Player.DELETE_RANGE
            (sample_game [chaser 0 0 1 7])) = Some tile'
       /\ Grid.type tile' = Grid.pathway
       /\ tile' = Grid.merge (tile "#" Grid.corrupted)
                    (Grid.mkTileData (Some "."%char) (Some Grid.pathway)))
  /\ (Grid.type (tile "#" Grid.corrupted) = Grid.barrier ->
      Game.getTileAt 1 1
        (Game.handleRangeAction (Player.mkRange 4 1 0 1) 60 Player.DELETE_RANGE
           (sample_game [chaser 0 0 1 7])) = Some (tile "#" Grid.corrupted))
  /\ (Grid.type (tile "#" Grid.corrupted) <> Grid.corrupted ->
      Game.getTileAt 1 1
        (Game.handleRangeAction (Player.mkRange 4 1 0 1) 60 Player.DELETE_RANGE
           (sample_game [chaser 0 0 1 7])) = Some (tile "#" Grid.corrupted))
  /\ Player.score
       (Game.player
          (Game.handleRangeAction (Player.mkRange 4 1 0 1) 60 Player.DELETE_RANGE
             (sample_game [chaser 0 0 1 7])))
     = Player.score (Game.player (sample_game [chaser 0 0 1 7]))
       + 5 * cleared (sample_game [chaser 0 0 1 7]) (Player.mkRange 4 1 0 1).
Proof.
  apply (delete_clears_corrupted_keeps_barrier
           (sample_game [chaser 0 0 1 7]) (Player.mkRange 4 1 0 1) 60
           Player.DELETE_RANGE 1 1 (tile "#" Grid.corrupted)).
  - vm_compute. repeat split; discriminate.
  - reflexivity.
  - repeat constructor.
Defined.

(** C3, as the code has it.  For a tile of the grid inside the range of
    an applied range action on which an enemy stands, the scan from the
    end of the roster stops at the last enemy standing there: that enemy
    takes 5 points of damage, once; the tile is as before; and any other
    enemy standing on the same tile is as before. *)
Theorem range_damages_last_enemy_on_tile (g : Game.t) (r : Player.Range)
    (cost : Z) (actionType : Player.ActionType) (x y : Z) (i : nat) :
  inRange r x y ->
  bounds g x y = true ->
  Game.scanEnemies x y (Game.enemies (Game.playing g)) = Some i ->
  Game.enemies (Game.playing (Game.handleRangeAction r cost actionType g)) !! i
  = Enemy.takeDamage 5 <$> Game.enemies (Game.playing g) !! i
  /\ Game.getTileAt x y (Game.handleRangeAction r cost actionType g)
     = Game.getTileAt x y g
  /\ (forall j e,
        j <> i ->
        Game.enemies (Game.playing g) !! j = Some e ->
        Game.occupies x y e = true ->
        Game.enemies (Game.playing (Game.handleRangeAction r cost actionType g)) !! j
        = Some e).
Proof.
  intros Hin Hb Hscan.
  assert (is_Some (Game.currentLevel (Game.playing g))) as Hl.
  { unfold bounds in Hb. by destruct (Game.currentLevel (Game.playing g)). }
  destruct (handleRangeAction_loops r cost actionType g Hl)
    as (g1 & gained & Hfold & ->).
  pose proof (proj2 (elem_of_rangeCoords r x y) Hin) as Hc.
  pose proof (fold_tile (rangeCoords r) (g, 0) (x, y) (NoDup_rangeCoords r) Hc) as Ht.
  pose proof (fold_enemy_hit (rangeCoords r) (g, 0) (x, y) i
                (NoDup_rangeCoords r) Hc Hb Hscan) as Hhit.
  rewrite Hfold in Ht, Hhit. cbn [fst snd] in Ht, Hhit.
  unfold clears in Ht. cbn [fst snd] in Ht. rewrite Hscan in Ht.
  assert (forall g2 : Game.t,
            (if 0 <? gained
             then Game.emit
                    (Game.ui_showMessage
                       ("Cleared " ++ pretty (gained / 5) ++ " nodes!") 1000)
                    (Game.set_player (Player.addScore gained (Game.player g1)) g1)
             else g1) = g2 ->
            Game.getTileAt x y g2 = Game.getTileAt x y g1
            /\ Game.enemies (Game.playing g2) = Game.enemies (Game.playing g1))
    as Hsame.
  { intros g2 <-. by destruct (0 <? gained). }
  destruct (Hsame _ eq_refl) as [-> ->].
  split; [done|]. split; [done|].
  intros j e Hj He Hoc.
  pose proof (fold_enemy_untouched (rangeCoords r) (g, 0) j) as Hkeep.
  rewrite Hfold in Hkeep. cbn [fst] in Hkeep. rewrite Hkeep; [done|].
  intros c _ Hscan'.
  destruct (scanEnemies_Some _ _ _ _ Hscan') as [(e' & He' & Hoc') _].
  rewrite He in He'. injection He' as <-.
  destruct (occupies_inj e (x, y) c Hoc Hoc').
  cbn [fst snd] in Hscan'. congruence.
Qed.

Lemma range_damages_last_enemy_on_tile_witness :
  Game.enemies
    (Game.playing
       (Game.handleRangeAction (Player.mkRange 0 1 4 1) 60 Player.DELETE_RANGE
          (sample_game [chaser 0 1 1 7; chaser 1 1 1 7]))) !! 1%nat
  = Enemy.takeDamage 5
      <$> Game.enemies (Game.playing (sample_game [chaser 0 1 1 7; chaser 1 1 1 7]))
          !! 1%nat
  /\ Game.getTileAt 1 1
       (Game.handleRangeAction (Player.mkRange 0 1 4 1) 60 Player.DELETE_RANGE
          (sample_game [chaser 0 1 1 7; chaser 1 1 1 7]))
     = Game.getTileAt 1 1 (sample_game [chaser 0 1 1 7; chaser 1 1 1 7])
  /\ (forall j e,
        j <> 1%nat ->
        Game.enemies (Game.playing (sample_game [chaser 0 1 1 7; chaser 1 1 1 7]))
          !! j = Some e ->
        Game.occupies 1 1 e = true ->
        Game.enemies
          (Game.playing
             (Game.handleRangeAction (Player.mkRange 0 1 4 1) 60
                Player.DELETE_RANGE
                (sample_game [chaser 0 1 1 7; chaser 1 1 1 7]))) !! j
        = Some e).
Proof.
  apply (range_damages_last_enemy_on_tile
           (sample_game [chaser 0 1 1 7; chaser 1 1 1 7])
           (Player.mkRange 0 1 4 1) 60 Player.DELETE_RANGE 1 1 1%nat).
  - vm_compute. repeat split; discriminate.
  - reflexivity.
  - reflexivity.
Defined.

(** C3, the sentence of the specification fails as stated: two chasers stand on the corrupted
    tile (1, 1) inside the range; the action damages the second of the
    roster only, the first keeps its health of 7 although it occupies a
    targeted tile, and the tile is untouched. *)
Lemma range_spares_first_enemy_on_shared_tile :
  Game.occupies 1 1 (chaser 0 1 1 7) = true
  /\ inRange (Player.mkRange 0 1 4 1) 1 1
  /\ Game.enemies
       (Game.playing
          (Game.handleRangeAction (Player.mkRange 0 1 4 1) 60 Player.DELETE_RANGE
             (sample_game [chaser 0 1 1 7; chaser 1 1 1 7])))
     = [chaser 0 1 1 7; chaser 1 1 1 2]
  /\ Game.enemies
       (Game.playing
          (Game.handleRangeAction (Player.mkRange 0 1 4 1) 60 Player.DELETE_RANGE
             (sample_game [chaser 0 1 1 7; chaser 1 1 1 7]))) !! 0%nat
     <> Some (Enemy.takeDamage 5 (chaser 0 1 1 7)).
Proof.
  split; [reflexivity|]. split; [vm_compute; repeat split; discriminate|].
  split; [by vm_compute|]. by vm_compute.
Qed.

(** ** The shape of the prefix is an invariant of key handling *)

Lemma prefixOk_typing (key : string) (h : Input.t) :
  Input.numericPrefix (Input._handleTypingMode key h) = Input.numericPrefix h.
Proof.
  unfold Input._handleTypingMode.
  repeat (case_innermost; try done).
Qed.

Lemma prefixOk_onKeyDown (key : string) (g g' : Game.t) :
  prefixOk (Input.numericPrefix (Game.inputHandler g)) = true ->
  Keys._onKeyDown key g = Game.Ok g' ->
  prefixOk (Input.numericPrefix (Game.inputHandler g')) = true.
Proof.
  intros Hok. unfold Keys._onKeyDown.
  destruct (negb _); [by intros [= <-]|].
  destruct (Input.mode _).
  - unfold Keys._handleNormalMode. destruct (String.eqb key "Escape").
    + destruct (_ !! "pause") as [cb|].
      * destruct (Game.call cb g) as [g1|]; [|done]. by intros [= <-].
      * by intros [= <-].
    + intros [= <-]. by apply prefixOk_normalKey.
  - intros [= <-]. cbn [Game.input Game.set_inputHandler Game.inputHandler].
    by rewrite prefixOk_typing.
Qed.

(** Every numeric prefix the handler can hold after a sequence of keys is
    empty or a number that starts with a digit from 1 to 9. *)
Lemma prefixOk_keys (ks : list string) (g g' : Game.t) :
  prefixOk (Input.numericPrefix (Game.inputHandler g)) = true ->
  Keys.keys ks g = Game.Ok g' ->
  prefixOk (Input.numericPrefix (Game.inputHandler g')) = true.
Proof.
  unfold Keys.keys. revert g g'.
  induction ks as [|k ks IH] using rev_ind; intros g g' Hok.
  - by intros [= <-].
  - rewrite foldl_app. cbn [foldl].
    destruct (foldl _ (Game.Ok g) ks) as [g1|] eqn:Hks; [|done].
    cbn [Game.bind]. apply prefixOk_onKeyDown. by eapply IH.
Qed.

(** ** Scenarios *)

Example parseInt_examples :
  Input.parseInt "12" = Some 12
  /\ Input.parseInt "" = None
  /\ Input.parseInt " -7x" = Some (-7)
  /\ Input.parseInt "x1" = None.
Proof. by vm_compute. Qed.

(** [3dd] queues one line deletion with count 3 and clears the buffers. *)
Example keys_3dd :
  Keys.keys ["3"; "d"; "d"] (Game.new Input.new fresh_player)
  = Game.Ok (Game.new
               (Input.set_commandQueue
                  [Input.OperatorMotion Input.DELETE Input.LINE (Some 3)]
                  Input.new)
               fresh_player).
Proof. by vm_compute. Qed.

(** [d] then [w] queues a word deletion; [r] then [x] a replacement. *)
Example keys_dw_rx :
  Keys.keys ["d"; "w"; "r"; "x"] (Game.new Input.new fresh_player)
  = Game.Ok (Game.new
               (Input.set_commandQueue
                  [Input.OperatorMotion Input.DELETE Input.WORD_FORWARD (Some 1);
                   Input.REPLACE_CHAR_EXECUTE "x"]
                  Input.new)
               fresh_player).
Proof. by vm_compute. Qed.

(** [Escape] with no pause listener registered clears the buffers and
    queues [CLEAR_BUFFER]. *)
Example keys_escape_clears :
  Keys.keys ["2"; "d"; "Escape"] (Game.new Input.new fresh_player)
  = Game.Ok (Game.new (Input.set_commandQueue [Input.CLEAR_BUFFER] Input.new)
                      fresh_player).
Proof. by vm_compute. Qed.

(** Deleting the second row of the sample level, with no enemy on it,
    turns its three corrupted tiles into pathway tiles, keeps the barrier
    and adds 15 to the score. *)
Example delete_row_scenario :
  let g' := Game.handleRangeAction (Player.mkRange 0 1 4 1) 50
              Player.DELETE_RANGE (sample_game []) in
  (Grid.tiles <$> Game.currentLevel (Game.playing g'))
  = Some [ rowOf Grid.data_node "ab cd";
           [ tile "." Grid.pathway; tile "." Grid.pathway; tile "." Grid.pathway;
             tile "|" Grid.barrier; tile "." Grid.pathway ] ]
  /\ Player.score (Game.player g') = 15.
Proof. by vm_compute. Qed.

(** [Escape] in the Playing state runs the pause closure: the Paused
    state is entered, the input handler was deactivated on the way and
    the roster is gone. *)
Example escape_pauses :
  exists g1,
    Keys._onKeyDown "Escape" (sample_game [chaser 0 4 0 2]) = Game.Ok g1
    /\ Game.currentStateName g1 = Some "PAUSED"
    /\ Game.previousStateName g1 = Some "PLAYING"
    /\ Game.enemies (Game.playing g1) = []
    /\ Input.actionListeners (Game.inputHandler g1)
       = {[ "unpause" := Input.PausedUnpause ]}.
Proof. eexists. split; [by vm_compute|]. by vm_compute. Qed.

(** * Further properties of the sources *)

(** ** inputHandler.js: the command queue *)

(** X1.  [getCommands] hands over every command queued since the last
    call, oldest first, and leaves the handler as it was with an empty
    queue; a second call right after returns nothing. *)
Theorem getCommands_drains_in_order (h : Input.t) (cs : list Input.Command) :
  Input.getCommands (foldl (fun h c => Input.queueCommand (Some c) h) h cs)
  = ((Input.commandQueue h ++ cs)%list, Input.set_commandQueue [] h)
  /\ (Input.getCommands
        (Input.getCommands
           (foldl (fun h c => Input.queueCommand (Some c) h) h cs)).2).1 = [].
Proof.
  assert (foldl (fun h c => Input.queueCommand (Some c) h) h cs
          = Input.set_commandQueue (Input.commandQueue h ++ cs) h) as ->.
  { revert h. induction cs as [|c cs IH]; intros h.
    - destruct h. cbn. by rewrite app_nil_r.
    - cbn [foldl]. rewrite IH. destruct h. cbn. by rewrite <- app_assoc. }
  destruct h as [act md buf pre tgt idx q ls].
  unfold Input.getCommands. cbn.
  destruct (q ++ cs)%list eqn:Hq; cbn; [|done].
  apply app_eq_nil in Hq as [-> ->]. done.
Qed.

(** ** inputHandler.js: navigation mode *)

(** Projections of updated records. *)
Ltac simpl_records :=
  unfold Game.input;
  cbn [Game.bind
       Game.inputHandler Game.player Game.playing Game.gameOver
       Game.levelComplete Game.currentState Game.currentStateName
       Game.previousStateName Game.trace
       Game.set_inputHandler Game.set_player Game.set_playing
       Game.set_gameOver Game.set_levelComplete Game.set_current
       Game.set_previousStateName Game.emit Game.set_enemies
       Game.set_currentLevel Game.currentLevel Game.elapsedTime Game.enemies
       Input.active Input.mode Input.commandBuffer Input.numericPrefix
       Input.targetTypingPhrase Input.currentTypingIndex Input.commandQueue
       Input.actionListeners
       Input.set_buffers Input.set_commandBuffer Input.set_numericPrefix
       Input.set_commandQueue Input.set_actionListeners
       Input.set_currentTypingIndex Input.queueCommand].

(** Updated records written out field by field. *)
Ltac unfold_records :=
  unfold Game.input, Game.emit, Game.set_enemies, Game.set_currentLevel,
    Game.set_inputHandler, Game.set_player, Game.set_playing,
    Game.set_gameOver, Game.set_levelComplete, Game.set_current,
    Game.set_previousStateName,
    Input.queueCommand, Input.set_commandBuffer, Input.set_numericPrefix,
    Input.set_buffers, Input.set_commandQueue, Input.set_actionListeners,
    Input.set_currentTypingIndex;
  cbn [Game.inputHandler Game.player Game.playing Game.gameOver
       Game.levelComplete Game.currentState Game.currentStateName
       Game.previousStateName Game.trace
       Game.currentLevel Game.elapsedTime Game.enemies
       Input.active Input.mode Input.commandBuffer Input.numericPrefix
       Input.targetTypingPhrase Input.currentTypingIndex Input.commandQueue
       Input.actionListeners].

Lemma keys_cons (k : string) (ks : list string) (g : Game.t) :
  Keys.keys (k :: ks) g = Game.bind (Keys._onKeyDown k g) (Keys.keys ks).
Proof.
  unfold Keys.keys. cbn [foldl Game.bind].
  destruct (Keys._onKeyDown k g) as [g1|m]; cbn [Game.bind]; [done|].
  induction ks as [|k' ks IH]; [done|]. cbn [foldl Game.bind]. apply IH.
Qed.

Lemma keys_app (ks1 ks2 : list string) (g : Game.t) :
  Keys.keys (ks1 ++ ks2) g = Game.bind (Keys.keys ks1 g) (Keys.keys ks2).
Proof.
  revert g. induction ks1 as [|k ks1 IH]; intros g; [done|].
  rewrite <- app_comm_cons, !keys_cons.
  destruct (Keys._onKeyDown k g) as [g1|m]; cbn [Game.bind]; [apply IH|done].
Qed.

(** A key other than [Escape], pressed while the handler listens in
    navigation mode, goes through [normalKey]. *)
Lemma onKeyDown_normal (key : string) (g : Game.t) :
  Input.active (Game.inputHandler g) = true ->
  Input.mode (Game.inputHandler g) = Input.NORMAL ->
  String.eqb key "Escape" = false ->
  Keys._onKeyDown key g
  = Game.Ok (Game.input
               (Keys.normalKey key
                  (Input.parseInt
                     (if String.eqb (Input.numericPrefix (Game.inputHandler g)) ""
                      then "1"
                      else Input.numericPrefix (Game.inputHandler g)))) g).
Proof.
  intros Ha Hm He. unfold Keys._onKeyDown, Keys._handleNormalMode.
  by rewrite Ha, Hm, He.
Qed.

Lemma charKey_not_Escape (c : ascii) : String.eqb (String c "") "Escape" = false.
Proof. cbn. by destruct (Ascii.eqb c "E"). Qed.

(** A digit key with nothing buffered extends the numeric prefix. *)
Lemma normalKey_digit (c : ascii) (count : option Z) (h : Input.t) :
  Input.commandBuffer h = "" ->
  Input.isDigit c = true ->
  (Input.numericPrefix h = "" -> Input.test_1_9 (String c "") = true) ->
  Keys.normalKey (String c "") count h
  = Input.set_numericPrefix (Input.numericPrefix h ++ String c "") h.
Proof.
  intros Hbuf Hd Hfirst. unfold Keys.normalKey. rewrite Hbuf.
  change (String.eqb "" "") with true. rewrite !andb_true_r.
  destruct (Input.test_1_9 (String c "")) eqn:H19; [done|].
  destruct (String.eqb_spec (Input.numericPrefix h) "") as [E|E].
  { discriminate (Hfirst E). }
  assert (c = "0"%char) as ->.
  { destruct c as [[] [] [] [] [] [] [] []]; try discriminate Hd;
      try discriminate H19; reflexivity. }
  reflexivity.
Qed.

Lemma append_cons (d : ascii) (s t : string) :
  String d s ++ t = String d (s ++ t).
Proof. reflexivity. Qed.

Lemma append_char_assoc (pre : string) (c : ascii) (r : string) :
  (pre ++ String c "") ++ r = pre ++ String c r.
Proof.
  induction pre as [|d pre IH]; [done|]. by rewrite !append_cons, IH.
Qed.

Lemma append_empty_r (s : string) : s ++ "" = s.
Proof. induction s as [|d s IH]; [done|]. by rewrite append_cons, IH. Qed.

Lemma prefixOk_split (pre : string) (c : ascii) (r : string) :
  prefixOk (pre ++ String c r) = true ->
  allDigits (String c r) = true ->
  Input.isDigit c = true
  /\ (pre = "" -> Input.test_1_9 (String c "") = true)
  /\ prefixOk ((pre ++ String c "") ++ r) = true
  /\ allDigits r = true.
Proof.
  intros Hok Hd. simpl in Hd. apply andb_true_iff in Hd as [Hc Hr].
  split; [done|]. split.
  - intros ->. simpl in Hok. by apply andb_true_iff in Hok as [? _].
  - split; [|done]. by rewrite append_char_assoc.
Qed.

(** Typing a number, digit by digit, stores it as the numeric prefix and
    changes nothing else. *)
Lemma keys_digits (ds : string) (g : Game.t) :
  Input.active (Game.inputHandler g) = true ->
  Input.mode (Game.inputHandler g) = Input.NORMAL ->
  Input.commandBuffer (Game.inputHandler g) = "" ->
  prefixOk (Input.numericPrefix (Game.inputHandler g) ++ ds) = true ->
  allDigits ds = true ->
  Keys.keys (charKeys ds) g
  = Game.Ok (Game.input
               (Input.set_numericPrefix
                  (Input.numericPrefix (Game.inputHandler g) ++ ds)) g).
Proof.
  revert g. induction ds as [|c r IH]; intros g Ha Hm Hb Hok Hd.
  - cbn [charKeys]. unfold Keys.keys. cbn [foldl]. f_equal.
    destruct g as [h pl ps go lc cs csn psn tr].
    destruct h as [act md buf pre tgt idx q ls]. cbn.
    by rewrite append_empty_r.
  - destruct (prefixOk_split _ c r Hok Hd) as (Hc & Hfirst & Hok' & Hr).
    cbn [charKeys]. rewrite keys_cons.
    rewrite onKeyDown_normal by auto using charKey_not_Escape.
    cbn [Game.bind]. unfold Game.input at 1. rewrite normalKey_digit by done.
    destruct g as [h pl ps go lc cs csn psn tr].
    destruct h as [act md buf pre tgt idx q ls].
    cbn [Game.inputHandler Game.set_inputHandler Input.numericPrefix
         Input.set_numericPrefix Input.set_buffers Input.commandBuffer
         Input.active Input.mode Input.targetTypingPhrase
         Input.currentTypingIndex Input.commandQueue Input.actionListeners]
      in *.
    rewrite IH; cbn [Game.inputHandler Input.numericPrefix Input.active
                     Input.mode Input.commandBuffer]; try done.
    unfold Game.input.
    cbn [Game.inputHandler Game.set_inputHandler
         Input.numericPrefix Input.set_numericPrefix Input.set_buffers
         Input.commandBuffer Input.active Input.mode
         Input.targetTypingPhrase Input.currentTypingIndex
         Input.commandQueue Input.actionListeners].
    by rewrite append_char_assoc.
Qed.

Lemma prefixOk_allDigits (ds : string) : prefixOk ds = true -> allDigits ds = true.
Proof.
  destruct ds as [|c r]; [done|]. simpl. intros H.
  apply andb_true_iff in H as [Hc Hr]. rewrite Hr, andb_true_r.
  by apply test_1_9_digit.
Qed.

(** The keys under which [motionMap[key]] finds something: its nine own
    keys and the names inherited from [Object.prototype]. *)
Lemma motionMap_Some (k : string) (m : Input.Motion) :
  Input.motionMap k = Some m ->
  In (k, m)
     ([ ("h", Input.LEFT); ("j", Input.DOWN); ("k", Input.UP); ("l", Input.RIGHT);
        ("w", Input.WORD_FORWARD); ("b", Input.WORD_BACKWARD);
        ("e", Input.WORD_END); ("$", Input.LINE_END);
        ("^", Input.LINE_FIRST_CHAR) ]
      ++ map (fun name => (name, Input.INHERITED name)) inheritedNames).
Proof.
  unfold Input.motionMap, inherited, inheritedNames. cbn [existsb map app].
  repeat match goal with
         | |- context [String.eqb k ?s] =>
             destruct (String.eqb_spec k s) as [->|?];
             [intros [= <-]; cbn; repeat ((left; reflexivity) || right)|]
         end.
  done.
Qed.

(** A motion key always completes a command, whatever is buffered. *)
Lemma normalKey_motion (k : string) (m : Input.Motion) (count : option Z)
    (h : Input.t) :
  Input.motionMap k = Some m ->
  Keys.normalKey k count h
  = Input.set_buffers "" ""
      (Input.queueCommand (Some (motionCommand (Input.commandBuffer h) m count)) h).
Proof.
  intros Hk. apply motionMap_Some in Hk. cbn in Hk.
  destruct h as [act md buf pre tgt idx q ls].
  unfold Keys.normalKey, motionCommand.
  repeat (destruct Hk as [[= <- <-]|Hk]; [reflexivity|]).
  done.
Qed.

Lemma motionKey_not_Escape (k : string) (m : Input.Motion) :
  Input.motionMap k = Some m -> String.eqb k "Escape" = false.
Proof.
  intros Hk. apply motionMap_Some in Hk. cbn in Hk.
  repeat (destruct Hk as [[= <- <-]|Hk]; [reflexivity|]). done.
Qed.

(** X2.  A count typed before a motion key is the count of the move: from
    a handler that listens in navigation mode with nothing buffered, the
    digits of a number of at most 2^53, which [parseInt] returns as it
    is (no leading zero; possibly no digit at all), followed by a motion
    key queue exactly one [MOVE] in that direction whose count is the
    number (1 when no digit was typed), and leave the buffers empty
    again. *)
Theorem count_then_motion_moves (g : Game.t) (ds k : string) (m : Input.Motion) :
  idleNormal (Game.inputHandler g) ->
  prefixOk ds = true ->
  countSpec ds <= 2 ^ 53 ->
  Input.motionMap k = Some m ->
  Keys.keys (charKeys ds ++ [k]) g
  = Game.Ok (Game.input
               (fun h => Input.set_commandQueue
                           (Input.commandQueue h ++
                              [Input.MOVE m (Some (countSpec ds))]) h) g).
Proof.
  intros (Ha & Hm & Hb & Hp) Hok _ Hk.
  rewrite keys_app, keys_digits; rewrite ?Hp; auto using prefixOk_allDigits.
  cbn [Game.bind]. rewrite keys_cons.
  pose proof (count_is_countSpec ds Hok) as Hcount.
  destruct g as [h pl ps go lc cs csn psn tr].
  destruct h as [act md buf pre tgt idx q ls].
  cbn in Ha, Hm, Hb, Hp. subst act md buf pre.
  rewrite onKeyDown_normal; [|done|done|by eapply motionKey_not_Escape].
  unfold Game.input.
  cbn [Game.inputHandler Game.set_inputHandler Input.numericPrefix
       Input.set_numericPrefix Input.set_buffers Input.commandBuffer
       Input.active Input.mode Input.targetTypingPhrase
       Input.currentTypingIndex Input.commandQueue Input.actionListeners].
  change ("" ++ ds) with ds.
  rewrite Hcount, (normalKey_motion k m) by done.
  reflexivity.
Qed.

Lemma count_then_motion_moves_witness :
  Keys.keys (charKeys "12" ++ ["j"]) (Game.new Input.new fresh_player)
  = Game.Ok (Game.input
               (fun h => Input.set_commandQueue
                           (Input.commandQueue h ++
                              [Input.MOVE Input.DOWN (Some (countSpec "12"))]) h)
               (Game.new Input.new fresh_player)).
Proof.
  apply (count_then_motion_moves (Game.new Input.new fresh_player) "12" "j"
           Input.DOWN).
  - repeat split; reflexivity.
  - reflexivity.
  - vm_compute. discriminate.
  - reflexivity.
Defined.

(** The keys of [typeMap]. *)
Lemma typeMap_Some (k : string) (op : Input.Operator) :
  Input.typeMap k = Some op ->
  In (k, op) [ ("d", Input.DELETE); ("c", Input.CHANGE); ("y", Input.YANK) ].
Proof.
  unfold Input.typeMap.
  repeat match goal with
         | |- context [String.eqb k ?s] =>
             destruct (String.eqb_spec k s) as [->|?];
             [intros [= <-]; cbn; repeat ((left; reflexivity) || right)|]
         end.
  done.
Qed.

(** An operator key with an empty command buffer becomes the pending
    operator; the numeric prefix stays. *)
Lemma normalKey_operator (k : string) (op : Input.Operator) (count : option Z)
    (h : Input.t) :
  Input.typeMap k = Some op ->
  Input.commandBuffer h = "" ->
  Keys.normalKey k count h = Input.set_commandBuffer k h.
Proof.
  intros Hk Hb. apply typeMap_Some in Hk. cbn in Hk.
  destruct h as [act md buf pre tgt idx q ls]. cbn in Hb. subst buf.
  unfold Keys.normalKey.
  repeat (destruct Hk as [[= <- <-]|Hk]; [reflexivity|]). done.
Qed.

(** X3.  A count typed before an operator applies to the operator's
    motion: from a handler that listens in navigation mode with nothing
    buffered, the digits of a number of at most 2^53, which [parseInt]
    returns as it is (no leading zero; possibly none), an operator key
    and a motion key queue exactly one operator command with that
    operator, that motion and the number as count (1 when no digit was
    typed), and leave the buffers empty again. *)
Theorem count_operator_motion (g : Game.t) (ds o k : string)
    (op : Input.Operator) (m : Input.Motion) :
  idleNormal (Game.inputHandler g) ->
  prefixOk ds = true ->
  countSpec ds <= 2 ^ 53 ->
  Input.typeMap o = Some op ->
  Input.motionMap k = Some m ->
  Keys.keys (charKeys ds ++ [o; k]) g
  = Game.Ok (Game.input
               (fun h => Input.set_commandQueue
                           (Input.commandQueue h ++
                              [Input.OperatorMotion op m (Some (countSpec ds))]) h)
               g).
Proof.
  intros (Ha & Hm & Hb & Hp) Hok _ Ho Hk.
  rewrite keys_app, keys_digits; rewrite ?Hp; auto using prefixOk_allDigits.
  pose proof (count_is_countSpec ds Hok) as Hcount.
  destruct g as [h pl ps go lc cs csn psn tr].
  destruct h as [act md buf pre tgt idx q ls].
  cbn in Ha, Hm, Hb, Hp. subst act md buf pre.
  assert (String.eqb o "Escape" = false) as HoE.
  { apply typeMap_Some in Ho. cbn in Ho.
    repeat (destruct Ho as [[= <- <-]|Ho]; [reflexivity|]). done. }
  simpl_records. change ("" ++ ds) with ds.
  rewrite keys_cons, onKeyDown_normal; [|done|done|done].
  simpl_records. rewrite (normalKey_operator o op) by done.
  simpl_records.
  rewrite keys_cons, onKeyDown_normal;
    [|done|done|by eapply motionKey_not_Escape].
  simpl_records. rewrite Hcount, (normalKey_motion k m) by done.
  simpl_records. unfold Keys.keys. cbn [foldl]. f_equal.
  apply typeMap_Some in Ho. cbn in Ho.
  repeat (destruct Ho as [[= <- <-]|Ho]; [reflexivity|]). done.
Qed.

Lemma count_operator_motion_witness :
  Keys.keys (charKeys "3" ++ ["d"; "w"]) (Game.new Input.new fresh_player)
  = Game.Ok (Game.input
               (fun h => Input.set_commandQueue
                           (Input.commandQueue h ++
                              [Input.OperatorMotion Input.DELETE Input.WORD_FORWARD
                                 (Some (countSpec "3"))]) h)
               (Game.new Input.new fresh_player)).
Proof.
  apply (count_operator_motion (Game.new Input.new fresh_player) "3" "d" "w"
           Input.DELETE Input.WORD_FORWARD).
  - repeat split; reflexivity.
  - reflexivity.
  - vm_compute. discriminate.
  - reflexivity.
  - reflexivity.
Defined.

(** With an operator pending, a key that is no motion key and not the
    same operator again changes nothing in the handler. *)
Lemma normalKey_pending_ignored (key pending : string) (count : option Z)
    (h : Input.t) :
  In pending ["d"; "c"; "y"] ->
  Input.commandBuffer h = pending ->
  Input.motionMap key = None ->
  key <> pending ->
  Keys.normalKey key count h = h.
Proof.
  intros Hp Hb Hm Hne.
  destruct h as [act md buf pre tgt idx q ls]. cbn in Hb. subst buf.
  unfold Keys.normalKey. rewrite Hm.
  cbn [Input.commandBuffer Input.numericPrefix Input.set_commandBuffer
       Input.set_buffers].
  assert (String.eqb pending key = false) as Hpk
    by (apply String.eqb_neq; congruence).
  rewrite Hpk.
  cbn in Hp. destruct Hp as [<-|[<-|[<-|[]]]];
    cbn [String.eqb Ascii.eqb Bool.eqb andb];
    rewrite ?andb_false_r; cbn [andb];
    destruct (Input.simpleCommandMap key) as [[]|]; reflexivity.
Qed.

(** X4.  While an operator is pending, every key that is not [Escape],
    not the same operator again, and not a key under which [motionMap]
    finds anything (one of its nine keys, or a name inherited from
    [Object.prototype]) is ignored: the game is returned exactly as it
    was, so the operator stays pending, the numeric prefix is kept, and
    nothing is queued.  In particular a count typed after the operator
    ([d3w]) is lost. *)
Theorem pending_operator_ignores_other_keys (g : Game.t) (pending key : string) :
  In pending ["d"; "c"; "y"] ->
  Input.commandBuffer (Game.inputHandler g) = pending ->
  key <> "Escape" ->
  Input.motionMap key = None ->
  key <> pending ->
  Keys._handleNormalMode key g = Game.Ok g.
Proof.
  intros Hp Hb He Hm Hne. unfold Keys._handleNormalMode.
  apply String.eqb_neq in He. rewrite He. unfold Game.input.
  rewrite (normalKey_pending_ignored key pending) by done.
  by destruct g.
Qed.

Lemma pending_operator_ignores_other_keys_witness :
  Keys._handleNormalMode "3"
    (Game.new (Input.set_commandBuffer "d" Input.new) fresh_player)
  = Game.Ok (Game.new (Input.set_commandBuffer "d" Input.new) fresh_player).
Proof.
  apply (pending_operator_ignores_other_keys
           (Game.new (Input.set_commandBuffer "d" Input.new) fresh_player)
           "d" "3").
  - simpl. left. reflexivity.
  - reflexivity.
  - discriminate.
  - reflexivity.
  - discriminate.
Defined.

(** With [r] armed, a single-character key that is no motion key is the
    replacement character. *)
Lemma normalKey_replace (c : ascii) (count : option Z) (h : Input.t) :
  Input.commandBuffer h = "r" ->
  Input.motionMap (String c "") = None ->
  Keys.normalKey (String c "") count h
  = Input.set_buffers "" ""
      (Input.queueCommand (Some (Input.REPLACE_CHAR_EXECUTE (String c ""))) h).
Proof.
  intros Hb Hm.
  destruct h as [act md buf pre tgt idx q ls]. cbn in Hb. subst buf.
  unfold Keys.normalKey. rewrite Hm. simpl_records.
  change (String.eqb "r" "") with false. rewrite !andb_false_r. cbn [andb].
  assert (Input.includes ["d"; "c"; "y"] (String c "")
          && String.eqb "r" (String c "") = false) as ->.
  { destruct (String.eqb_spec "r" (String c "")) as [<-|?];
      [reflexivity|apply andb_false_r]. }
  destruct (Input.simpleCommandMap (String c "")) as [[]|]; reflexivity.
Qed.

(** X5.  After [r], the next single-character key is the replacement
    character unless it is a motion key: from a handler that listens in
    navigation mode with nothing buffered, [r] followed by a one-character
    key queues one [REPLACE_CHAR_EXECUTE] with that character, except for
    the keys of [motionMap] ([h j k l w b e $ ^]), for which it queues a
    [MOVE] of count 1 instead; either way the buffers end up empty. *)
Theorem replace_then_key (g : Game.t) (c : ascii) :
  idleNormal (Game.inputHandler g) ->
  Keys.keys ["r"; String c ""] g
  = Game.Ok (Game.input
               (fun h => Input.set_commandQueue
                           (Input.commandQueue h ++
                              [match Input.motionMap (String c "") with
                               | Some m => Input.MOVE m (Some 1)
                               | None => Input.REPLACE_CHAR_EXECUTE (String c "")
                               end]) h) g).
Proof.
  intros (Ha & Hm & Hb & Hp).
  destruct g as [h pl ps go lc cs csn psn tr].
  destruct h as [act md buf pre tgt idx q ls].
  cbn in Ha, Hm, Hb, Hp. subst act md buf pre.
  rewrite keys_cons, onKeyDown_normal; [|done|done|done].
  simpl_records.
  change (Keys.normalKey "r" _ _)
    with (Input.mk true Input.NORMAL "r" "" tgt idx q ls).
  rewrite keys_cons, onKeyDown_normal; [|done|done|apply charKey_not_Escape].
  simpl_records. change (Input.parseInt _) with (Some 1).
  destruct (Input.motionMap (String c "")) as [m|] eqn:Hk.
  - by rewrite (normalKey_motion _ m).
  - by rewrite normalKey_replace.
Qed.

Lemma replace_then_key_witness :
  Keys.keys ["r"; String "h" ""] (Game.new Input.new fresh_player)
  = Game.Ok (Game.input
               (fun h => Input.set_commandQueue
                           (Input.commandQueue h ++
                              [match Input.motionMap (String "h" "") with
                               | Some m => Input.MOVE m (Some 1)
                               | None => Input.REPLACE_CHAR_EXECUTE (String "h" "")
                               end]) h)
               (Game.new Input.new fresh_player)).
Proof.
  apply (replace_then_key (Game.new Input.new fresh_player) "h").
  repeat split; reflexivity.
Defined.

(** X6.  The key [0] with an empty command buffer is the line-start
    motion when no count is being typed, and a digit of the count
    otherwise: with an empty numeric prefix it queues [MOVE_TO LINE_START]
    with count 1; with a prefix it appends [0] to it and queues nothing. *)
Theorem zero_is_motion_or_digit (g : Game.t) :
  Input.active (Game.inputHandler g) = true ->
  Input.mode (Game.inputHandler g) = Input.NORMAL ->
  Input.commandBuffer (Game.inputHandler g) = "" ->
  Keys._onKeyDown "0" g
  = Game.Ok (Game.input
               (fun h =>
                  if String.eqb (Input.numericPrefix h) ""
                  then Input.set_commandQueue
                         (Input.commandQueue h ++
                            [Input.MOVE_TO Input.LINE_START (Some 1)]) h
                  else Input.set_numericPrefix (Input.numericPrefix h ++ "0") h)
               g).
Proof.
  intros Ha Hm Hb.
  destruct g as [h pl ps go lc cs csn psn tr].
  destruct h as [act md buf pre tgt idx q ls].
  cbn in Ha, Hm, Hb. subst act md buf.
  rewrite onKeyDown_normal; [|done|done|done].
  simpl_records. by destruct pre as [|c r].
Qed.

Lemma zero_is_motion_or_digit_witness :
  Keys._onKeyDown "0"
    (Game.new (Input.set_numericPrefix "1" Input.new) fresh_player)
  = Game.Ok (Game.input
               (fun h =>
                  if String.eqb (Input.numericPrefix h) ""
                  then Input.set_commandQueue
                         (Input.commandQueue h ++
                            [Input.MOVE_TO Input.LINE_START (Some 1)]) h
                  else Input.set_numericPrefix (Input.numericPrefix h ++ "0") h)
               (Game.new (Input.set_numericPrefix "1" Input.new) fresh_player)).
Proof.
  apply (zero_is_motion_or_digit
           (Game.new (Input.set_numericPrefix "1" Input.new) fresh_player));
    reflexivity.
Defined.

(** ** inputHandler.js: text-entry mode *)

Lemma length_append_char (s : string) (c : ascii) :
  String.length (s ++ String c "") = S (String.length s).
Proof. induction s as [|d s IH]; [done|]. rewrite append_cons. cbn. by rewrite IH. Qed.

Lemma length_append (s t : string) :
  String.length (s ++ t) = (String.length s + String.length t)%nat.
Proof. induction s as [|d s IH]; [done|]. rewrite append_cons. cbn. by rewrite IH. Qed.

(** [phrase[i]] is the character that follows a prefix of length [i]. *)
Lemma substring_after_prefix (pre : string) (c : ascii) (r : string) :
  substring (String.length pre) 1 (pre ++ String c r) = String c "".
Proof.
  induction pre as [|d pre IH].
  - cbn. by destruct r.
  - rewrite append_cons. cbn. exact IH.
Qed.

Lemma charKey_not_Backspace (c : ascii) :
  String.eqb (String c "") "Backspace" = false.
Proof. cbn. by destruct (Ascii.eqb c "B"). Qed.

(** The expected character advances the index and reports a correct
    key, with the completion signal after the last character. *)
Lemma typing_correct_key (pre : string) (c : ascii) (r : string) (h : Input.t) :
  Input.targetTypingPhrase h = pre ++ String c r ->
  Input.currentTypingIndex h = String.length pre ->
  Input._handleTypingMode (String c "") h
  = Input.set_currentTypingIndex (S (String.length pre))
      (Input.set_commandQueue
         (Input.commandQueue h
          ++ Input.TYPE_CORRECT (String c "") (String.length pre)
             :: match r with
                | EmptyString => [Input.PHRASE_COMPLETE]
                | _ => []
                end) h).
Proof.
  intros Ht Hi. destruct h as [act md buf pfx tgt idx q ls].
  cbn in Ht, Hi. subst tgt idx.
  unfold Input._handleTypingMode.
  rewrite charKey_not_Escape, charKey_not_Backspace.
  change (1 <? String.length (String c ""))%nat with false.
  simpl_records.
  assert ((String.length pre <? String.length (pre ++ String c r))%nat = true)
    as ->.
  { apply Nat.ltb_lt. rewrite length_append. cbn. lia. }
  rewrite substring_after_prefix, String.eqb_refl. simpl_records.
  rewrite length_append. cbn [String.length].
  destruct r as [|d r]; cbn [String.length].
  - replace (S (String.length pre) =? String.length pre + 1)%nat with true
      by (symmetry; apply Nat.eqb_eq; lia).
    simpl_records. by rewrite <- app_assoc.
  - replace (S (String.length pre) =? String.length pre + S (S (String.length r)))%nat
      with false by (symmetry; apply Nat.eqb_neq; lia).
    done.
Qed.

Lemma typing_run (rest pre : string) (h : Input.t) :
  rest <> "" ->
  Input.targetTypingPhrase h = pre ++ rest ->
  Input.currentTypingIndex h = String.length pre ->
  foldl (fun h k => Input._handleTypingMode k h) h (charKeys rest)
  = Input.set_currentTypingIndex (String.length (pre ++ rest))
      (Input.set_commandQueue
         (Input.commandQueue h ++ correctFrom (String.length pre) rest
          ++ [Input.PHRASE_COMPLETE]) h).
Proof.
  revert pre h. induction rest as [|c r IH]; intros pre h Hne Ht Hi; [done|].
  cbn [charKeys foldl correctFrom].
  rewrite (typing_correct_key pre c r) by done.
  destruct r as [|d r].
  - cbn [charKeys foldl correctFrom]. rewrite length_append_char.
    by destruct h.
  - rewrite (IH (pre ++ String c "")); try done.
    + rewrite append_char_assoc, length_append_char.
      destruct h. unfold_records. by rewrite <- app_assoc.
    + destruct h. cbn in Ht. unfold_records. by rewrite append_char_assoc.
    + destruct h. unfold_records. by rewrite length_append_char.
Qed.

Lemma keys_typing (ks : list string) (g : Game.t) :
  listeningTyping (Game.inputHandler g) ->
  Keys.keys ks g
  = Game.Ok (Game.input
               (fun h => foldl (fun h k => Input._handleTypingMode k h) h ks) g).
Proof.
  revert g. induction ks as [|k ks IH]; intros g [Ha Hm].
  - unfold Keys.keys. cbn [foldl]. by destruct g.
  - rewrite keys_cons. unfold Keys._onKeyDown. rewrite Ha, Hm.
    cbn [negb Game.bind]. rewrite IH.
    + by destruct g.
    + destruct g as [h pl ps go lc cs csn psn tr]. simpl_records.
      cbn in Ha, Hm. split.
      * rewrite <- Ha. unfold Input._handleTypingMode.
        repeat (case_innermost; try done).
      * rewrite <- Hm. unfold Input._handleTypingMode.
        repeat (case_innermost; try done).
Qed.

(** X7.  Typing the target phrase completes it: in text-entry mode with
    a non-empty target phrase and the index at 0, pressing the characters
    of the phrase in order queues one [TYPE_CORRECT] per character, with
    the indices 0, 1, ... in order, followed by one [PHRASE_COMPLETE], and
    leaves the index at the length of the phrase. *)
Theorem typing_the_phrase_completes_it (g : Game.t) (phrase : string) :
  listeningTyping (Game.inputHandler g) ->
  Input.targetTypingPhrase (Game.inputHandler g) = phrase ->
  Input.currentTypingIndex (Game.inputHandler g) = O ->
  phrase <> "" ->
  Keys.keys (charKeys phrase) g
  = Game.Ok (Game.input
               (fun h =>
                  Input.set_currentTypingIndex (String.length phrase)
                    (Input.set_commandQueue
                       (Input.commandQueue h ++ correctFrom 0 phrase
                        ++ [Input.PHRASE_COMPLETE]) h)) g).
Proof.
  intros Hl Ht Hi Hne. rewrite keys_typing by done. f_equal.
  unfold Game.input. f_equal. by apply (typing_run phrase "").
Qed.

Lemma typing_the_phrase_completes_it_witness :
  Keys.keys (charKeys "GO")
    (Game.new (Input.setMode Input.TYPING "GO" Input.new) fresh_player)
  = Game.Ok (Game.input
               (fun h =>
                  Input.set_currentTypingIndex (String.length "GO")
                    (Input.set_commandQueue
                       (Input.commandQueue h ++ correctFrom 0 "GO"
                        ++ [Input.PHRASE_COMPLETE]) h))
               (Game.new (Input.setMode Input.TYPING "GO" Input.new) fresh_player)).
Proof.
  apply (typing_the_phrase_completes_it
           (Game.new (Input.setMode Input.TYPING "GO" Input.new) fresh_player)
           "GO").
  - split; reflexivity.
  - reflexivity.
  - reflexivity.
  - discriminate.
Defined.

(** X8.  In text-entry mode the index never passes the end of the target
    phrase, and no key changes the phrase, the mode or the buffers of
    navigation mode: whatever key is pressed, an index within the phrase
    stays within it. *)
Theorem typing_index_stays_in_phrase (key : string) (h : Input.t) :
  (Input.currentTypingIndex h <= String.length (Input.targetTypingPhrase h))%nat ->
  (Input.currentTypingIndex (Input._handleTypingMode key h)
   <= String.length (Input.targetTypingPhrase (Input._handleTypingMode key h)))%nat
  /\ Input.targetTypingPhrase (Input._handleTypingMode key h)
     = Input.targetTypingPhrase h
  /\ Input.mode (Input._handleTypingMode key h) = Input.mode h
  /\ Input.commandBuffer (Input._handleTypingMode key h) = Input.commandBuffer h
  /\ Input.numericPrefix (Input._handleTypingMode key h) = Input.numericPrefix h.
Proof.
  intros Hle. destruct h as [act md buf pfx tgt idx q ls]. cbn in Hle.
  unfold Input._handleTypingMode. simpl_records.
  destruct (String.eqb key "Escape"); [done|].
  destruct (String.eqb key "Backspace").
  { destruct idx; simpl_records; repeat split; lia. }
  destruct (1 <? String.length key)%nat; [done|].
  destruct (Nat.ltb_spec idx (String.length tgt)); [|done].
  destruct (String.eqb key (substring idx 1 tgt)); simpl_records; [|done].
  destruct (S idx =? String.length tgt)%nat; simpl_records; repeat split; lia.
Qed.

Lemma typing_index_stays_in_phrase_witness :
  (Input.currentTypingIndex
     (Input._handleTypingMode "O"
        (Input.set_currentTypingIndex 1 (Input.setMode Input.TYPING "GO" Input.new)))
   <= String.length
        (Input.targetTypingPhrase
           (Input._handleTypingMode "O"
              (Input.set_currentTypingIndex 1
                 (Input.setMode Input.TYPING "GO" Input.new)))))%nat
  /\ Input.targetTypingPhrase
       (Input._handleTypingMode "O"
          (Input.set_currentTypingIndex 1 (Input.setMode Input.TYPING "GO" Input.new)))
     = Input.targetTypingPhrase
         (Input.set_currentTypingIndex 1 (Input.setMode Input.TYPING "GO" Input.new))
  /\ Input.mode
       (Input._handleTypingMode "O"
          (Input.set_currentTypingIndex 1 (Input.setMode Input.TYPING "GO" Input.new)))
     = Input.mode
         (Input.set_currentTypingIndex 1 (Input.setMode Input.TYPING "GO" Input.new))
  /\ Input.commandBuffer
       (Input._handleTypingMode "O"
          (Input.set_currentTypingIndex 1 (Input.setMode Input.TYPING "GO" Input.new)))
     = Input.commandBuffer
         (Input.set_currentTypingIndex 1 (Input.setMode Input.TYPING "GO" Input.new))
  /\ Input.numericPrefix
       (Input._handleTypingMode "O"
          (Input.set_currentTypingIndex 1 (Input.setMode Input.TYPING "GO" Input.new)))
     = Input.numericPrefix
         (Input.set_currentTypingIndex 1 (Input.setMode Input.TYPING "GO" Input.new)).
Proof.
  apply (typing_index_stays_in_phrase "O"
           (Input.set_currentTypingIndex 1
              (Input.setMode Input.TYPING "GO" Input.new))).
  simpl. lia.
Defined.

(** X9.  Once the index has reached the end of the target phrase, and in
    particular when the target phrase is empty, every key other than
    [Escape] and [Backspace] is ignored: the handler is returned as it
    was and nothing is queued. *)
Theorem typing_past_the_end_is_ignored (key : string) (h : Input.t) :
  (String.length (Input.targetTypingPhrase h) <= Input.currentTypingIndex h)%nat ->
  key <> "Escape" ->
  key <> "Backspace" ->
  Input._handleTypingMode key h = h.
Proof.
  intros Hle He Hb. unfold Input._handleTypingMode.
  apply String.eqb_neq in He, Hb. rewrite He, Hb.
  destruct (1 <? String.length key)%nat; [done|].
  destruct (Nat.ltb_spec (Input.currentTypingIndex h)
              (String.length (Input.targetTypingPhrase h))); [lia|done].
Qed.

Lemma typing_past_the_end_is_ignored_witness :
  Input._handleTypingMode "x" (Input.setMode Input.TYPING "" Input.new)
  = Input.setMode Input.TYPING "" Input.new.
Proof.
  apply (typing_past_the_end_is_ignored "x"
           (Input.setMode Input.TYPING "" Input.new)).
  - simpl. lia.
  - discriminate.
  - discriminate.
Defined.


(** ** The states that wait: js/core/stateManager.js and the key handler *)

Lemma normalKey_listeners (key : string) (count : option Z) (h : Input.t) :
  Input.actionListeners (Keys.normalKey key count h) = Input.actionListeners h.
Proof.
  unfold Keys.normalKey. destruct h as [act md buf pre tgt idx q ls].
  simpl_records.
  repeat (case_innermost; simpl_records); reflexivity.
Qed.

Lemma typing_listeners (key : string) (h : Input.t) :
  Input.actionListeners (Input._handleTypingMode key h) = Input.actionListeners h.
Proof.
  unfold Input._handleTypingMode. destruct h as [act md buf pre tgt idx q ls].
  simpl_records.
  repeat (case_innermost; simpl_records); reflexivity.
Qed.

(** Without a [pause] listener a key changes the input handler only, and
    not its listeners. *)
Lemma onKeyDown_without_pause (key : string) (g : Game.t) :
  Input.actionListeners (Game.inputHandler g) !! "pause" = None ->
  exists h, Keys._onKeyDown key g = Game.Ok (Game.set_inputHandler h g)
            /\ Input.actionListeners h = Input.actionListeners (Game.inputHandler g).
Proof.
  intros Hp. unfold Keys._onKeyDown.
  destruct (negb _); [exists (Game.inputHandler g); by destruct g|].
  destruct (Input.mode _).
  - unfold Keys._handleNormalMode. rewrite Hp.
    destruct (String.eqb key "Escape"); eexists; (split; [reflexivity|]).
    + reflexivity.
    + apply normalKey_listeners.
  - eexists; split; [reflexivity|]. apply typing_listeners.
Qed.

Lemma never_CONFIRM (cs : list Input.Command) :
  existsb (fun c => String.eqb (Waiting.typeOf c) "CONFIRM") cs = false.
Proof.
  induction cs as [|c cs IH]; [done|]. cbn [existsb]. rewrite IH, orb_false_r.
  destruct c;
    repeat match goal with
           | x : Input.Operator |- _ => destruct x
           | x : Input.Simple |- _ => destruct x
           end; reflexivity.
Qed.

Lemma never_menu_key (cs : list Input.Command) :
  existsb Waiting.isMenuKey cs = false.
Proof.
  induction cs as [|c cs IH]; [done|]. cbn [existsb]. rewrite IH, orb_false_r.
  unfold Waiting.isMenuKey, Waiting.keyOf. apply andb_false_r.
Qed.

Lemma getCommands_listeners (h : Input.t) :
  Input.actionListeners (Input.getCommands h).2 = Input.actionListeners h.
Proof. unfold Input.getCommands. by destruct (Input.commandQueue h). Qed.

(** A frame in a waiting state empties the queue and does nothing else. *)
Lemma update_waiting (s : Game.StateObj) (g : Game.t) :
  waiting s = true ->
  Waiting.update s g
  = Some (Game.Ok (Game.set_inputHandler (Input.getCommands (Game.inputHandler g)).2 g)).
Proof.
  intros Hs. unfold Waiting.update.
  destruct (Input.getCommands _) as [cs h]. cbn [snd].
  rewrite never_CONFIRM, never_menu_key. by destruct s.
Qed.

Lemma listenersOf_waiting_pause (s : Game.StateObj) :
  waiting s = true -> listenersOf (Some s) !! "pause" = None.
Proof. by destruct s. Qed.

(** X10. No sequence of key presses and frames takes the game out of
    the menu, the pause screen, the game-over screen or the
    level-complete screen: the handler never calls the [confirm], [menu]
    or [unpause] listener the state registered and never queues a
    command that their [update] acts on.  The game stays in its state,
    with the same bindings, and nothing is drawn or logged. *)
Theorem waiting_state_is_never_left (es : list Waiting.Event) (s : Game.StateObj)
    (g : Game.t) :
  Game.currentState g = Some s -> waiting s = true -> bindingsConsistent g ->
  exists g', Waiting.run es g = Some (Game.Ok g')
             /\ Game.currentState g' = Some s
             /\ Game.currentStateName g' = Game.currentStateName g
             /\ bindingsConsistent g'
             /\ Game.trace g' = Game.trace g.
Proof.
  intros Hs Hw. revert g Hs.
  induction es as [|e es IH]; intros g Hs Hc; [by exists g|].
  assert (Hp : Input.actionListeners (Game.inputHandler g) !! "pause" = None).
  { rewrite Hc, Hs. by apply listenersOf_waiting_pause. }
  assert (exists h, Waiting.step e g = Some (Game.Ok (Game.set_inputHandler h g))
                    /\ Input.actionListeners h
                       = Input.actionListeners (Game.inputHandler g))
    as (h & Hstep & Hls).
  { destruct e as [key|]; cbn [Waiting.step].
    - destruct (onKeyDown_without_pause key g Hp) as (h & -> & Hls). by exists h.
    - rewrite Hs, update_waiting by done.
      eexists; split; [reflexivity|]. apply getCommands_listeners. }
  cbn [Waiting.run]. rewrite Hstep.
  destruct (IH (Game.set_inputHandler h g)) as (g' & Hrun & ? & ? & ? & ?).
  - by destruct g.
  - unfold bindingsConsistent in *. destruct g. simpl_records.
    cbn [Game.currentState Game.inputHandler] in *. congruence.
  - exists g'. by destruct g.
Qed.

Lemma waiting_state_is_never_left_witness :
  exists g', Waiting.run [Waiting.Key "Enter"; Waiting.Frame; Waiting.Key "m";
                          Waiting.Key "Escape"; Waiting.Frame] menu_game
             = Some (Game.Ok g')
             /\ Game.currentState g' = Some Game.MenuState
             /\ Game.currentStateName g' = Game.currentStateName menu_game
             /\ bindingsConsistent g'
             /\ Game.trace g' = Game.trace menu_game.
Proof.
  apply (waiting_state_is_never_left _ Game.MenuState menu_game).
  - reflexivity.
  - reflexivity.
  - unfold bindingsConsistent. vm_compute. reflexivity.
Defined.


(** [switchTo] on a known name, step by step: the objects the states
    share are untouched when the previous state's name is recorded. *)
Lemma switchTo_steps (stateName : string) (s : Game.StateObj)
    (params : Game.Params) (g : Game.t) :
  Game.statesAt stateName = Some s ->
  exists psn,
    Game.switchTo stateName params g
    = Game.Ok (Game.enter s params
                 (Game.set_current s stateName
                    match Game.currentState g with
                    | Some s0 => Game.exit s0 (Game.set_previousStateName psn g)
                    | None => Game.set_previousStateName psn g
                    end)).
Proof.
  intros Hs. unfold Game.switchTo. rewrite Hs. cbn [Game.bind]. rewrite Hs.
  destruct g as [h p pl go lc cs csn psn tr].
  cbn [Game.currentStateName].
  destruct csn as [csn|]; [destruct (_ && _)|]; eexists; reflexivity.
Qed.

Lemma enter_listeners (s : Game.StateObj) (params : Game.Params) (g : Game.t) :
  Input.actionListeners (Game.inputHandler (Game.enter s params g))
  = entered s (Input.actionListeners (Game.inputHandler g)).
Proof.
  destruct g as [[act md buf pre tgt idx q ls] p pl go lc cs csn psn tr].
  by destruct s, md.
Qed.

Lemma exit_listeners (s : Game.StateObj) (g : Game.t) :
  Input.actionListeners (Game.inputHandler (Game.exit s g))
  = exited s (Input.actionListeners (Game.inputHandler g)).
Proof.
  destruct g as [[act md buf pre tgt idx q ls] p pl go lc cs csn psn tr].
  by destruct s.
Qed.

(** The bindings after a transition to a name under which
    [this.states] finds something. *)
Lemma switchTo_listeners (stateName : string) (s : Game.StateObj)
    (params : Game.Params) (g g' : Game.t) :
  Game.statesAt stateName = Some s ->
  Game.switchTo stateName params g = Game.Ok g' ->
  Game.currentState g' = Some s
  /\ Game.currentStateName g' = Some stateName
  /\ Input.actionListeners (Game.inputHandler g')
     = entered s (match Game.currentState g with
                  | Some s0 => exited s0 (Input.actionListeners (Game.inputHandler g))
                  | None => Input.actionListeners (Game.inputHandler g)
                  end).
Proof.
  intros Hs. destruct (switchTo_steps stateName s params g Hs) as [psn ->].
  intros [= <-].
  match goal with
  | |- context [Game.enter s params ?g1] =>
      destruct (current_enter s params g1) as [-> ->]
  end.
  rewrite enter_listeners. split; [done|split; [done|]]. f_equal.
  destruct g as [h p pl go lc [s0|] csn ? tr]; simpl_records; [|done].
  by rewrite exit_listeners.
Qed.

Lemma states_cases (stateName : string) (s : Game.StateObj) :
  Game.states !! stateName = Some s ->
  (stateName, s) = ("MENU", Game.MenuState)
  \/ (stateName, s) = ("LOADING", Game.LoadingState)
  \/ (stateName, s) = ("PLAYING", Game.PlayingState)
  \/ (stateName, s) = ("PAUSED", Game.PausedState)
  \/ (stateName, s) = ("GAME_OVER", Game.GameOverState)
  \/ (stateName, s) = ("LEVEL_COMPLETE", Game.LevelCompleteState).
Proof.
  intros H%states_lookup.
  repeat (destruct H as [H|H]; [injection H as <- <-; auto 10|]). destruct H.
Qed.

(** X11. Escape while playing, with the handler listening in navigation
    mode, pauses the game: the Paused state becomes active with its own
    bindings, and every command still queued, the pending operator and
    the count are dropped, as is the enemy roster. *)
Theorem escape_pauses_and_drops_queue (g : Game.t) :
  Game.currentState g = Some Game.PlayingState -> bindingsConsistent g ->
  Input.active (Game.inputHandler g) = true ->
  Input.mode (Game.inputHandler g) = Input.NORMAL ->
  exists g', Keys._onKeyDown "Escape" g = Game.Ok g'
             /\ Game.currentState g' = Some Game.PausedState
             /\ Game.currentStateName g' = Some "PAUSED"
             /\ bindingsConsistent g'
             /\ Input.active (Game.inputHandler g') = true
             /\ Input.commandQueue (Game.inputHandler g') = []
             /\ Input.commandBuffer (Game.inputHandler g') = ""
             /\ Input.numericPrefix (Game.inputHandler g') = ""
             /\ Game.enemies (Game.playing g') = [].
Proof.
  unfold bindingsConsistent. intros Hcs Hc Ha Hm.
  unfold Keys._onKeyDown, Keys._handleNormalMode.
  rewrite Ha, Hm, Hc, Hcs. cbn [negb].
  change (listenersOf (Some Game.PlayingState) !! "pause")
    with (Some Input.PlayingPause).
  change (String.eqb "Escape" "Escape") with true. cbv iota.
  cbn [Game.call].
  destruct (switchTo_steps "PAUSED" Game.PausedState Game.noParams g statesAt_PAUSED)
    as [psn ->].
  rewrite Hcs. cbn [Game.bind]. eexists. split; [reflexivity|].
  destruct g as [[act md buf pre tgt idx q ls] p pl go lc cs csn ? tr].
  cbn [Game.currentState Game.inputHandler Input.active Input.mode
       Input.actionListeners] in *. subst.
  repeat split.
Qed.

Lemma escape_pauses_and_drops_queue_witness :
  exists g', Keys._onKeyDown "Escape" (sample_game [chaser 1 0 1 10]) = Game.Ok g'
             /\ Game.currentState g' = Some Game.PausedState
             /\ Game.currentStateName g' = Some "PAUSED"
             /\ bindingsConsistent g'
             /\ Input.active (Game.inputHandler g') = true
             /\ Input.commandQueue (Game.inputHandler g') = []
             /\ Input.commandBuffer (Game.inputHandler g') = ""
             /\ Input.numericPrefix (Game.inputHandler g') = ""
             /\ Game.enemies (Game.playing g') = [].
Proof.
  apply (escape_pauses_and_drops_queue (sample_game [chaser 1 0 1 10]));
    reflexivity.
Defined.

(** A name under which [this.states] finds nothing is handled as a
    transition to the menu, after the error is logged. *)
Lemma switchTo_unknown (stateName : string) (params : Game.Params) (g : Game.t) :
  Game.statesAt stateName = None ->
  Game.switchTo stateName params g
  = Game.switchTo "MENU" Game.noParams
      (Game.emit (Game.console_error (Game.unknownStateMessage stateName)) g).
Proof.
  intros Hs. unfold Game.switchTo at 1. rewrite Hs, statesAt_MENU.
  unfold Game.switchTo. by rewrite statesAt_MENU.
Qed.

(** Only the key [LOADING] holds the Loading state. *)
Lemma statesAt_Loading (stateName : string) :
  Game.statesAt stateName = Some Game.LoadingState -> stateName = "LOADING".
Proof.
  pose proof (statesAt_cases stateName) as Hat.
  destruct (Game.states !! stateName) as [s|] eqn:Hs.
  - rewrite Hat. intros [= ->]. apply states_cases in Hs.
    repeat (destruct Hs as [Hs|Hs]; [injection Hs as Hs; congruence|]).
    injection Hs as Hs; congruence.
  - destruct (inherited stateName); by rewrite Hat.
Qed.

Lemma bindings_after_switch (s0 : option Game.StateObj) (s : Game.StateObj) :
  s0 <> Some Game.LoadingState -> s <> Game.LoadingState ->
  entered s (match s0 with
             | Some s0' => exited s0' (listenersOf s0)
             | None => listenersOf s0
             end)
  = listenersOf (Some s).
Proof.
  intros H0 Hs.
  destruct s0 as [[]|], s; try done; apply (bool_decide_unpack _); by vm_compute.
Qed.

(** X12. A transition between the states whose [enter] and [exit] the
    source gives keeps the input bindings those of the active state:
    what the old state registered is gone, and exactly what the new
    state registers is bound.  (The Loading state is left out because
    its [enter] and [exit] are elided in the source.) *)
Theorem switchTo_keeps_bindings_consistent (stateName : string)
    (params : Game.Params) (g g' : Game.t) :
  bindingsConsistent g ->
  Game.currentState g <> Some Game.LoadingState ->
  stateName <> "LOADING" ->
  Game.switchTo stateName params g = Game.Ok g' ->
  bindingsConsistent g'.
Proof.
  unfold bindingsConsistent. intros Hc Hcs Hname Hsw.
  destruct (Game.statesAt stateName) as [s|] eqn:Hs.
  - destruct (switchTo_listeners _ _ _ _ _ Hs Hsw) as (-> & _ & ->).
    rewrite Hc. apply bindings_after_switch; [done|].
    intros ->. by apply Hname, statesAt_Loading.
  - rewrite switchTo_unknown in Hsw by done.
    destruct (switchTo_listeners _ _ _ _ _ statesAt_MENU Hsw) as (-> & _ & ->).
    destruct g as [h p pl go lc cs csn psn tr]. simpl_records.
    cbn [Game.currentState Game.inputHandler] in Hc, Hcs. rewrite Hc.
    by apply bindings_after_switch.
Qed.

Lemma switchTo_keeps_bindings_consistent_witness :
  exists g', Game.switchTo "PLAYING" Game.noParams menu_game = Game.Ok g'
             /\ bindingsConsistent g'.
Proof.
  eexists. split; [reflexivity|].
  apply (switchTo_keeps_bindings_consistent "PLAYING" Game.noParams menu_game).
  - unfold bindingsConsistent. vm_compute. reflexivity.
  - vm_compute. discriminate.
  - discriminate.
  - reflexivity.
Defined.

(** X13. On the level-complete screen the [confirm] binding leads to
    the Loading state when the transition carried a next level id other
    than 0, and to the menu when it carried none (or 0); the [menu]
    binding always leads to the menu. *)
Theorem level_complete_confirm_routing (params : Game.Params) (g : Game.t) :
  exists g1 g2 g3,
    Game.switchTo "LEVEL_COMPLETE" params g = Game.Ok g1
    /\ Input.actionListeners (Game.inputHandler g1) !! "confirm"
       = Some Input.LevelCompleteConfirm
    /\ Input.actionListeners (Game.inputHandler g1) !! "menu"
       = Some Input.LevelCompleteMenu
    /\ Game.call Input.LevelCompleteConfirm g1 = Game.Ok g2
    /\ Game.currentStateName g2
       = Some (match Game.nextLevelId params with
               | Some n => if n =? 0 then "MENU" else "LOADING"
               | None => "MENU"
               end)
    /\ Game.call Input.LevelCompleteMenu g1 = Game.Ok g3
    /\ Game.currentStateName g3 = Some "MENU".
Proof.
  assert (Hlc : Game.statesAt "LEVEL_COMPLETE" = Some Game.LevelCompleteState)
    by (apply statesAt_own, states_lookup; cbn; auto 10).
  assert (Hlo : Game.statesAt "LOADING" = Some Game.LoadingState)
    by (apply statesAt_own, states_lookup; cbn; auto 10).
  destruct (switchTo_steps _ _ params g Hlc) as [psn Hsw].
  eexists. 
  assert (forall nm s ps g1, Game.statesAt nm = Some s ->
            exists g2, Game.switchTo nm ps g1 = Game.Ok g2
                       /\ Game.currentStateName g2 = Some nm) as Hto.
  { intros nm s ps g1 Hs.
    destruct (switchTo_known nm s ps g1 Hs) as (g2 & ? & ? & _). eauto. }
  match type of Hsw with _ = Game.Ok ?g1 =>
    assert (Game.lc_nextLevelId (Game.levelComplete g1)
            = match Game.nextLevelId params with
              | Some n => if n =? 0 then None else Some n
              | None => None
              end) as Hnext by reflexivity;
    assert (Input.actionListeners (Game.inputHandler g1) !! "confirm"
            = Some Input.LevelCompleteConfirm
            /\ Input.actionListeners (Game.inputHandler g1) !! "menu"
               = Some Input.LevelCompleteMenu) as [Hcf Hmn];
    [rewrite enter_listeners; cbn [entered]; split;
       [rewrite lookup_insert_ne by done; apply lookup_insert_eq
       |apply lookup_insert_eq]|];
    destruct (Hto "MENU" _ Game.noParams g1 statesAt_MENU) as (g3 & Hg3 & Hn3);
    assert (exists g2, Game.call Input.LevelCompleteConfirm g1 = Game.Ok g2
              /\ Game.currentStateName g2
                 = Some (match Game.nextLevelId params with
                         | Some n => if n =? 0 then "MENU" else "LOADING"
                         | None => "MENU"
                         end)) as (g2 & Hg2 & Hn2);
    [cbn [Game.call]; rewrite Hnext;
     destruct (Game.nextLevelId params) as [n|]; [destruct (n =? 0)|];
       eauto using statesAt_MENU|]
  end.
  exists g2, g3. eauto 10.
Qed.


(** ** Range application: what it leaves alone *)

Lemma step_surroundings (st : Game.t * Z) (c : Z * Z) :
  surroundings (rangeStep st c).1 = surroundings st.1.
Proof.
  rangeTile_cases; try done.
  unfold Game.updateGridTile.
  repeat case_innermost; done.
Qed.

Lemma fold_surroundings (l : list (Z * Z)) (st : Game.t * Z) :
  surroundings (foldl rangeStep st l).1 = surroundings st.1.
Proof.
  revert st. induction l as [|a l IH]; intros st; [done|].
  cbn [foldl]. by rewrite IH, step_surroundings.
Qed.

Lemma step_out_of_bounds (st : Game.t * Z) (c : Z * Z) :
  bounds st.1 c.1 c.2 = false -> rangeStep st c = st.
Proof.
  destruct st as [g sc]. unfold bounds, rangeStep, Game.rangeTile, Grid.inBounds.
  cbn [fst].
  destruct (Game.currentLevel (Game.playing g)) as [lvl|]; [|done].
  intros Hb.
  destruct (_ || _ || _ || _) eqn:E; [done|].
  repeat (apply orb_false_iff in E as [E ?]). lia.
Qed.

(** The result of a range action differs from the state the loops leave
    by the score and the message only. *)
Lemma handleRangeAction_playing (r : Player.Range) (cost : Z)
    (actionType : Player.ActionType) (g : Game.t) :
  Game.playing (Game.handleRangeAction r cost actionType g)
  = Game.playing (foldl rangeStep (g, 0) (rangeCoords r)).1
  /\ surroundings (Game.handleRangeAction r cost actionType g) = surroundings g.
Proof.
  destruct (Game.currentLevel (Game.playing g)) as [lvl|] eqn:Hl.
  - destruct (handleRangeAction_loops r cost actionType g) as (g1 & gained & Hf & ->);
      [by rewrite Hl|].
    pose proof (fold_surroundings (rangeCoords r) (g, 0)) as Hs.
    rewrite Hf in *. cbn [fst] in *.
    by destruct (0 <? gained).
  - assert (forall l, foldl rangeStep (g, 0) l = (g, 0)) as ->.
    { induction l as [|a l IH]; [done|]. cbn [foldl].
      rewrite step_out_of_bounds; [done|]. unfold bounds. cbn [fst]. by rewrite Hl. }
    unfold Game.handleRangeAction. by rewrite Hl.
Qed.

Lemma getTileAt_playing (g g' : Game.t) (x y : Z) :
  Game.playing g = Game.playing g' -> Game.getTileAt x y g = Game.getTileAt x y g'.
Proof. unfold Game.getTileAt. by intros ->. Qed.

Lemma bounds_playing (g g' : Game.t) (x y : Z) :
  Game.playing g = Game.playing g' -> bounds g x y = bounds g' x y.
Proof. unfold bounds. by intros ->. Qed.

(** X14. A range action changes no tile outside its rectangle, moves no
    enemy and adds or removes none, keeps the grid's bounds, and leaves
    the input handler, the other states and the state manager's own
    fields exactly as they were. *)
Theorem range_action_frame (r : Player.Range) (cost : Z)
    (actionType : Player.ActionType) (g : Game.t) :
  (forall x y, ~ inRange r x y ->
     Game.getTileAt x y (Game.handleRangeAction r cost actionType g)
     = Game.getTileAt x y g)
  /\ positions (Game.enemies (Game.playing (Game.handleRangeAction r cost actionType g)))
     = positions (Game.enemies (Game.playing g))
  /\ (forall x y, bounds (Game.handleRangeAction r cost actionType g) x y = bounds g x y)
  /\ surroundings (Game.handleRangeAction r cost actionType g) = surroundings g.
Proof.
  destruct (handleRangeAction_playing r cost actionType g) as [Hp Hs].
  split; [|split; [|split]]; [| | |done].
  - intros x y Hout. rewrite (getTileAt_playing _ _ x y Hp).
    apply (fold_tile_untouched (rangeCoords r) (g, 0) (x, y)).
    by rewrite elem_of_rangeCoords.
  - rewrite Hp. apply (fold_positions (rangeCoords r) (g, 0)).
  - intros x y. rewrite (bounds_playing _ _ x y Hp).
    apply (fold_bounds (rangeCoords r) (g, 0)).
Qed.

(** An enemy is untouched by the visits that do not stop at it or that
    fall outside the grid. *)
Lemma fold_enemy_spared (l : list (Z * Z)) (st : Game.t * Z) (j : nat) :
  (forall c, c ∈ l ->
     Game.scanEnemies c.1 c.2 (Game.enemies (Game.playing st.1)) <> Some j
     \/ bounds st.1 c.1 c.2 = false) ->
  Game.enemies (Game.playing (foldl rangeStep st l).1) !! j
  = Game.enemies (Game.playing st.1) !! j.
Proof.
  revert st. induction l as [|a l IH]; intros st Hscan; [done|].
  cbn [foldl]. rewrite IH.
  - destruct (Hscan a) as [Hs|Hb]; [by left| |].
    + by apply step_enemies_other.
    + by rewrite step_out_of_bounds.
  - intros c Hc.
    rewrite (scanEnemies_positions _ _ _ _ (step_positions st a)), step_bounds.
    apply Hscan. by right.
Qed.

(** X15. A range action damages no enemy that stands outside its
    rectangle or outside the grid, and none that shares its tile with an
    enemy later in the roster: such an enemy is exactly as before. *)
Theorem range_action_spares (r : Player.Range) (cost : Z)
    (actionType : Player.ActionType) (g : Game.t) (j : nat) (e : Enemy.t) :
  Game.enemies (Game.playing g) !! j = Some e ->
  ~ inRange r (Enemy.x e) (Enemy.y e)
  \/ bounds g (Enemy.x e) (Enemy.y e) = false
  \/ Game.scanEnemies (Enemy.x e) (Enemy.y e) (Game.enemies (Game.playing g)) <> Some j ->
  Game.enemies (Game.playing (Game.handleRangeAction r cost actionType g)) !! j
  = Some e.
Proof.
  intros He Hcase.
  destruct (handleRangeAction_playing r cost actionType g) as [-> _].
  rewrite (fold_enemy_spared (rangeCoords r) (g, 0) j); [done|].
  intros [x y] Hc. cbn [fst snd].
  destruct (decide (Game.scanEnemies x y (Game.enemies (Game.playing g)) = Some j))
    as [Hj|Hj]; [|by left].
  destruct (scanEnemies_Some _ _ _ _ Hj) as [(e' & He' & Hocc) _].
  assert (e' = e) as -> by congruence.
  unfold Game.occupies in Hocc. apply andb_true_iff in Hocc as [Hx Hy].
  apply Z.eqb_eq in Hx, Hy. subst x y.
  apply elem_of_rangeCoords in Hc.
  destruct Hcase as [?|[?|?]]; [done|by right|done].
Qed.

Lemma range_action_spares_witness :
  Game.enemies
    (Game.playing
       (Game.handleRangeAction (Player.mkRange 0 1 2 1) 60 Player.DELETE_RANGE
          (sample_game [chaser 1 1 1 10; chaser 2 4 0 10; chaser 3 1 1 10])))
    !! 0%nat
  = Some (chaser 1 1 1 10).
Proof.
  apply (range_action_spares (Player.mkRange 0 1 2 1) 60 Player.DELETE_RANGE
           (sample_game [chaser 1 1 1 10; chaser 2 4 0 10; chaser 3 1 1 10])
           0 (chaser 1 1 1 10)).
  - reflexivity.
  - right. right. vm_compute. discriminate.
Defined.

(** X16. A range action whose rectangle holds no coordinate of the grid
    does nothing at all: the game is returned as it was. *)
Theorem range_outside_grid_is_noop (r : Player.Range) (cost : Z)
    (actionType : Player.ActionType) (g : Game.t) :
  (forall x y, inRange r x y -> bounds g x y = false) ->
  Game.handleRangeAction r cost actionType g = g.
Proof.
  intros Hout.
  assert (forall l, (forall c, c ∈ l -> c ∈ rangeCoords r) ->
                    foldl rangeStep (g, 0) l = (g, 0)) as Hfold.
  { induction l as [|a l IH]; intros Hl; [done|]. cbn [foldl].
    rewrite step_out_of_bounds.
    - apply IH. intros c Hc. apply Hl. by right.
    - cbn [fst]. destruct a as [x y]. apply Hout, elem_of_rangeCoords, Hl. by left. }
  destruct (Game.currentLevel (Game.playing g)) as [lvl|] eqn:Hl.
  - destruct (handleRangeAction_loops r cost actionType g) as (g1 & gained & Hf & ->);
      [by rewrite Hl|].
    rewrite Hfold in Hf by done. by injection Hf as <- <-.
  - unfold Game.handleRangeAction. by rewrite Hl.
Qed.

Lemma range_outside_grid_is_noop_witness :
  Game.handleRangeAction (Player.mkRange 5 0 9 1) 60 Player.DELETE_RANGE
    (sample_game [chaser 1 1 1 10])
  = sample_game [chaser 1 1 1 10].
Proof.
  apply (range_outside_grid_is_noop (Player.mkRange 5 0 9 1) 60 Player.DELETE_RANGE
           (sample_game [chaser 1 1 1 10])).
  intros x y [Hx Hy]. unfold minX, maxX in Hx. simpl in Hx.
  unfold bounds, Grid.inBounds. simpl. lia.
Defined.


(** ** Range application: what is left in the range *)

(** After the loops no coordinate of the range would be cleared again. *)
Lemma clears_after (r : Player.Range) (g : Game.t) (c : Z * Z) :
  c ∈ rangeCoords r ->
  clears (foldl rangeStep (g, 0) (rangeCoords r)).1 c = false.
Proof.
  intros Hc. unfold clears.
  rewrite (scanEnemies_positions _ _ _ _ (fold_positions (rangeCoords r) (g, 0))).
  rewrite (fold_tile (rangeCoords r) (g, 0) c (NoDup_rangeCoords r) Hc).
  cbn [fst]. unfold clears.
  destruct (Game.scanEnemies c.1 c.2 _); [done|].
  destruct (Game.getTileAt c.1 c.2 g) as [t|]; [|done].
  destruct (bool_decide (Grid.type t = Grid.corrupted)) eqn:E; cbn [fmap option_fmap option_map].
  - by apply bool_decide_eq_false_2.
  - done.
Qed.

Lemma clears_playing (g g' : Game.t) (c : Z * Z) :
  Game.playing g = Game.playing g' -> clears g c = clears g' c.
Proof. intros H. unfold clears. by rewrite (getTileAt_playing _ _ _ _ H), H. Qed.

(** X17. After a range action every tile of its rectangle that is still
    corrupted has an enemy standing on it: all other corrupted tiles of
    the rectangle have been cleared. *)
Theorem corrupted_left_in_range_is_occupied (r : Player.Range) (cost : Z)
    (actionType : Player.ActionType) (g : Game.t) (x y : Z) (tile : Grid.Tile) :
  inRange r x y ->
  Game.getTileAt x y (Game.handleRangeAction r cost actionType g) = Some tile ->
  Grid.type tile = Grid.corrupted ->
  exists e, e ∈ Game.enemies (Game.playing (Game.handleRangeAction r cost actionType g))
            /\ Game.occupies x y e = true.
Proof.
  intros Hin Ht Hc.
  destruct (handleRangeAction_playing r cost actionType g) as [Hp _].
  pose proof (clears_after r g (x, y) (proj2 (elem_of_rangeCoords r x y) Hin)) as Hcl.
  rewrite <- (clears_playing _ _ _ Hp) in Hcl.
  unfold clears in Hcl. cbn [fst snd] in Hcl. rewrite Ht in Hcl.
  destruct (Game.scanEnemies x y _) as [i|] eqn:Hi.
  - destruct (scanEnemies_Some _ _ _ _ Hi) as [(e & He & Hocc) _].
    exists e. split; [|done]. by eapply list_elem_of_lookup_2.
  - by rewrite bool_decide_eq_true_2 in Hcl.
Qed.

Lemma corrupted_left_in_range_is_occupied_witness :
  exists e,
    e ∈ Game.enemies
          (Game.playing
             (Game.handleRangeAction (Player.mkRange 0 1 4 1) 60 Player.DELETE_RANGE
                (sample_game [chaser 1 1 1 10])))
    /\ Game.occupies 1 1 e = true.
Proof.
  apply (corrupted_left_in_range_is_occupied (Player.mkRange 0 1 4 1) 60
           Player.DELETE_RANGE (sample_game [chaser 1 1 1 10]) 1 1
           (tile "#" Grid.corrupted)).
  - vm_compute. repeat split; discriminate.
  - vm_compute. reflexivity.
  - reflexivity.
Defined.

(** X18. Repeating a range action on its own result clears nothing
    more: every tile of the grid and the player's score are as the first
    application left them. *)
Theorem range_action_twice (r : Player.Range) (cost cost' : Z)
    (actionType actionType' : Player.ActionType) (g : Game.t) :
  (forall x y,
     Game.getTileAt x y
       (Game.handleRangeAction r cost' actionType'
          (Game.handleRangeAction r cost actionType g))
     = Game.getTileAt x y (Game.handleRangeAction r cost actionType g))
  /\ Game.player (Game.handleRangeAction r cost' actionType'
                    (Game.handleRangeAction r cost actionType g))
     = Game.player (Game.handleRangeAction r cost actionType g).
Proof.
  set (g' := Game.handleRangeAction r cost actionType g).
  assert (forall c, c ∈ rangeCoords r -> clears g' c = false) as Hcl.
  { intros c Hc. subst g'.
    destruct (handleRangeAction_playing r cost actionType g) as [Hp _].
    rewrite (clears_playing _ _ _ Hp). by apply clears_after. }
  destruct (handleRangeAction_playing r cost' actionType' g') as [Hp' _].
  split.
  - intros x y. rewrite (getTileAt_playing _ _ x y Hp').
    destruct (decide ((x, y) ∈ rangeCoords r)) as [Hin|Hout].
    + pose proof (fold_tile (rangeCoords r) (g', 0) (x, y)
                    (NoDup_rangeCoords r) Hin) as Ht.
      cbn [fst snd] in Ht. by rewrite Hcl in Ht.
    + by apply (fold_tile_untouched (rangeCoords r) (g', 0) (x, y)).
  - destruct (Game.currentLevel (Game.playing g')) as [lvl|] eqn:Hl.
    + destruct (handleRangeAction_loops r cost' actionType' g')
        as (g1 & gained & Hf & ->); [by rewrite Hl|].
      pose proof (fold_score (rangeCoords r) (g', 0) (NoDup_rangeCoords r)) as Hs.
      pose proof (fold_player (rangeCoords r) (g', 0)) as Hpl.
      rewrite Hf in Hs, Hpl. cbn [fst snd] in Hs, Hpl.
      assert (List.filter (clears g') (rangeCoords r) = []) as Hnil.
      { clear -Hcl. induction (rangeCoords r) as [|a l IH]; [done|].
        cbn [List.filter]. rewrite Hcl by (by left).
        apply IH. intros c Hc. apply Hcl. by right. }
      rewrite Hnil in Hs. cbn in Hs. subst gained. by cbn.
    + unfold Game.handleRangeAction at 1. by rewrite Hl.
Qed.


(** ** Player actions: js/core/stateManager.js, [processPlayerActions] *)

(** X19. A replace-character action never rewrites a barrier, and it
    does nothing where the grid has no tile; on any other tile it
    changes the glyph and nothing else of the tile, and every other
    tile of the grid is as before. *)
Theorem replace_char_respects_barriers (x y cost : Z) (c : ascii) (g : Game.t) :
  let g' := Game.processPlayerAction
              (Player.mkAction Player.REPLACE_CHAR
                 (Player.CharTarget x y (String c "")) cost) g in
  match Game.getTileAt x y g with
  | None => g' = g
  | Some tile =>
      if decide (Grid.type tile = Grid.barrier) then g' = g
      else Game.getTileAt x y g'
           = Some (Grid.mkTile c (Grid.type tile) (Grid.requiredWord tile)
                     (Grid.isWordStart tile) (Grid.isPartOfWord tile))
  end
  /\ forall x' y', (x', y') <> (x, y) ->
                   Game.getTileAt x' y' g' = Game.getTileAt x' y' g.
Proof.
  cbn zeta. unfold Game.processPlayerAction.
  cbn [Player.type Player.target Player.cost].
  destruct (Game.getTileAt x y g) as [tile|] eqn:Ht; [|done].
  destruct (decide (Grid.type tile = Grid.barrier)); [done|]. split.
  - by rewrite (getTileAt_updateGridTile_eq _ _ _ _ _ Ht).
  - intros x' y' Hne. by apply getTileAt_updateGridTile_ne.
Qed.

Lemma handleRangeAction_inputHandler (r : Player.Range) (cost : Z)
    (actionType : Player.ActionType) (g : Game.t) :
  Game.inputHandler (Game.handleRangeAction r cost actionType g)
  = Game.inputHandler g.
Proof.
  destruct (handleRangeAction_playing r cost actionType g) as [_ Hs].
  unfold surroundings in Hs. congruence.
Qed.

(** With an empty target phrase and the index at 0, text entry ignores
    every key but [Escape]. *)
Lemma typing_empty_phrase (key : string) (h : Input.t) :
  Input.targetTypingPhrase h = "" -> Input.currentTypingIndex h = 0%nat ->
  key <> "Escape" ->
  Input._handleTypingMode key h = h.
Proof.
  intros Ht Hi He. unfold Input._handleTypingMode.
  apply String.eqb_neq in He. rewrite He, Ht, Hi.
  destruct (String.eqb key "Backspace"); [done|].
  by destruct (1 <? String.length key)%nat.
Qed.

(** X20. A change action processed while the handler listens in
    navigation mode leaves it in text-entry mode with an empty target
    phrase; from then on every key other than [Escape] is ignored: no
    key sequence without [Escape] changes anything in the game. *)
Theorem change_action_arms_empty_typing (r : Player.Range) (cost : Z)
    (ks : list string) (g : Game.t) :
  Input.active (Game.inputHandler g) = true ->
  Input.mode (Game.inputHandler g) = Input.NORMAL ->
  Forall (fun k => k <> "Escape") ks ->
  let g' := Game.processPlayerAction
              (Player.mkAction Player.CHANGE_RANGE (Player.RangeTarget r) cost) g in
  Input.mode (Game.inputHandler g') = Input.TYPING
  /\ Input.targetTypingPhrase (Game.inputHandler g') = ""
  /\ Input.currentTypingIndex (Game.inputHandler g') = 0%nat
  /\ Keys.keys ks g' = Game.Ok g'.
Proof.
  intros Ha Hm Hks g'.
  assert (Game.inputHandler g'
          = Input.setMode Input.TYPING "" (Game.inputHandler g)) as Hh.
  { subst g'. unfold Game.processPlayerAction.
    cbn [Player.type Player.target Player.cost]. unfold Game.input.
    cbn [Game.inputHandler Game.set_inputHandler].
    by rewrite handleRangeAction_inputHandler. }
  assert (Input.active (Game.inputHandler g') = true
          /\ Input.mode (Game.inputHandler g') = Input.TYPING
          /\ Input.targetTypingPhrase (Game.inputHandler g') = ""
          /\ Input.currentTypingIndex (Game.inputHandler g') = 0%nat)
    as (Ha' & Hm' & Ht' & Hi').
  { rewrite Hh. unfold Input.setMode. rewrite Hm.
    destruct (decide (Input.NORMAL = Input.TYPING)); done. }
  split; [done|]. split; [done|]. split; [done|].
  rewrite keys_typing by done.
  assert (foldl (fun h k => Input._handleTypingMode k h) (Game.inputHandler g') ks
          = Game.inputHandler g') as Hfold.
  { clear Hh. induction Hks as [|k ks Hk _ IH]; [done|].
    cbn [foldl]. by rewrite typing_empty_phrase. }
  unfold Game.input. rewrite Hfold. by destruct g'.
Qed.

Lemma change_action_arms_empty_typing_witness :
  let g' := Game.processPlayerAction
              (Player.mkAction Player.CHANGE_RANGE
                 (Player.RangeTarget (Player.mkRange 0 1 2 1)) 8)
              (sample_game []) in
  Input.mode (Game.inputHandler g') = Input.TYPING
  /\ Input.targetTypingPhrase (Game.inputHandler g') = ""
  /\ Input.currentTypingIndex (Game.inputHandler g') = 0%nat
  /\ Keys.keys ["a"; "Backspace"; "Enter"; "3"] g' = Game.Ok g'.
Proof.
  apply (change_action_arms_empty_typing (Player.mkRange 0 1 2 1) 8
           ["a"; "Backspace"; "Enter"; "3"] (sample_game [])).
  - reflexivity.
  - reflexivity.
  - repeat constructor; discriminate.
Defined.


(** ** The action resolver: the motions that read no helper *)

(** X21. For a cursor on the grid and a count of at least 1, the span
    the resolver computes for [dd], [dh], [dl], [dj] and [dk] (and their
    [c] forms), whenever it computes one, is ordered, lies inside the
    grid, stays on or spans the cursor's row, and has a cost of at
    least 1, whatever the elided methods of the player do. *)
Theorem helper_free_spans_are_in_grid (H : Player.Helpers) (grid : Grid.Level)
    (p : Player.t) (motion : Input.Motion) (count : Z) (r : Player.Range) (cost : Z) :
  In motion [Input.LINE; Input.LEFT; Input.RIGHT; Input.UP; Input.DOWN] ->
  Grid.inBounds grid (Player.x p) (Player.y p) = true ->
  1 <= count ->
  Player.motionSpan H grid p motion count = Some (r, cost) ->
  0 <= Player.startX r <= Player.endX r /\ Player.endX r < Grid.width grid
  /\ 0 <= Player.startY r <= Player.y p
  /\ Player.y p <= Player.endY r < Grid.height grid
  /\ 1 <= cost.
Proof.
  intros Hm Hb Hc. unfold Grid.inBounds in Hb.
  repeat (apply andb_true_iff in Hb as [Hb ?]).
  cbn [In] in Hm.
  destruct Hm as [<-|[<-|[<-|[<-|[<-|[]]]]]]; cbn [Player.motionSpan].
  - intros [= <- <-]. cbn [Player.startX Player.startY Player.endX Player.endY]. nia.
  - destruct (Z.ltb_spec 0 count); [|lia].
    destruct (Z.ltb_spec (Player.x p - 1) (Z.max 0 (Player.x p - count))); [done|].
    intros [= <- <-]. cbn [Player.startX Player.startY Player.endX Player.endY]. lia.
  - intros [= <- <-]. cbn [Player.startX Player.startY Player.endX Player.endY]. lia.
  - intros [= <- <-]. cbn [Player.startX Player.startY Player.endX Player.endY]. lia.
  - intros [= <- <-]. cbn [Player.startX Player.startY Player.endX Player.endY]. lia.
Qed.

Lemma helper_free_spans_are_in_grid_witness :
  0 <= Player.startX (Player.mkRange 1 0 2 0) <= Player.endX (Player.mkRange 1 0 2 0)
  /\ Player.endX (Player.mkRange 1 0 2 0) < Grid.width sample_level
  /\ 0 <= Player.startY (Player.mkRange 1 0 2 0)
       <= Player.y (Player.mk 3 0 (Some sample_level) 0 100 100)
  /\ Player.y (Player.mk 3 0 (Some sample_level) 0 100 100)
     <= Player.endY (Player.mkRange 1 0 2 0) < Grid.height sample_level
  /\ 1 <= 2.
Proof.
  apply (helper_free_spans_are_in_grid
           (Player.specHelpers (fun _ => false) Player.specRequestAction)
           sample_level (Player.mk 3 0 (Some sample_level) 0 100 100)
           Input.LEFT 2 (Player.mkRange 1 0 2 0) 2).
  - simpl. auto.
  - reflexivity.
  - lia.
  - reflexivity.
Defined.

(** X22. [dh] and [ch] give no request at column 0 (or left of it) and
    for a count below 1; otherwise they span the [min(count, x)] tiles
    before the cursor on the cursor's row, never the cursor's own tile,
    at a cost of one per tile. *)
Theorem left_motion_span (H : Player.Helpers) (grid : Grid.Level)
    (p : Player.t) (count : Z) :
  Player.motionSpan H grid p Input.LEFT count
  = if (0 <? count) && (0 <? Player.x p)
    then Some (Player.mkRange (Z.max 0 (Player.x p - count)) (Player.y p)
                              (Player.x p - 1) (Player.y p),
               Z.min count (Player.x p))
    else None.
Proof.
  cbn [Player.motionSpan].
  destruct (Z.ltb_spec 0 count); cbn [andb].
  - destruct (Z.ltb_spec 0 (Player.x p)).
    + destruct (Z.ltb_spec (Player.x p - 1) (Z.max 0 (Player.x p - count))); [lia|].
      do 2 f_equal. lia.
    + destruct (Z.ltb_spec (Player.x p - 1) (Z.max 0 (Player.x p - count))); [done|lia].
  - destruct (Z.ltb_spec (Player.x p - 1) (Player.x p)); [done|lia].
Qed.

(** X23. [dj] and [dk] with a count of at least 0, for a cursor on a row
    of the grid, span whole rows: from the cursor's row down (up) by
    [count] rows, stopping at the last (first) row, over all columns, at
    a cost of 10 per row spanned. *)
Theorem vertical_motion_span (H : Player.Helpers) (grid : Grid.Level)
    (p : Player.t) (down : bool) (count : Z) :
  0 <= Player.y p < Grid.height grid -> 0 <= count ->
  exists startY endY,
    Player.motionSpan H grid p (if down then Input.DOWN else Input.UP) count
    = Some (Player.mkRange 0 startY (Grid.width grid - 1) endY,
            10 * (endY - startY + 1))
    /\ (if down
        then startY = Player.y p
             /\ endY = Z.min (Grid.height grid - 1) (Player.y p + count)
        else startY = Z.max 0 (Player.y p - count) /\ endY = Player.y p).
Proof.
  intros Hy Hc. destruct down; cbn [Player.motionSpan].
  - eexists _, _. split; [|split; reflexivity]. do 2 f_equal. lia.
  - eexists _, _. split; [|split; reflexivity]. do 2 f_equal. lia.
Qed.

Lemma vertical_motion_span_witness :
  exists startY endY,
    Player.motionSpan (Player.specHelpers (fun _ => false) Player.specRequestAction)
      sample_level (Player.mk 3 0 (Some sample_level) 0 100 100)
      (if true then Input.DOWN else Input.UP) 5
    = Some (Player.mkRange 0 startY (Grid.width sample_level - 1) endY,
            10 * (endY - startY + 1))
    /\ (if true
        then startY = Player.y (Player.mk 3 0 (Some sample_level) 0 100 100)
             /\ endY = Z.min (Grid.height sample_level - 1)
                         (Player.y (Player.mk 3 0 (Some sample_level) 0 100 100) + 5)
        else startY = Z.max 0 (Player.y (Player.mk 3 0 (Some sample_level) 0 100 100) - 5)
             /\ endY = Player.y (Player.mk 3 0 (Some sample_level) 0 100 100)).
Proof.
  apply (vertical_motion_span
           (Player.specHelpers (fun _ => false) Player.specRequestAction)
           sample_level (Player.mk 3 0 (Some sample_level) 0 100 100) true 5).
  - simpl. lia.
  - lia.
Defined.


(** ** Chasers: js/game_objects/enemies/chaser.js *)

Lemma isValidMove_walkable (grid : option Grid.Level) (x y : Z) :
  Chaser._isValidMove grid x y = true <-> walkable grid (x, y).
Proof.
  unfold Chaser._isValidMove, walkable, Grid.inBounds. cbn [fst snd]. split.
  - destruct grid as [lvl|]; [|done].
    destruct (_ || _ || _ || _) eqn:E; [done|].
    destruct (Grid.tileAt lvl x y) as [tile|] eqn:Ht; [|done].
    destruct (decide (Grid.type tile = Grid.barrier)); [done|]. intros _.
    exists lvl, tile. repeat split; try done.
    repeat (apply orb_false_iff in E as [E ?]).
    apply negb_true_iff. repeat (apply orb_false_iff; split); done.
  - intros (lvl & tile & -> & Hb & -> & Hnb).
    apply negb_true_iff in Hb.
    repeat (apply orb_false_iff in Hb as [Hb ?]).
    replace (_ || _ || _ || _) with false
      by (symmetry; repeat (apply orb_false_iff; split); done).
    by destruct (decide (Grid.type tile = Grid.barrier)).
Qed.

Lemma moveTo_step (grid : option Grid.Level) (e : Enemy.t) (mx my px py : Z) :
  Chaser._isValidMove grid (Enemy.x e + mx) (Enemy.y e + my) = true ->
  (mx = Z.sgn (px - Enemy.x e) /\ my = 0 /\ mx <> 0)
  \/ (mx = 0 /\ my = Z.sgn (py - Enemy.y e) /\ my <> 0) ->
  let e' := Chaser.moveTo (Enemy.x e + mx) (Enemy.y e + my) e in
  walkable grid (Enemy.getPosition e')
  /\ steps (Enemy.getPosition e) (Enemy.getPosition e') = 1
  /\ steps (Enemy.getPosition e') (px, py) = steps (Enemy.getPosition e) (px, py) - 1
  /\ e' = Chaser.moveTo (Enemy.x e') (Enemy.y e') e.
Proof.
  intros Hv Hm. cbn zeta. split; [by apply isValidMove_walkable|].
  unfold steps, Enemy.getPosition, Chaser.moveTo.
  cbn [fst snd Enemy.x Enemy.y]. split; [lia|]. split; [lia|done].
Qed.

(** X24. A chaser's update leaves it as it was, or moves it by exactly
    one orthogonal step onto a tile of the grid that is not a barrier,
    one step closer to the player; nothing but its position changes.
    Without a player position it never moves. *)
Theorem chaser_steps_toward_player (grid : option Grid.Level)
    (canAttemptMove : bool) (playerPosition : option (Z * Z)) (e : Enemy.t) :
  let e' := Chaser.update grid canAttemptMove playerPosition e in
  e' = e
  \/ exists player,
       playerPosition = Some player
       /\ walkable grid (Enemy.getPosition e')
       /\ steps (Enemy.getPosition e) (Enemy.getPosition e') = 1
       /\ steps (Enemy.getPosition e') player
          = steps (Enemy.getPosition e) player - 1
       /\ e' = Chaser.moveTo (Enemy.x e') (Enemy.y e') e.
Proof.
  cbn zeta. unfold Chaser.update.
  destruct playerPosition as [[px py]|]; [|by left].
  destruct (negb canAttemptMove || Enemy.isDefeated e); [by left|].
  set (dx := px - Enemy.x e). set (dy := py - Enemy.y e).
  assert (forall mx my,
            Chaser._isValidMove grid (Enemy.x e + mx) (Enemy.y e + my) = true ->
            (mx = Z.sgn dx /\ my = 0 /\ mx <> 0) \/ (mx = 0 /\ my = Z.sgn dy /\ my <> 0) ->
            Chaser.moveTo (Enemy.x e + mx) (Enemy.y e + my) e = e
            \/ exists player,
                 Some (px, py) = Some player
                 /\ walkable grid
                      (Enemy.getPosition
                         (Chaser.moveTo (Enemy.x e + mx) (Enemy.y e + my) e))
                 /\ steps (Enemy.getPosition e)
                      (Enemy.getPosition
                         (Chaser.moveTo (Enemy.x e + mx) (Enemy.y e + my) e)) = 1
                 /\ steps (Enemy.getPosition
                             (Chaser.moveTo (Enemy.x e + mx) (Enemy.y e + my) e)) player
                    = steps (Enemy.getPosition e) player - 1
                 /\ Chaser.moveTo (Enemy.x e + mx) (Enemy.y e + my) e
                    = Chaser.moveTo
                        (Enemy.x (Chaser.moveTo (Enemy.x e + mx) (Enemy.y e + my) e))
                        (Enemy.y (Chaser.moveTo (Enemy.x e + mx) (Enemy.y e + my) e)) e)
    as Hmove.
  { intros mx my Hv Hm. right. exists (px, py). split; [done|].
    by apply (moveTo_step grid e mx my px py). }
  destruct (Z.ltb_spec (Z.abs dy) (Z.abs dx)) as [Hh|Hh].
  - (* horizontal first *)
    destruct (Z.eqb_spec (Z.sgn dx) 0) as [E|E]; [lia|]. cbn [andb negb orb].
    destruct (Chaser._isValidMove grid (Enemy.x e + Z.sgn dx) (Enemy.y e + 0)) eqn:Hv.
    { apply Hmove; [done|]. left. done. }
    destruct (Z.eqb_spec (Z.sgn dy) 0) as [E'|E']; cbn [negb orb]; [by left|].
    destruct (Chaser._isValidMove grid (Enemy.x e + 0) (Enemy.y e + Z.sgn dy)) eqn:Hv';
      [|by left].
    apply Hmove; [done|]. right. done.
  - destruct (Z.ltb_spec 0 (Z.abs dy)) as [Hd|Hd].
    + (* vertical first *)
      destruct (Z.eqb_spec (Z.sgn dy) 0) as [E|E]; [lia|].
      cbn [Z.eqb andb negb orb].
      destruct (Chaser._isValidMove grid (Enemy.x e + 0) (Enemy.y e + Z.sgn dy)) eqn:Hv.
      { apply Hmove; [done|]. right. done. }
      destruct (Z.eqb_spec (Z.sgn dx) 0) as [E'|E']; cbn [negb orb]; [by left|].
      destruct (Chaser._isValidMove grid (Enemy.x e + Z.sgn dx) (Enemy.y e + 0)) eqn:Hv';
        [|by left].
      apply Hmove; [done|]. left. done.
    + destruct (Z.ltb_spec 0 (Z.abs dx)); [lia|]. by left.
Qed.

(** X25. A chaser that may move, is not defeated and knows where the
    player is moves whenever the step toward the player along either
    axis leads onto a tile of the grid that is not a barrier: it stays
    put only when every such step is blocked. *)
Theorem chaser_moves_when_it_can (grid : option Grid.Level) (px py : Z)
    (e : Enemy.t) :
  Enemy.isDefeated e = false ->
  (px <> Enemy.x e
   /\ walkable grid (Enemy.x e + Z.sgn (px - Enemy.x e), Enemy.y e))
  \/ (py <> Enemy.y e
      /\ walkable grid (Enemy.x e, Enemy.y e + Z.sgn (py - Enemy.y e))) ->
  Enemy.getPosition (Chaser.update grid true (Some (px, py)) e)
  <> Enemy.getPosition e.
Proof.
  intros Hd Hw. unfold Chaser.update. rewrite Hd. cbn [negb orb].
  set (dx := px - Enemy.x e) in *. set (dy := py - Enemy.y e) in *.
  assert (forall mx my, (mx <> 0 /\ my = 0) \/ (mx = 0 /\ my <> 0) ->
            Enemy.getPosition (Chaser.moveTo (Enemy.x e + mx) (Enemy.y e + my) e)
            <> Enemy.getPosition e) as Hne.
  { intros mx my Hm. unfold Enemy.getPosition, Chaser.moveTo.
    cbn [Enemy.x Enemy.y]. intros [= ? ?]. lia. }
  assert (Hx : px <> Enemy.x e ->
               walkable grid (Enemy.x e + Z.sgn dx, Enemy.y e) ->
               Chaser._isValidMove grid (Enemy.x e + Z.sgn dx) (Enemy.y e + 0) = true).
  { intros _ H. rewrite Z.add_0_r. by apply isValidMove_walkable. }
  assert (Hy : py <> Enemy.y e ->
               walkable grid (Enemy.x e, Enemy.y e + Z.sgn dy) ->
               Chaser._isValidMove grid (Enemy.x e + 0) (Enemy.y e + Z.sgn dy) = true).
  { intros _ H. rewrite Z.add_0_r. by apply isValidMove_walkable. }
  destruct (Z.ltb_spec (Z.abs dy) (Z.abs dx)) as [Hh|Hh].
  - destruct (Z.eqb_spec (Z.sgn dx) 0) as [E|E]; [lia|]. cbn [andb negb orb].
    destruct (Chaser._isValidMove grid (Enemy.x e + Z.sgn dx) (Enemy.y e + 0)) eqn:Hv.
    { apply Hne. by left. }
    destruct Hw as [[Hpx Hwx]|[Hpy Hwy]]; [by specialize (Hx Hpx Hwx)|].
    change (0 =? 0) with true. cbv iota.
    destruct (Z.eqb_spec (Z.sgn dy) 0) as [E'|E']; [lia|]. cbn [negb orb].
    rewrite Hy by done. apply Hne. by right.
  - destruct (Z.ltb_spec 0 (Z.abs dy)) as [Hd'|Hd'].
    + destruct (Z.eqb_spec (Z.sgn dy) 0) as [E|E]; [lia|].
      cbn [Z.eqb andb negb orb].
      destruct (Chaser._isValidMove grid (Enemy.x e + 0) (Enemy.y e + Z.sgn dy)) eqn:Hv.
      { apply Hne. by right. }
      destruct Hw as [[Hpx Hwx]|[Hpy Hwy]]; [|by specialize (Hy Hpy Hwy)].
      destruct (Z.eqb_spec (Z.sgn dx) 0) as [E'|E']; [lia|]. cbn [negb orb].
      rewrite Hx by done. apply Hne. by left.
    + destruct Hw as [[Hpx _]|[Hpy _]]; lia.
Qed.

Lemma chaser_moves_when_it_can_witness :
  Enemy.getPosition (Chaser.update (Some sample_level) true (Some (4, 0))
                       (chaser 1 2 1 10))
  <> Enemy.getPosition (chaser 1 2 1 10).
Proof.
  apply (chaser_moves_when_it_can (Some sample_level) 4 0 (chaser 1 2 1 10)).
  - reflexivity.
  - right. split; [simpl; lia|].
    exists sample_level, (tile " " Grid.data_node).
    repeat split; try reflexivity. discriminate.
Defined.


(** ** Level definitions: js/game_logic/levelManager.js *)

Lemma cell_Some (tiles : list (list Grid.Tile)) (x y : Z) (t : Grid.Tile) :
  cell tiles x y = Some t <->
  0 <= x /\ 0 <= y
  /\ exists row, tiles !! Z.to_nat y = Some row /\ row !! Z.to_nat x = Some t.
Proof.
  unfold cell, at_index. split.
  - destruct (Z.ltb_spec y 0); [done|]. cbn.
    destruct (tiles !! Z.to_nat y) as [row|] eqn:Hr; [|done]. cbn.
    destruct (Z.ltb_spec x 0); [done|]. intros Ht. eauto 6.
  - intros (Hx & Hy & row & Hr & Ht).
    destruct (Z.ltb_spec y 0); [lia|]. cbn. rewrite Hr. cbn.
    destruct (Z.ltb_spec x 0); [lia|]. done.
Qed.

Lemma cell_None_outside (w : nat) (tiles : list (list Grid.Tile)) (x y : Z) :
  rect w tiles ->
  ~ (0 <= y < Z.of_nat (length tiles) /\ 0 <= x < Z.of_nat w) ->
  cell tiles x y = None.
Proof.
  intros Hrect Hout. destruct (cell tiles x y) as [t|] eqn:Hc; [|done].
  apply cell_Some in Hc as (Hx & Hy & row & Hr & Ht). exfalso. apply Hout.
  pose proof (lookup_lt_Some _ _ _ Hr). pose proof (lookup_lt_Some _ _ _ Ht).
  rewrite (proj1 (Forall_lookup _ _) Hrect _ _ Hr) in *. lia.
Qed.

(** [_placeTile] on a rectangular grid: the grid keeps its shape, the
    tile at the coordinate, if there is one, is merged with the data,
    and every other tile is as before. *)
Lemma placeTile_rect (w : nat) (tiles : list (list Grid.Tile)) (x y : Z)
    (d : LevelManager.TileArg) :
  rect w tiles ->
  exists tiles',
    LevelManager._placeTile tiles x y d = Some tiles'
    /\ length tiles' = length tiles
    /\ rect w tiles'
    /\ forall x' y',
         cell tiles' x' y'
         = if bool_decide ((x', y') = (x, y))
           then (fun t => LevelManager.spread t d) <$> cell tiles x y
           else cell tiles x' y'.
Proof.
  intros Hrect. unfold LevelManager._placeTile.
  destruct ((0 <=? y) && (y <? Z.of_nat (length tiles)) && (0 <=? x)
            && match (fun row => Z.of_nat (length row)) <$> head tiles with
               | Some w0 => x <? w0
               | None => false
               end) eqn:Hb.
  - apply andb_true_iff in Hb as [Hb Hxw]. apply andb_true_iff in Hb as [Hb Hx0].
    apply andb_true_iff in Hb as [Hy0 Hyh].
    apply Z.leb_le in Hy0, Hx0. apply Z.ltb_lt in Hyh.
    destruct (lookup_lt_is_Some_2 tiles (Z.to_nat y)) as [row Hr]; [lia|].
    pose proof (proj1 (Forall_lookup _ _) Hrect _ _ Hr) as Hlen.
    cbn beta in Hlen.
    assert (Z.to_nat x < w)%nat as Hxlt.
    { destruct tiles as [|row0 tiles0]; [done|]. cbn in Hxw.
      apply Z.ltb_lt in Hxw.
      rewrite (Forall_inv Hrect) in Hxw. lia. }
    destruct (lookup_lt_is_Some_2 row (Z.to_nat x)) as [t Ht]; [lia|].
    rewrite Hr. cbn. rewrite Ht. cbn.
    eexists. split; [reflexivity|]. split; [by rewrite length_insert|]. split.
    + apply Forall_insert; [done|]. by rewrite length_insert.
    + intros x' y'.
      assert (cell tiles x y = Some t) as -> by (apply cell_Some; eauto 6).
      cbn. case_bool_decide as Heq.
      * injection Heq as -> ->. apply cell_Some. split; [done|]. split; [done|].
        eexists. split.
        -- apply list_lookup_insert_eq. by eapply lookup_lt_Some.
        -- apply list_lookup_insert_eq. by eapply lookup_lt_Some.
      * unfold cell, at_index.
        destruct (Z.ltb_spec y' 0); [done|]. cbn.
        destruct (decide (Z.to_nat y' = Z.to_nat y)) as [Hy|Hy].
        -- rewrite Hy, list_lookup_insert_eq by (by eapply lookup_lt_Some).
           rewrite Hr. cbn.
           destruct (Z.ltb_spec x' 0); [done|].
           rewrite list_lookup_insert_ne; [done|].
           intros Hx. apply Heq. f_equal; lia.
        -- by rewrite list_lookup_insert_ne.
  - exists tiles. split; [done|]. split; [done|]. split; [done|].
    intros x' y'. case_bool_decide as Heq; [|done]. injection Heq as -> ->.
    rewrite (cell_None_outside w tiles x y Hrect); [done|].
    intros [Hy Hx].
    destruct tiles as [|row0 tiles0]; [cbn in Hy; lia|].
    cbn [head fmap option_fmap option_map] in Hb.
    rewrite (Forall_inv Hrect) in Hb.
    destruct (Z.leb_spec 0 y); [|lia]. destruct (Z.ltb_spec y (Z.of_nat (length (row0 :: tiles0)))); [|lia].
    destruct (Z.leb_spec 0 x); [|lia]. destruct (Z.ltb_spec x (Z.of_nat w)); [|lia].
    done.
Qed.

(** X26. Placing a tile on a rectangular grid keeps the grid's shape.
    If the coordinate is on the grid, the tile there is the old tile
    overridden by the keys of the tile data, so that a key the data does
    not carry (a word marker under a later barrier, say) survives; a
    coordinate off the grid changes nothing.  Every other tile is as
    before. *)
Theorem placeTile_merges_one_tile (w : nat) (tiles : list (list Grid.Tile))
    (x y : Z) (d : LevelManager.TileArg) :
  rect w tiles ->
  exists tiles',
    LevelManager._placeTile tiles x y d = Some tiles'
    /\ length tiles' = length tiles
    /\ rect w tiles'
    /\ cell tiles' x y = (fun t => LevelManager.spread t d) <$> cell tiles x y
    /\ forall x' y', (x', y') <> (x, y) -> cell tiles' x' y' = cell tiles x' y'.
Proof.
  intros Hrect.
  destruct (placeTile_rect w tiles x y d Hrect) as (tiles' & Hp & Hl & Hr & Hc).
  exists tiles'. repeat split; try done.
  - rewrite Hc. by rewrite bool_decide_eq_true_2.
  - intros x' y' Hne. rewrite Hc. by rewrite bool_decide_eq_false_2.
Qed.

Lemma placeTile_merges_one_tile_witness :
  exists tiles',
    LevelManager._placeTile (LevelManager._createEmptyGrid 3 2 "." Grid.pathway)
      1 1 (LevelManager.charType "@" Grid.exit_node) = Some tiles'
    /\ length tiles' = length (LevelManager._createEmptyGrid 3 2 "." Grid.pathway)
    /\ rect 3 tiles'
    /\ cell tiles' 1 1
       = (fun t => LevelManager.spread t (LevelManager.charType "@" Grid.exit_node))
           <$> cell (LevelManager._createEmptyGrid 3 2 "." Grid.pathway) 1 1
    /\ forall x' y', (x', y') <> (1, 1) ->
         cell tiles' x' y'
         = cell (LevelManager._createEmptyGrid 3 2 "." Grid.pathway) x' y'.
Proof.
  apply (placeTile_merges_one_tile 3
           (LevelManager._createEmptyGrid 3 2 "." Grid.pathway) 1 1
           (LevelManager.charType "@" Grid.exit_node)).
  repeat constructor.
Defined.


(** The loop of [_stringToTiles] from index [i] on. *)
Lemma stringLoop_rect (w : nat) (sx sy : Z) (f : nat -> ascii -> LevelManager.TileArg)
    (rest : string) (i : nat) (tiles : list (list Grid.Tile)) :
  rect w tiles ->
  exists tiles',
    LevelManager.stringLoop
      (fun i c tiles => LevelManager._placeTile tiles (sx + Z.of_nat i) sy (f i c))
      i rest tiles = Some tiles'
    /\ length tiles' = length tiles
    /\ rect w tiles'
    /\ forall x y,
         cell tiles' x y
         = match (if decide (y = sy)
                  then if x - sx <? Z.of_nat i then None
                       else String.get (Z.to_nat (x - sx) - i) rest
                  else None) with
           | Some c =>
               (fun t => LevelManager.spread t (f (Z.to_nat (x - sx)) c))
                 <$> cell tiles x y
           | None => cell tiles x y
           end.
Proof.
  revert i tiles. induction rest as [|c r IH]; intros i tiles Hrect.
  - exists tiles. repeat split; try done. intros x y.
    destruct (decide (y = sy)); [|done]. by destruct (x - sx <? Z.of_nat i).
  - cbn [LevelManager.stringLoop].
    destruct (placeTile_rect w tiles (sx + Z.of_nat i) sy (f i c) Hrect)
      as (tiles1 & -> & Hl1 & Hr1 & Hc1).
    cbn [mbind option_bind].
    destruct (IH (S i) tiles1 Hr1) as (tiles' & -> & Hl & Hr & Hc).
    exists tiles'. split; [done|]. split; [congruence|]. split; [done|].
    intros x y. rewrite Hc, !Hc1. clear Hc Hc1.
    destruct (decide (y = sy)) as [->|Hy].
    + destruct (Z.ltb_spec (x - sx) (Z.of_nat i)) as [Hlt|Hge].
      * destruct (Z.ltb_spec (x - sx) (Z.of_nat (S i))); [|lia].
        rewrite bool_decide_eq_false_2; [done|]. intros [= ?]. lia.
      * destruct (decide (x - sx = Z.of_nat i)) as [Heq|Hne].
        -- destruct (Z.ltb_spec (x - sx) (Z.of_nat (S i))); [|lia].
           rewrite bool_decide_eq_true_2 by (f_equal; lia).
           replace (Z.to_nat (x - sx) - i)%nat with 0%nat by lia.
           cbn [String.get]. replace (Z.to_nat (x - sx)) with i by lia.
           by replace (sx + Z.of_nat i) with x by lia.
        -- destruct (Z.ltb_spec (x - sx) (Z.of_nat (S i))); [lia|].
           replace (Z.to_nat (x - sx) - i)%nat
             with (S (Z.to_nat (x - sx) - S i))%nat by lia.
           cbn [String.get].
           rewrite !bool_decide_eq_false_2 by (intros [= ?]; lia). done.
    + rewrite bool_decide_eq_false_2 by (intros [= ? ?]; done). done.
Qed.

(** X27. [_stringToTiles] on a rectangular grid keeps the grid's shape
    and writes the string along row [startY] from column [startX]: the
    tile under the character with index [i], if the grid has one, is
    merged with that character's tile data (a [data-node] that starts or
    continues a typeable word, or a [decoration]), characters that fall
    off the grid are dropped, and every other tile is as before. *)
Theorem stringToTiles_writes_the_string (w : nat) (tiles : list (list Grid.Tile))
    (startX startY : Z) (str : string) (isTypeableWord : bool)
    (requiredWord : option string) :
  rect w tiles ->
  exists tiles',
    LevelManager._stringToTiles tiles startX startY str isTypeableWord requiredWord
    = Some tiles'
    /\ length tiles' = length tiles
    /\ rect w tiles'
    /\ forall x y,
         cell tiles' x y
         = match (if decide (y = startY) then charAt str (x - startX) else None) with
           | Some c =>
               (fun t => LevelManager.spread t
                           (LevelManager.wordTile str isTypeableWord requiredWord
                              (Z.to_nat (x - startX)) c))
                 <$> cell tiles x y
           | None => cell tiles x y
           end.
Proof.
  intros Hrect. unfold LevelManager._stringToTiles.
  destruct (stringLoop_rect w startX startY
              (LevelManager.wordTile str isTypeableWord requiredWord)
              str 0 tiles Hrect) as (tiles' & -> & Hl & Hr & Hc).
  exists tiles'. repeat split; try done.
  intros x y. rewrite Hc. unfold charAt.
  change (Z.of_nat 0) with 0. by rewrite Nat.sub_0_r.
Qed.

Lemma stringToTiles_writes_the_string_witness :
  exists tiles',
    LevelManager._stringToTiles (LevelManager._createEmptyGrid 3 2 "." Grid.pathway)
      1 1 "GO!" true None = Some tiles'
    /\ length tiles' = length (LevelManager._createEmptyGrid 3 2 "." Grid.pathway)
    /\ rect 3 tiles'
    /\ forall x y,
         cell tiles' x y
         = match (if decide (y = 1) then charAt "GO!" (x - 1) else None) with
           | Some c =>
               (fun t => LevelManager.spread t
                           (LevelManager.wordTile "GO!" true None (Z.to_nat (x - 1)) c))
                 <$> cell (LevelManager._createEmptyGrid 3 2 "." Grid.pathway) x y
           | None => cell (LevelManager._createEmptyGrid 3 2 "." Grid.pathway) x y
           end.
Proof.
  apply (stringToTiles_writes_the_string 3
           (LevelManager._createEmptyGrid 3 2 "." Grid.pathway) 1 1 "GO!" true None).
  repeat constructor.
Defined.


Lemma level1_defined :
  exists d, LevelManager._defineLevel1 = Some d
            /\ LevelManager.ld_id d = 1 /\ wellFormed d.
Proof.
  destruct LevelManager._defineLevel1 as [d|] eqn:H; [|by vm_compute in H].
  vm_compute in H. injection H as <-. eexists. split; [reflexivity|].
  split; [reflexivity|]. split; [reflexivity|]. split.
  { exists 20%nat. split; [reflexivity|]. repeat constructor. }
  split.
  { eexists. split; [vm_compute; reflexivity|discriminate]. }
  apply Forall_cons_2; [|apply Forall_nil_2].
  eexists. split; [vm_compute; reflexivity|discriminate].
Qed.

Lemma level2_defined :
  exists d, LevelManager._defineLevel2 = Some d
            /\ LevelManager.ld_id d = 2 /\ wellFormed d
            /\ Forall (Forall (fun t => Grid.type t <> Grid.exit_node
                                        /\ Grid.type t <> Grid.corrupted))
                      (LevelManager.ld_tiles d)
            /\ cell (LevelManager.ld_tiles d) 13 1
               = Some (Grid.mkTile "." Grid.pathway None false false)
            /\ cell (LevelManager.ld_tiles d) 13 3
               = Some (Grid.mkTile "." Grid.pathway None false false)
            /\ cell (LevelManager.ld_tiles d) 14 5
               = Some (Grid.mkTile "." Grid.pathway None false false).
Proof.
  destruct LevelManager._defineLevel2 as [d|] eqn:H; [|by vm_compute in H].
  vm_compute in H. injection H as <-. eexists. split; [reflexivity|].
  split; [reflexivity|]. split.
  { split; [reflexivity|]. split.
    { exists 30%nat. split; [reflexivity|]. repeat constructor. }
    split.
    { eexists. split; [vm_compute; reflexivity|discriminate]. }
    repeat (apply Forall_cons_2; [|]); [| | |apply Forall_nil_2];
      (eexists; split; [vm_compute; reflexivity|discriminate]). }
  split; [|repeat split; vm_compute; reflexivity].
  repeat (apply Forall_cons_2; [|]); try apply Forall_nil_2;
    (split; discriminate).
Qed.

Lemma levels_lookup (levelId : Z) :
  LevelManager.levels !! levelId
  = if decide (levelId = 1) then LevelManager._defineLevel1
    else if decide (levelId = 2) then LevelManager._defineLevel2
    else None.
Proof.
  unfold LevelManager.levels.
  destruct level1_defined as (d1 & -> & _). destruct level2_defined as (d2 & -> & _).
  cbn [omap list_omap fst snd fmap option_fmap option_map list_to_map foldr
       curry uncurry].
  destruct (decide (levelId = 1)) as [->|H1]; [by rewrite lookup_insert_eq|].
  rewrite lookup_insert_ne by done.
  destruct (decide (levelId = 2)) as [->|H2]; [by rewrite lookup_insert_eq|].
  by rewrite lookup_insert_ne.
Qed.

(** X28. [loadLevel] knows the ids 1 and 2 and no other number.  For a
    known id it records the id as current and returns that level, whose
    data is consistent: the grid has [height] rows of [width] tiles, and
    the player and every enemy start on a tile of the grid that is not a
    barrier.  For any other id it returns [null] and leaves the current
    id as it was. *)
Theorem loadLevel_known_levels_are_consistent (levelId : Z)
    (currentLevelId : option Z) :
  match LevelManager.loadLevel levelId currentLevelId with
  | (Some data, current) =>
      (levelId = 1 \/ levelId = 2)
      /\ current = Some levelId
      /\ LevelManager.ld_id data = levelId
      /\ wellFormed data
  | (None, current) =>
      levelId <> 1 /\ levelId <> 2 /\ current = currentLevelId
  end.
Proof.
  unfold LevelManager.loadLevel. rewrite levels_lookup.
  destruct (decide (levelId = 1)) as [->|H1].
  { destruct level1_defined as (d & -> & Hid & Hwf). auto. }
  destruct (decide (levelId = 2)) as [->|H2].
  { destruct level2_defined as (d & -> & Hid & Hwf & _). auto. }
  done.
Qed.

(** X29. The three tiles that [_defineLevel2] places with a string as
    tile data ([this._placeTile(tiles, 13, 1, '|', 'barrier')] and the
    like) keep the glyph and the type they had: the spread of a string
    carries neither a [char] nor a [type] key.  So in level 2, as
    [loadLevel] returns it, the tiles at (13, 1), (13, 3) and (14, 5),
    where the definition means to put a barrier, a corrupted tile and
    the exit node, still have the glyph [.] and the type [pathway], and
    no tile of the level has the type [exit-node] or [corrupted]. *)
Theorem level2_string_placements_are_lost (currentLevelId : option Z) :
  exists data,
    LevelManager.loadLevel 2 currentLevelId = (Some data, Some 2)
    /\ Forall (Forall (fun t => Grid.type t <> Grid.exit_node
                                /\ Grid.type t <> Grid.corrupted))
              (LevelManager.ld_tiles data)
    /\ Forall (fun c : Z * Z =>
                 Grid.char <$> cell (LevelManager.ld_tiles data) c.1 c.2
                 = Some "."%char
                 /\ Grid.type <$> cell (LevelManager.ld_tiles data) c.1 c.2
                    = Some Grid.pathway)
              [(13, 1); (13, 3); (14, 5)].
Proof.
  unfold LevelManager.loadLevel. rewrite levels_lookup.
  destruct (decide (2 = 1)); [done|]. destruct (decide (2 = 2)); [|done].
  destruct level2_defined as (d & -> & _ & _ & Hno & H1 & H2 & H3).
  exists d. split; [done|]. split; [done|].
  repeat (apply Forall_cons_2; [|]); try apply Forall_nil_2;
    cbn [fst snd]; by rewrite ?H1, ?H2, ?H3.
Qed.

(** ** The handler switched off: [setActive] *)

(** X30. Switching the handler off drops the queued commands, the
    pending operator and the count, and from then on no key does
    anything: whatever is pressed, the game is as [setActive(false)]
    left it, and switching the handler on again finds the queue and the
    buffers empty. *)
Theorem deactivated_handler_ignores_keys (ks : list string) (g : Game.t) :
  let g0 := Game.input (Input.setActive false) g in
  Keys.keys ks g0 = Game.Ok g0
  /\ Input.commandQueue (Game.inputHandler g0) = []
  /\ Input.getCommandBufferDisplay (Game.inputHandler g0) = ":"
  /\ Input.mode (Game.inputHandler g0) = Input.mode (Game.inputHandler g)
  /\ Input.actionListeners (Game.inputHandler g0)
     = Input.actionListeners (Game.inputHandler g)
  /\ Input.getCommands (Input.setActive true (Game.inputHandler g0))
     = ([], Input.setActive true (Game.inputHandler g0)).
Proof.
  cbn zeta. split; [|by destruct g as [[] ? ? ? ? ? ? ? ?]].
  set (g0 := Game.input (Input.setActive false) g).
  assert (Input.active (Game.inputHandler g0) = false) as Ha
    by (by destruct g as [[] ? ? ? ? ? ? ? ?]).
  clearbody g0. induction ks as [|k ks IH]; [done|].
  rewrite keys_cons. unfold Keys._onKeyDown at 1. rewrite Ha. cbn [negb Game.bind].
  apply IH.
Qed.
